(** * MAD device control loop: telemetry store, command transport,
      screen recovery and point-of-interest interaction.

    A shallow embedding of the parts of
      - mapadroid/data_handler/mitm_data/PlayerData.py
      - mapadroid/websocket/communicator.py
      - mapadroid/worker/WorkerBase.py
      - mapadroid/worker/WorkerQuests.py
    that the specification talks about, with the properties proved of them.

    Conventions.  Python [int] is [Z]; wall-clock time and coordinates
    (Python [float]) are rationals [Q], so that [math.floor] is [Qfloor];
    [None] is [option]'s [None]; a dict read with [.get(k, d)] is a record
    field of type [option _] read with [default d]; a dict used as a map
    is a [gmap]; a [set] is a [gset]. *)

From Stdlib Require Import ZArith QArith Qround Qabs Lia.
From stdpp Require Import gmap strings list fin_maps pretty.

Close Scope Q_scope.
Local Open Scope Z_scope.

(* ===================================================================== *)
(** * PlayerData.py : the telemetry store of one device                   *)
(* ===================================================================== *)

Module PlayerData.

(** A cell identifier as found in the "cells" list of a map-objects
    payload: hashable, compared by value. *)
Definition CellId := Z.

(** The payload dict of a write, as far as [update_latest] reads it:
    [gmo_payload.get("cells", None)]. *)
Record Payload := mkPayload { cells : option (list CellId) }.

Record Location := mkLocation { lat : Q; lng : Q }.

(** One entry of the latest-data holder. *)
Record LatestMitmDataHolderEntry := mkEntry {
  entry_value : Payload;
  entry_timestamp_received : option Z;
  entry_timestamp_of_data_retrieval : option Z;
  entry_location : option Location
}.

(** Modelled from the spec: [LatestMitmDataHolder] is imported from
    mapadroid.data_handler.mitm_data.holder and its code is not part of
    the sources at hand.  The specification gives it "overwrite semantics
    per kind": a map from telemetry kind to its last written entry. *)
Definition LatestMitmDataHolder := gmap string LatestMitmDataHolderEntry.

Definition holder_update (h : LatestMitmDataHolder) (key : string)
    (value : Payload) (timestamp_received timestamp_of_data_retrieval : option Z)
    (location : option Location) : LatestMitmDataHolder :=
  <[key := mkEntry value timestamp_received timestamp_of_data_retrieval location]> h.

(** The fields of [PlayerData] that [update_latest] touches.
    [last_possibly_moved] starts as the int 0 and is later assigned the
    [timestamp_received] argument, which is [Optional[int]]. *)
Record t := mk {
  latest_data_holder : LatestMitmDataHolder;
  last_cell_ids : list CellId;
  last_possibly_moved : option Z
}.

(** [__init__] *)
Definition init : t :=
  {| latest_data_holder := ∅; last_cell_ids := []; last_possibly_moved := Some 0 |}.

(** [set(cells).intersection(self.__last_cell_ids)] *)
Definition intersection (new_cells last : list CellId) : gset CellId :=
  list_to_set new_cells ∩ list_to_set last.

(** Python truthiness of a set: non-empty. *)
Definition set_bool (s : gset CellId) : bool := bool_decide (s ≠ ∅).

(** Python truthiness of [cells]: [not cells] holds for [None] and for
    the empty list. *)
Definition not_cells (c : option (list CellId)) : bool :=
  match c with
  | None => true
  | Some [] => true
  | Some (_ :: _) => false
  end.

(** [__parse_gmo_for_location] *)
Definition parse_gmo_for_location (self : t) (gmo_payload : Payload)
    (timestamp : option Z) : t :=
  let cells_ := cells gmo_payload in
  if not_cells cells_ then self
  else
    let new_cells := default [] cells_ in
    if set_bool (intersection new_cells (last_cell_ids self)) then
      {| latest_data_holder := latest_data_holder self;
         last_cell_ids := new_cells;
         last_possibly_moved := timestamp |}
    else self.

(** [update_latest] *)
Definition update_latest (self : t) (key : string) (value : Payload)
    (timestamp_received timestamp_of_data_retrieval : option Z)
    (location : option Location) : t :=
  let self1 :=
    {| latest_data_holder :=
         holder_update (latest_data_holder self) key value timestamp_received
                       timestamp_of_data_retrieval location;
       last_cell_ids := last_cell_ids self;
       last_possibly_moved := last_possibly_moved self |} in
  if String.eqb key "106" then parse_gmo_for_location self1 value timestamp_received
  else self1.

(** [get_last_possibly_moved] *)
Definition get_last_possibly_moved (self : t) : option Z := last_possibly_moved self.

(** [get_specific_latest_data] *)
Definition get_specific_latest_data (self : t) (key : string)
    : option LatestMitmDataHolderEntry :=
  latest_data_holder self !! key.

(** One call of [update_latest] with its arguments, and a sequence of
    calls on the same object. *)
Record Write := mkWrite {
  write_key : string;
  write_value : Payload;
  write_timestamp_received : option Z;
  write_timestamp_of_data_retrieval : option Z;
  write_location : option Location
}.

Definition write (self : t) (w : Write) : t :=
  update_latest self (write_key w) (write_value w) (write_timestamp_received w)
                (write_timestamp_of_data_retrieval w) (write_location w).

Definition writes (self : t) (ws : list Write) : t := foldl write self ws.

(** ** Player statistics: [gen_player_stats] *)

(** The [player_stats] dict of an inventory item.  The two values go
    through [int(...)]; they are ints here. *)
Record PlayerStats := mkPlayerStats {
  stats_level : option Z;
  stats_poke_stop_visits : option Z
}.

(** [data_inventory['inventory_item_data']['player_stats']]: each key
    may be missing. *)
Record InventoryItemData := mkInventoryItemData { player_stats : option PlayerStats }.

Record InventoryItem := mkInventoryItem { inventory_item_data : option InventoryItemData }.

Record InventoryDelta := mkInventoryDelta { inventory_items : option (list InventoryItem) }.

(** The [data] dict handed to [gen_player_stats]. *)
Record Data := mkData { inventory_delta : option InventoryDelta }.

(** The attributes [_level], [_poke_stop_visits] and [_injected]. *)
Record Stats := mkStats {
  level : Z;
  poke_stop_visits : Z;
  injected : bool
}.

(** [__init__], for these attributes. *)
Definition init_stats : Stats := mkStats 0 0 false.

(** The exceptions the dict and list operations of [gen_player_stats]
    raise. *)
Inductive Error := KeyError | TypeError.

(** [set_injection_status], [get_injection_status] *)
Definition set_injection_status (status : bool) (self : Stats) : Stats :=
  mkStats (level self) (poke_stop_visits self) status.

Definition get_injection_status (self : Stats) : bool := injected self.

(** [__set_level] *)
Definition set_level (level_ : Z) (self : Stats) : Stats :=
  if negb (level self =? level_) then mkStats level_ (poke_stop_visits self) (injected self)
  else self.

Definition get_level (self : Stats) : Z := level self.

(** [__set_poke_stop_visits] *)
Definition set_poke_stop_visits (visits : Z) (self : Stats) : Stats :=
  mkStats (level self) visits (injected self).

Definition get_poke_stop_visits (self : Stats) : Z := poke_stop_visits self.

(** [for data_inventory in stats]: the result is the exception raised,
    if any, and the object as the loop leaves it. *)
Fixpoint gen_player_stats_loop (stats : list InventoryItem) (self : Stats)
    : option Error * Stats :=
  match stats with
  | [] => (None, self)
  | data_inventory :: rest =>
      match inventory_item_data data_inventory with
      | None => (Some KeyError, self)
      | Some item_data =>
          match player_stats item_data with
          | None => (Some KeyError, self)
          | Some player_stats =>
              match stats_level player_stats with
              | None => (Some KeyError, self)
              | Some player_level =>
                  if player_level >? 0 then
                    let self := set_level player_level self in
                    match stats_poke_stop_visits player_stats with
                    | None => (Some KeyError, self)
                    | Some visits => (None, set_poke_stop_visits visits self)
                    end
                  else gen_player_stats_loop rest self
              end
          end
      end
  end.

(** [gen_player_stats].  [len(stats)] raises TypeError when
    [inventory_items] is missing, [.get] having returned [None]. *)
Definition gen_player_stats (data : Data) (self : Stats) : option Error * Stats :=
  match inventory_delta data with
  | None => (None, self)
  | Some delta =>
      match inventory_items delta with
      | None => (Some TypeError, self)
      | Some stats =>
          if Z.of_nat (length stats) >? 0 then gen_player_stats_loop stats self
          else (None, self)
      end
  end.

(** An inventory item with all the keys [gen_player_stats] reads. *)
Definition stats_item (level_visits : Z * Z) : InventoryItem :=
  mkInventoryItem (Some (mkInventoryItemData
    (Some (mkPlayerStats (Some (fst level_visits)) (Some (snd level_visits)))))).

(** An item that reports level [level_] and lacks [poke_stop_visits]. *)
Definition level_only_item (level_ : Z) : InventoryItem :=
  mkInventoryItem (Some (mkInventoryItemData (Some (mkPlayerStats (Some level_) None)))).

(** The [data] dict whose inventory delta lists [items]. *)
Definition inventory (items : list InventoryItem) : Data :=
  mkData (Some (mkInventoryDelta (Some items))).

End PlayerData.

(* ===================================================================== *)
(** * communicator.py : the command transport of one device session       *)
(* ===================================================================== *)

Module Communicator.

(** [MessageTyping = Union[str, bytes]] *)
Inductive MessageTyping :=
| Text (s : string)
| Binary (b : list Byte.byte).

Inductive ScreenshotType := JPEG | PNG.

Inductive Exception :=
| WebsocketWorkerConnectionClosedException
| WebsocketWorkerTimeoutException
| WebsocketWorkerRemovedException
| ZeroDivisionError
| OSError
| TypeError.

(** What [websocket_client_entry.send_and_wait] gives back to its caller:
    an exception, [None], or the device's reply. *)
Definition Reply : Type := Exception + option MessageTyping.

(** A method of the communicator as a tree of the effects it performs, in
    program order.  [Acquire]/[Release] are the entry and exit of
    [async with self.__send_mutex]; [SendAndWait] is the call of
    [send_and_wait], which sends the command and suspends the coroutine
    until the reply (or an exception) arrives. *)
Inductive Prog (A : Type) : Type :=
| Ret (a : A)
| Raise (e : Exception)
| Acquire (k : Prog A)
| Release (k : Prog A)
| SendAndWait (message : MessageTyping) (timeout : Q) (byte_command : option Z)
              (k : Reply -> Prog A)
| ReadFile (path : string) (k : Exception + list Byte.byte -> Prog A)
| WriteFile (path : string) (data : list Byte.byte) (k : option Exception -> Prog A).

Arguments Ret {A} a.
Arguments Raise {A} e.
Arguments Acquire {A} k.
Arguments Release {A} k.
Arguments SendAndWait {A} message timeout byte_command k.
Arguments ReadFile {A} path k.
Arguments WriteFile {A} path data k.

(** Sequencing ([await] of a sub-coroutine, then the rest). *)
Fixpoint bind {A B} (p : Prog A) (f : A -> Prog B) : Prog B :=
  match p with
  | Ret a => f a
  | Raise e => Raise e
  | Acquire k => Acquire (bind k f)
  | Release k => Release (bind k f)
  | SendAndWait m t b k => SendAndWait m t b (fun r => bind (k r) f)
  | ReadFile p k => ReadFile p (fun r => bind (k r) f)
  | WriteFile p d k => WriteFile p d (fun r => bind (k r) f)
  end.

(** [try: p except exc: handler] for the exceptions [catches] selects. *)
Fixpoint try_except {A} (p : Prog A) (catches : Exception -> bool) (handler : Prog A)
    : Prog A :=
  match p with
  | Ret a => Ret a
  | Raise e => if catches e then handler else Raise e
  | Acquire k => Acquire (try_except k catches handler)
  | Release k => Release (try_except k catches handler)
  | SendAndWait m t b k => SendAndWait m t b (fun r => try_except (k r) catches handler)
  | ReadFile p k => ReadFile p (fun r => try_except (k r) catches handler)
  | WriteFile p d k => WriteFile p d (fun r => try_except (k r) catches handler)
  end.

Local Notation "'do' x <- p ; q" := (bind p (fun x => q))
  (at level 10, x name, p at level 100, q at level 200).

(** ** String helpers of the Python standard library *)

Definition CRLF : string := String (Ascii.ascii_of_nat 13) (String (Ascii.ascii_of_nat 10) EmptyString).

(** [a in s] for strings. *)
Definition contains (a s : string) : bool :=
  match String.index 0 a s with
  | Some _ => true
  | None => false
  end.

(** [str.isspace] on one character, ASCII range. *)
Definition is_space (c : Ascii.ascii) : bool :=
  let n := Ascii.nat_of_ascii c in
  ((9 <=? n)%nat && (n <=? 13)%nat) || ((28 <=? n)%nat && (n <=? 32)%nat).

Fixpoint lstrip (s : string) : string :=
  match s with
  | EmptyString => EmptyString
  | String c s' => if is_space c then lstrip s' else s
  end.

Definition rev_string (s : string) : string :=
  String.string_of_list_ascii (rev (String.list_ascii_of_string s)).

(** [str.strip()] *)
Definition strip (s : string) : string :=
  rev_string (lstrip (rev_string (lstrip s))).

(** [str(int(...))] *)
Definition str_int (z : Z) : string := pretty z.

Section Methods.

(** [str.format] of a float, and the great-circle distance of
    mapadroid.utils.geo: neither is part of the sources at hand, and
    no property below depends on what they compute. *)
Variable format_float : Q -> string.
Variable get_distance_of_two_points_in_meters : Q -> Q -> Q -> Q -> Q.

Record Location := mkLocation { lat : Q; lng : Q }.

(** The fields of a [Communicator] its methods read.  The send mutex
    itself is state shared between the coroutines of one session: it is
    part of the state the programs run on ([World], [Pool] below). *)
Record t := mk { command_timeout : Q }.

Definition reraise {A} (r : Exception + A) : Prog A :=
  match r with
  | inl e => Raise e
  | inr a => Ret a
  end.

(** [__run_get_gesponse] *)
Definition run_get_gesponse (self : t) (message : MessageTyping) (timeout : option Q)
    : Prog (option MessageTyping) :=
  Acquire (
    let timeout := match timeout with None => command_timeout self | Some t => t end in
    SendAndWait message timeout None (fun result =>
    Release (reraise result))).

(** ["OK" == result.strip()]: a bytes reply never equals a str. *)
Definition is_ok (result : option MessageTyping) : bool :=
  match result with
  | Some (Text s) => String.eqb "OK" (strip s)
  | Some (Binary _) => false
  | None => false
  end.

(** [__run_and_ok_bytes] *)
Definition run_and_ok_bytes (self : t) (message : MessageTyping) (timeout : Q)
    (byte_command : option Z) : Prog bool :=
  Acquire (
    SendAndWait message timeout byte_command (fun result =>
    Release (
      match result with
      | inl e => Raise e
      | inr result => Ret (is_ok result)
      end))).

(** [__run_and_ok] *)
Definition run_and_ok (self : t) (command : string) (timeout : Q) : Prog bool :=
  run_and_ok_bytes self (Text command) timeout None.

(** [if not data: read the file] shared by [install_apk] and
    [install_bundle]. *)
Definition data_or_file (filepath : string) (data : option (list Byte.byte))
    : Prog (list Byte.byte) :=
  match data with
  | Some (b :: bs) => Ret (b :: bs)
  | _ => ReadFile filepath reraise
  end.

Definition install_apk (self : t) (timeout : Q) (filepath : string)
    (data : option (list Byte.byte)) : Prog bool :=
  do data <- data_or_file filepath data ;
  run_and_ok_bytes self (Binary data) timeout (Some 1).

Definition install_bundle (self : t) (timeout : Q) (filepath : string)
    (data : option (list Byte.byte)) : Prog bool :=
  do data <- data_or_file filepath data ;
  run_and_ok_bytes self (Binary data) timeout (Some 2).

Definition start_app (self : t) (package_name : string) : Prog bool :=
  run_and_ok self ("more start " ++ package_name ++ CRLF) (command_timeout self).

Definition stop_app (self : t) (package_name : string) : Prog bool :=
  do ok <- run_and_ok self ("more stop " ++ package_name ++ CRLF) (command_timeout self) ;
  if negb ok then Ret false else Ret true.

(** [passthrough]: calls [send_and_wait] directly. *)
Definition passthrough (self : t) (command : string) : Prog (option MessageTyping) :=
  SendAndWait (Text ("passthrough " ++ command)) (command_timeout self) None reraise.

Definition reboot (self : t) : Prog bool :=
  run_and_ok self ("more reboot now" ++ CRLF) (command_timeout self).

Definition restart_app (self : t) (package_name : string) : Prog bool :=
  run_and_ok self ("more restart " ++ package_name ++ CRLF) (command_timeout self).

Definition reset_app_data (self : t) (package_name : string) : Prog bool :=
  run_and_ok self ("more reset " ++ package_name ++ CRLF) (command_timeout self).

Definition clear_app_cache (self : t) (package_name : string) : Prog bool :=
  run_and_ok self ("more cache " ++ package_name ++ CRLF) (command_timeout self).

Definition magisk_off (self : t) : Prog unit :=
  do _ <- passthrough self "su -c magiskhide --disable" ; Ret tt.

Definition magisk_on (self : t) : Prog unit :=
  do _ <- passthrough self "su -c magiskhide --enable" ; Ret tt.

Definition turn_screen_on (self : t) : Prog bool :=
  run_and_ok self ("more screen on" ++ CRLF) (command_timeout self).

Definition click (self : t) (click_x click_y : Z) : Prog bool :=
  run_and_ok self
    ("screen click " ++ str_int click_x ++ " " ++ str_int click_y ++ CRLF)
    (command_timeout self).

Definition swipe (self : t) (x1 y1 x2 y2 : Z) : Prog (option MessageTyping) :=
  run_get_gesponse self
    (Text ("touch swipe " ++ str_int x1 ++ " " ++ str_int y1 ++ " "
             ++ str_int x2 ++ " " ++ str_int y2 ++ CRLF)) None.

Definition touch_and_hold (self : t) (x1 y1 x2 y2 duration : Z) : Prog bool :=
  run_and_ok self
    ("touch swipe " ++ str_int x1 ++ " " ++ str_int y1 ++ " "
       ++ str_int x2 ++ " " ++ str_int y2 ++ " " ++ str_int duration)
    (command_timeout self).

Definition get_screensize (self : t) : Prog (option MessageTyping) :=
  run_get_gesponse self (Text "screen size") None.

Definition uiautomator (self : t) : Prog (option MessageTyping) :=
  run_get_gesponse self (Text "more uiautomator") None.

(** [get_screenshot] *)
Definition get_screenshot (self : t) (path : string) (quality : Z)
    (screenshot_type : ScreenshotType) : Prog bool :=
  if (quality <? 10) || (quality >? 100) then Ret false
  else
    let screenshot_type_str :=
      match screenshot_type with PNG => "png" | JPEG => "jpeg" end in
    do encoded <- run_get_gesponse self
                 (Text ("screen capture " ++ screenshot_type_str ++ " "
                          ++ str_int quality ++ CRLF)) None ;
    match encoded with
    | None => Ret false
    | Some (Text encoded) =>
        if contains "KO: " encoded then Ret false
        else if negb (contains "OK:" encoded) then Ret false
        else Ret false
    | Some (Binary encoded) =>
        WriteFile path encoded (fun r =>
          match r with
          | Some e => Raise e
          | None => Ret true
          end)
    end.

Definition back_button (self : t) : Prog bool :=
  run_and_ok self ("screen back" ++ CRLF) (command_timeout self).

Definition home_button (self : t) : Prog bool :=
  run_and_ok self "touch keyevent 3" (command_timeout self).

Definition enter_text (self : t) (text : string) : Prog bool :=
  run_and_ok self ("touch text " ++ text) (command_timeout self).

(** [a in state] where the reply is a str or bytes: looking for a str in
    bytes raises TypeError. *)
Definition reply_contains (a : string) (m : MessageTyping) : Prog bool :=
  match m with
  | Text s => Ret (contains a s)
  | Binary _ => Raise TypeError
  end.

Definition is_screen_on (self : t) : Prog bool :=
  do state <- run_get_gesponse self (Text ("more state screen" ++ CRLF)) None ;
  match state with
  | None => Ret false
  | Some state => reply_contains "on" state
  end.

Definition is_pogo_topmost (self : t) : Prog bool :=
  do topmost <- run_get_gesponse self (Text ("more topmost app" ++ CRLF)) None ;
  match topmost with
  | None => Ret false
  | Some topmost => reply_contains "com.nianticlabs.pokemongo" topmost
  end.

(** [topmost_app].  In [if topmost and "KO:" in topmost], [None] and an
    empty str or bytes are falsy, so the membership test is not reached
    for them. *)
Definition topmost_app (self : t) : Prog (option MessageTyping) :=
  do topmost <- run_get_gesponse self (Text ("more topmost app" ++ CRLF)) None ;
  match topmost with
  | None | Some (Text EmptyString) | Some (Binary []) => Ret topmost
  | Some m =>
      do ko <- reply_contains "KO:" m ;
      if ko then Ret None else Ret topmost
  end.

Definition set_location (self : t) (location : Location) (altitude : Q)
    : Prog (option MessageTyping) :=
  run_get_gesponse self
    (Text ("geo fix " ++ format_float (lat location) ++ " "
             ++ format_float (lng location) ++ " " ++ format_float altitude ++ CRLF))
    None.

Definition terminate_connection (self : t) : Prog bool :=
  try_except (run_and_ok self ("exit" ++ CRLF) 5%Q)
    (fun e => match e with WebsocketWorkerConnectionClosedException => true | _ => false end)
    (Ret true).

(** [cleanup] *)
Definition cleanup (self : t) : Prog unit :=
  try_except (do _ <- terminate_connection self ; Ret tt)
    (fun e => match e with
              | WebsocketWorkerConnectionClosedException
              | WebsocketWorkerTimeoutException => true
              | _ => false
              end)
    (Ret tt).

(** [walk_from_to] *)
Definition walk_from_to (self : t) (location_from location_to : Location) (speed : Q)
    : Prog (option MessageTyping) :=
  let distance :=
    get_distance_of_two_points_in_meters (lat location_from) (lng location_from)
                                         (lat location_to) (lng location_to) in
  let speed_meters := (speed / (36 # 10))%Q in
  if Qeq_bool speed_meters 0 then Raise ZeroDivisionError
  else
    let seconds_traveltime := (distance / speed_meters)%Q in
    run_get_gesponse self
      (Text ("geo walk " ++ format_float (lat location_from) ++ " "
               ++ format_float (lng location_from) ++ " "
               ++ format_float (lat location_to) ++ " "
               ++ format_float (lng location_to) ++ " " ++ format_float speed ++ CRLF))
      (Some (command_timeout self + seconds_traveltime)%Q).

(** [get_compressed_logcat] *)
Definition get_compressed_logcat (self : t) (path : string) : Prog bool :=
  do encoded <- run_get_gesponse self (Text ("more logcat" ++ CRLF)) None ;
  match encoded with
  | None => Ret false
  | Some (Text _) => Ret false
  | Some (Binary encoded) =>
      WriteFile path encoded (fun r =>
        match r with
        | Some e => Raise e
        | None => Ret true
        end)
  end.

(** Every public method of the class, with its arguments; [call] runs
    it and forgets the result. *)
Inductive Call :=
| CallCleanup
| CallInstallApk (timeout : Q) (filepath : string) (data : option (list Byte.byte))
| CallInstallBundle (timeout : Q) (filepath : string) (data : option (list Byte.byte))
| CallStartApp (package_name : string)
| CallStopApp (package_name : string)
| CallPassthrough (command : string)
| CallReboot
| CallRestartApp (package_name : string)
| CallResetAppData (package_name : string)
| CallClearAppCache (package_name : string)
| CallMagiskOff
| CallMagiskOn
| CallTurnScreenOn
| CallClick (click_x click_y : Z)
| CallSwipe (x1 y1 x2 y2 : Z)
| CallTouchAndHold (x1 y1 x2 y2 duration : Z)
| CallGetScreensize
| CallUiautomator
| CallGetScreenshot (path : string) (quality : Z) (screenshot_type : ScreenshotType)
| CallBackButton
| CallHomeButton
| CallEnterText (text : string)
| CallIsScreenOn
| CallIsPogoTopmost
| CallTopmostApp
| CallSetLocation (location : Location) (altitude : Q)
| CallTerminateConnection
| CallWalkFromTo (location_from location_to : Location) (speed : Q)
| CallGetCompressedLogcat (path : string).

Definition void {A} (p : Prog A) : Prog unit := do _ <- p ; Ret tt.

Definition call (self : t) (c : Call) : Prog unit :=
  match c with
  | CallCleanup => cleanup self
  | CallInstallApk timeout filepath data => void (install_apk self timeout filepath data)
  | CallInstallBundle timeout filepath data =>
      void (install_bundle self timeout filepath data)
  | CallStartApp package_name => void (start_app self package_name)
  | CallStopApp package_name => void (stop_app self package_name)
  | CallPassthrough command => void (passthrough self command)
  | CallReboot => void (reboot self)
  | CallRestartApp package_name => void (restart_app self package_name)
  | CallResetAppData package_name => void (reset_app_data self package_name)
  | CallClearAppCache package_name => void (clear_app_cache self package_name)
  | CallMagiskOff => magisk_off self
  | CallMagiskOn => magisk_on self
  | CallTurnScreenOn => void (turn_screen_on self)
  | CallClick click_x click_y => void (click self click_x click_y)
  | CallSwipe x1 y1 x2 y2 => void (swipe self x1 y1 x2 y2)
  | CallTouchAndHold x1 y1 x2 y2 duration =>
      void (touch_and_hold self x1 y1 x2 y2 duration)
  | CallGetScreensize => void (get_screensize self)
  | CallUiautomator => void (uiautomator self)
  | CallGetScreenshot path quality screenshot_type =>
      void (get_screenshot self path quality screenshot_type)
  | CallBackButton => void (back_button self)
  | CallHomeButton => void (home_button self)
  | CallEnterText text => void (enter_text self text)
  | CallIsScreenOn => void (is_screen_on self)
  | CallIsPogoTopmost => void (is_pogo_topmost self)
  | CallTopmostApp => void (topmost_app self)
  | CallSetLocation location altitude => void (set_location self location altitude)
  | CallTerminateConnection => void (terminate_connection self)
  | CallWalkFromTo location_from location_to speed =>
      void (walk_from_to self location_from location_to speed)
  | CallGetCompressedLogcat path => void (get_compressed_logcat self path)
  end.

(** The methods that reach the device through [passthrough]. *)
Definition uses_passthrough (c : Call) : bool :=
  match c with
  | CallPassthrough _ | CallMagiskOff | CallMagiskOn => true
  | _ => false
  end.

End Methods.

(** ** One coroutine running alone *)

(** The device session as one coroutine sees it when nothing else runs:
    the state of the send mutex, the replies [send_and_wait] is going to
    return (call after call), the commands sent so far (oldest first),
    the files of the host, and the outcome of each file write to come
    ([Some e]: the write raises [e]). *)
Record World := mkWorld {
  mutex_locked : bool;
  replies : list Reply;
  sent : list (MessageTyping * Q * option Z);
  files : gmap string (list Byte.byte);
  write_errors : list (option Exception)
}.

(** Runs a method to its end.  [None]: the coroutine never finishes on
    this world (it waits for a mutex nobody releases, or for a reply that
    never comes). *)
Fixpoint run {A} (p : Prog A) (w : World) : option ((Exception + A) * World) :=
  match p with
  | Ret a => Some (inr a, w)
  | Raise e => Some (inl e, w)
  | Acquire k =>
      if mutex_locked w then None
      else run k (mkWorld true (replies w) (sent w) (files w) (write_errors w))
  | Release k =>
      run k (mkWorld false (replies w) (sent w) (files w) (write_errors w))
  | SendAndWait m t b k =>
      match replies w with
      | [] => None
      | r :: rs =>
          run (k r) (mkWorld (mutex_locked w) rs (sent w ++ [(m, t, b)]) (files w)
                             (write_errors w))
      end
  | ReadFile path k =>
      run (k (match files w !! path with Some d => inr d | None => inl OSError end)) w
  | WriteFile path d k =>
      match write_errors w with
      | Some e :: es =>
          run (k (Some e)) (mkWorld (mutex_locked w) (replies w) (sent w) (files w) es)
      | None :: es =>
          run (k None)
              (mkWorld (mutex_locked w) (replies w) (sent w) (<[path := d]> (files w)) es)
      | [] =>
          run (k None)
              (mkWorld (mutex_locked w) (replies w) (sent w) (<[path := d]> (files w)) [])
      end
  end.

(** ** Several coroutines on one session *)

(** A coroutine is either ready to run its next effect, or suspended in
    [send_and_wait]: its command is on the wire and the reply is awaited. *)
Inductive Task :=
| Running (p : Prog unit)
| Awaiting (k : Reply -> Prog unit).

(** The coroutines of one session and the owner of its send mutex. *)
Record Pool := mkPool {
  owner : option nat;
  tasks : list Task
}.

(** One scheduling step of the event loop: some coroutine [i] performs
    its next effect.  [Acquire] is enabled only while the mutex is free;
    a reply may arrive at any later step, with any content. *)
Inductive step : Pool -> Pool -> Prop :=
| step_acquire P i k :
    tasks P !! i = Some (Running (Acquire k)) ->
    owner P = None ->
    step P (mkPool (Some i) (<[i := Running k]> (tasks P)))
| step_release P i k :
    tasks P !! i = Some (Running (Release k)) ->
    step P (mkPool None (<[i := Running k]> (tasks P)))
| step_send P i m t b k :
    tasks P !! i = Some (Running (SendAndWait m t b k)) ->
    step P (mkPool (owner P) (<[i := Awaiting k]> (tasks P)))
| step_reply P i k r :
    tasks P !! i = Some (Awaiting k) ->
    step P (mkPool (owner P) (<[i := Running (k r)]> (tasks P)))
| step_read P i path k r :
    tasks P !! i = Some (Running (ReadFile path k)) ->
    step P (mkPool (owner P) (<[i := Running (k r)]> (tasks P)))
| step_write P i path d k r :
    tasks P !! i = Some (Running (WriteFile path d k)) ->
    step P (mkPool (owner P) (<[i := Running (k r)]> (tasks P))).

Inductive reachable (P : Pool) : Pool -> Prop :=
| reachable_refl : reachable P P
| reachable_step Q R : reachable P Q -> step Q R -> reachable P R.

(** Coroutine [i] has a command in flight. *)
Definition in_flight (P : Pool) (i : nat) : Prop :=
  exists k, tasks P !! i = Some (Awaiting k).

(** The pool at the start: every call still to begin, the mutex free. *)
Definition start (ps : list (Prog unit)) : Pool := mkPool None (Running <$> ps).

(** [serialized held p]: along every path of [p], started with the mutex
    held by this coroutine or not ([held]), each [send_and_wait] happens
    with the mutex held, the mutex is taken only when not held and given
    back only when held, and it is not held when [p] returns or raises. *)
Fixpoint serialized {A} (held : bool) (p : Prog A) : Prop :=
  match p with
  | Ret _ => held = false
  | Raise _ => held = false
  | Acquire k => held = false /\ serialized true k
  | Release k => held = true /\ serialized false k
  | SendAndWait _ _ _ k => held = true /\ forall r, serialized held (k r)
  | ReadFile _ k => forall r, serialized held (k r)
  | WriteFile _ _ k => forall r, serialized held (k r)
  end.

(** What the mutex guarantees of a pool: every coroutine is in a state
    that fits its holding the mutex or not. *)
Definition task_ok (held : bool) (t : Task) : Prop :=
  match t with
  | Running p => serialized held p
  | Awaiting k => held = true /\ forall r, serialized true (k r)
  end.

Definition holds (P : Pool) (i : nat) : bool := bool_decide (owner P = Some i).

Definition pool_ok (P : Pool) : Prop :=
  forall i t, tasks P !! i = Some t -> task_ok (holds P i) t.

(** The qualities [get_screenshot] accepts. *)
Definition quality_ok (quality : Z) : Prop := 10 <= quality <= 100.

(** [balanced held p]: along every path of [p], started with the mutex
    held by this coroutine or not, the mutex is taken only when not held,
    given back only when held, and not held when [p] returns or raises.
    Unlike [serialized] it says nothing of where [send_and_wait] is
    called. *)
Fixpoint balanced {A} (held : bool) (p : Prog A) : Prop :=
  match p with
  | Ret _ => held = false
  | Raise _ => held = false
  | Acquire k => held = false /\ balanced true k
  | Release k => held = true /\ balanced false k
  | SendAndWait _ _ _ k => forall r, balanced held (k r)
  | ReadFile _ k => forall r, balanced held (k r)
  | WriteFile _ _ k => forall r, balanced held (k r)
  end.

(** [sends_at_most n p]: no path of [p] calls [send_and_wait] more than
    [n] times. *)
Fixpoint sends_at_most {A} (n : nat) (p : Prog A) : Prop :=
  match p with
  | Ret _ => True
  | Raise _ => True
  | Acquire k => sends_at_most n k
  | Release k => sends_at_most n k
  | SendAndWait _ _ _ k =>
      match n with
      | O => False
      | S n' => forall r, sends_at_most n' (k r)
      end
  | ReadFile _ k => forall r, sends_at_most n (k r)
  | WriteFile _ _ k => forall r, sends_at_most n (k r)
  end.

(** A str made of whitespace only (possibly empty). *)
Definition all_space (s : string) : bool :=
  forallb is_space (String.list_ascii_of_string s).

End Communicator.

(* ===================================================================== *)
(** * The worker's effects: state, exceptions, and a log of actions       *)
(* ===================================================================== *)

Module Eff.

Inductive Exception :=
| InternalStopWorkerException
| ValueError
| TypeError
| AttributeError
| WebsocketWorkerRemovedException
| WebsocketWorkerTimeoutException
| WebsocketWorkerConnectionClosedException.

(** A coroutine of the worker: it reads and updates the worker object
    [S] and either returns a value or raises. *)
Definition M (S A : Type) : Type := S -> (Exception + A) * S.

Definition ret {S A} (a : A) : M S A := fun s => (inr a, s).

Definition raise {S A} (e : Exception) : M S A := fun s => (inl e, s).

Definition bind {S A B} (m : M S A) (f : A -> M S B) : M S B :=
  fun s =>
    match m s with
    | (inl e, s') => (inl e, s')
    | (inr a, s') => f a s'
    end.

Definition gets {S A} (f : S -> A) : M S A := fun s => (inr (f s), s).

Definition modify {S} (f : S -> S) : M S unit := fun s => (inr tt, f s).

(** [try: m except ...: handler], for the exceptions to which [handler]
    assigns a handler. *)
Definition catch {S A} (m : M S A) (handler : Exception -> option (M S A)) : M S A :=
  fun s =>
    match m s with
    | (inl e, s') =>
        match handler e with
        | Some h => h s'
        | None => (inl e, s')
        end
    | (inr a, s') => (inr a, s')
    end.

(** A coroutine of a base object run on an object that contains it. *)
Definition lift {S T A} (get : T -> S) (set : S -> T -> T) (m : M S A) : M T A :=
  fun t =>
    match m (get t) with
    | (r, s') => (r, set s' t)
    end.

(** A coroutine with a loop that has no bound of its own, run for a
    bounded number of passes: [None] when the loop is still going after
    them. *)
Definition L (S A : Type) : Type := S -> option ((Exception + A) * S).

Definition done {S A} (m : M S A) : L S A := fun s => Some (m s).

Definition bindL {S A B} (m : L S A) (f : A -> L S B) : L S B :=
  fun s =>
    match m s with
    | None => None
    | Some (inl e, s') => Some (inl e, s')
    | Some (inr a, s') => f a s'
    end.

(** [m] returns (it does not raise), and what it returns satisfies [P]. *)
Definition yields {S A} (m : M S A) (P : A -> Prop) : Prop :=
  forall s, exists a s', m s = (inr a, s') /\ P a.

End Eff.

Notation "'do' x <- p ; q" := (Eff.bind p (fun x => q))
  (at level 10, x name, p at level 100, q at level 200).
Notation "p ;; q" := (Eff.bind p (fun _ => q))
  (at level 100, q at level 200, right associativity).

(** Python truthiness and enum members shared by the worker modules. *)

Module ScreenType.
(** mapadroid.ocr.screen_type.ScreenType: the members the worker names,
    and [OTHER] for every other member of the enum. *)
Inductive t :=
| UNDEFINED | POGO | QUEST | BLACK | CLOSE | GAMEDATA | DISABLED | UPDATE
| ERROR | FAILURE | NOGGL | GPS | SN | NOTRESPONDING
| OTHER (value : Z).

Global Instance eq_dec : EqDecision t.
Proof. solve_decision. Defined.

(** [a == b] on members of the enum. *)
Definition eqb (a b : t) : bool :=
  match a, b with
  | UNDEFINED, UNDEFINED | POGO, POGO | QUEST, QUEST | BLACK, BLACK | CLOSE, CLOSE
  | GAMEDATA, GAMEDATA | DISABLED, DISABLED | UPDATE, UPDATE | ERROR, ERROR
  | FAILURE, FAILURE | NOGGL, NOGGL | GPS, GPS | SN, SN
  | NOTRESPONDING, NOTRESPONDING => true
  | OTHER x, OTHER y => x =? y
  | _, _ => false
  end.
End ScreenType.

Module FortSearchResultTypes.
Inductive t :=
| UNDEFINED | QUEST | TIME | COOLDOWN | INVENTORY | LIMIT | UNAVAILABLE
| OUT_OF_RANGE | FULL.
End FortSearchResultTypes.

Module ProtoIdentifier.
(** mapadroid.utils.ProtoIdentifier: the members the worker names, and
    [OTHER] for every other member of the enum. *)
Inductive t :=
| GMO | ENCOUNTER | GYM_INFO | FORT_SEARCH | FORT_DETAILS | INVENTORY
| OTHER (value : Z).

Global Instance eq_dec : EqDecision t.
Proof. solve_decision. Defined.
End ProtoIdentifier.

Module LatestReceivedType.
(** mapadroid.worker.MITMBase.LatestReceivedType: the members the worker
    names. *)
Inductive t :=
| UNDEFINED | GYM | STOP | MON | CLEAR | GMO | FORT_SEARCH_RESULT.

Global Instance eq_dec : EqDecision t.
Proof. solve_decision. Defined.

(** [a == b] on members of the enum. *)
Definition eqb (a b : t) : bool :=
  match a, b with
  | UNDEFINED, UNDEFINED | GYM, GYM | STOP, STOP | MON, MON | CLEAR, CLEAR | GMO, GMO
  | FORT_SEARCH_RESULT, FORT_SEARCH_RESULT => true
  | _, _ => false
  end.
End LatestReceivedType.

(* ===================================================================== *)
(** * WorkerBase.py                                                       *)
(* ===================================================================== *)

Module WorkerBase.
Import Eff.

Record Location := mkLocation { lat : Q; lng : Q }.

(** What the worker does to the outside, in the order it does it.
    [_start_pogo] and [_stop_pogo] are each one command to the device
    whose outcome, a boolean or an exception, the environment decides: the
    polling of the transport inside them is not unfolded here (it is in
    [PogoControl] below). *)
Inductive Action :=
| DetectScreentype
| StartPogo
| StopPogo
| CommReboot
| CommClearAppCache (package_name : string)
| CommResetAppData (package_name : string)
| CommMagiskOff
| CommMagiskOn
| CommStartApp (package_name : string)
| ClickCloseMainButton
| Sleep (seconds : Q)
| WorkerSpecificSetupStop
| WorkerSpecificSetupStart
| SaveLastRestart
| SaveLastReboot
| CollectLocationStats
| ClickPokestopAtCurrentLocation (delay_add : Z)
| TurnMap (delay_add : Z)
| WaitForData (timestamp : Q) (proto : ProtoIdentifier.t) (timeout : option Z)
| SetLastActionTime (value : Q)
| PokestopDelete (location : Location)
| PokestopUpdateLocation (fort_id : string) (location : Location)
| MarkVisited (location : Location)
| AddCoordsToBeRemoved (latitude longitude : Q)
| CheckWalkerValueType (value : string).

(** [self._walker]: the columns of SettingsWalkerarea that
    [check_walker] reads. *)
Record SettingsWalkerarea := mkWalker {
  algo_type : string;
  algo_value : string;
  eventid : option Z
}.

(** The attributes of a worker that the modelled methods read or write,
    the device setting CLEAR_GAME_DATA, and the environment: the boolean
    outcomes of the actions still to come ([answers], consumed one per
    action that returns a bool; a missing answer reads as [False]), the
    exceptions the commands to the device still to come end with
    ([faults], one entry per command, [None] or a missing entry for a
    command that does not raise), and the log of the actions performed or
    attempted so far, oldest first. *)
Record t := mk {
  walker : SettingsWalkerarea;
  workerstart : option Z;
  same_screen_count : Z;
  last_screen_type : ScreenType.t;
  loginerrorcounter : Z;
  stop_worker_event : bool;
  current_location : Location;
  enable_worker_specific_extra_start_stop_handling : bool;
  clear_game_data : bool;
  answers : list bool;
  faults : list (option Exception);
  trace : list Action
}.

(** [__init__] followed by [start_worker], on the given configuration
    and answers, in an environment where no command raises. *)
Definition init (w : SettingsWalkerarea) (extra : bool) (clear : bool)
    (answers : list bool) : t :=
  {| walker := w; workerstart := None; same_screen_count := 0;
     last_screen_type := ScreenType.UNDEFINED; loginerrorcounter := 0;
     stop_worker_event := false; current_location := mkLocation 0 0;
     enable_worker_specific_extra_start_stop_handling := extra;
     clear_game_data := clear; answers := answers; faults := []; trace := [] |}.

Definition set_workerstart (v : option Z) (s : t) : t :=
  mk (walker s) v (same_screen_count s) (last_screen_type s) (loginerrorcounter s)
     (stop_worker_event s) (current_location s)
     (enable_worker_specific_extra_start_stop_handling s) (clear_game_data s)
     (answers s) (faults s) (trace s).

Definition set_same_screen_count (v : Z) (s : t) : t :=
  mk (walker s) (workerstart s) v (last_screen_type s) (loginerrorcounter s)
     (stop_worker_event s) (current_location s)
     (enable_worker_specific_extra_start_stop_handling s) (clear_game_data s)
     (answers s) (faults s) (trace s).

Definition set_last_screen_type (v : ScreenType.t) (s : t) : t :=
  mk (walker s) (workerstart s) (same_screen_count s) v (loginerrorcounter s)
     (stop_worker_event s) (current_location s)
     (enable_worker_specific_extra_start_stop_handling s) (clear_game_data s)
     (answers s) (faults s) (trace s).

Definition set_loginerrorcounter (v : Z) (s : t) : t :=
  mk (walker s) (workerstart s) (same_screen_count s) (last_screen_type s) v
     (stop_worker_event s) (current_location s)
     (enable_worker_specific_extra_start_stop_handling s) (clear_game_data s)
     (answers s) (faults s) (trace s).

Definition set_stop_worker_event (v : bool) (s : t) : t :=
  mk (walker s) (workerstart s) (same_screen_count s) (last_screen_type s)
     (loginerrorcounter s) v (current_location s)
     (enable_worker_specific_extra_start_stop_handling s) (clear_game_data s)
     (answers s) (faults s) (trace s).

Definition set_answers (v : list bool) (s : t) : t :=
  mk (walker s) (workerstart s) (same_screen_count s) (last_screen_type s)
     (loginerrorcounter s) (stop_worker_event s) (current_location s)
     (enable_worker_specific_extra_start_stop_handling s) (clear_game_data s)
     v (faults s) (trace s).

Definition set_faults (v : list (option Exception)) (s : t) : t :=
  mk (walker s) (workerstart s) (same_screen_count s) (last_screen_type s)
     (loginerrorcounter s) (stop_worker_event s) (current_location s)
     (enable_worker_specific_extra_start_stop_handling s) (clear_game_data s)
     (answers s) v (trace s).

Definition set_trace (v : list Action) (s : t) : t :=
  mk (walker s) (workerstart s) (same_screen_count s) (last_screen_type s)
     (loginerrorcounter s) (stop_worker_event s) (current_location s)
     (enable_worker_specific_extra_start_stop_handling s) (clear_game_data s)
     (answers s) (faults s) v.

(** An action whose failures are not followed: it is logged and it
    returns.  The sleeps, the writes to the database and the calls of the
    route manager are such actions. *)
Definition act (a : Action) : M t unit :=
  modify (fun s => set_trace (trace s ++ [a]) s).

(** The next boolean outcome the environment supplies. *)
Definition reply : M t bool :=
  fun s => (inr (hd false (answers s)), set_answers (tl (answers s)) s).

(** An action with a boolean outcome whose failures are not followed. *)
Definition ask (a : Action) : M t bool := act a ;; reply.

(** The exceptions a command to the device can end with: those of the
    transport ([send_and_wait] raises them when the device is gone, does
    not answer in time, or the connection is closed), and for
    [_start_pogo] also InternalStopWorkerException, which
    [_wait_pogo_start_delay] raises when the route manager is gone or the
    stop event is set while it waits. *)
Definition raises (a : Action) (e : Exception) : bool :=
  match e with
  | WebsocketWorkerRemovedException | WebsocketWorkerTimeoutException
  | WebsocketWorkerConnectionClosedException => true
  | InternalStopWorkerException =>
      match a with
      | StartPogo => true
      | _ => false
      end
  | _ => false
  end.

(** The environment's say on how the command [a] ends: the next entry of
    [faults] is consumed, and raised if [a] can raise it. *)
Definition fault (a : Action) : M t unit :=
  fun s =>
    match faults s with
    | [] => (inr tt, s)
    | f :: rest =>
        match f with
        | Some e => if raises a e then (inl e, set_faults rest s) else (inr tt, set_faults rest s)
        | None => (inr tt, set_faults rest s)
        end
    end.

(** A command to the device whose result the worker does not use: it is
    logged, then it returns or raises. *)
Definition command (a : Action) : M t unit := act a ;; fault a.

(** A command to the device with a boolean outcome. *)
Definition request (a : Action) : M t bool := command a ;; reply.

(** [_start_pogo] and [_stop_pogo].  The stop event that makes
    [_wait_pogo_start_delay] raise inside [_start_pogo] is set by other
    coroutines while it sleeps: that raise is one of the answers of the
    environment. *)
Definition _start_pogo : M t bool := request StartPogo.
Definition _stop_pogo : M t bool := request StopPogo.

(** [stop_worker]: sets the stop event. *)
Definition stop_worker : M t unit := modify (set_stop_worker_event true).

(** [_reboot].  [self.get_devicesettings_value(REBOOT, True)] is not
    awaited there: the condition tests a coroutine object, which is
    truthy, so both guarded branches are always taken.  Of the exceptions
    of [self._communicator.reboot()] only WebsocketWorkerRemovedException
    is caught; any other leaves [_reboot] before the stop event is set. *)
Definition _reboot (mitm_mapper : bool) : M t bool :=
  do start_result <-
    catch (request CommReboot)
          (fun e => match e with
                    | WebsocketWorkerRemovedException => Some (ret false)
                    | _ => None
                    end) ;
  act (Sleep 5) ;;
  (if mitm_mapper then act CollectLocationStats else ret tt) ;;
  act SaveLastReboot ;;
  stop_worker ;;
  ret start_result.

(** [_restart_pogo] *)
Definition _restart_pogo (clear_cache : bool) (mitm_mapper : bool) : M t bool :=
  do successful_stop <- _stop_pogo ;
  act SaveLastRestart ;;
  if successful_stop then
    (if clear_cache then command (CommClearAppCache "com.nianticlabs.pokemongo") else ret tt) ;;
    act (Sleep 1) ;;
    (if mitm_mapper then act CollectLocationStats else ret tt) ;;
    _start_pogo
  else _reboot false.

(** [_restart_pogo_safe] *)
Definition _restart_pogo_safe : M t bool :=
  do _ <- _stop_pogo ;
  act (Sleep 1) ;;
  do extra <- gets enable_worker_specific_extra_start_stop_handling ;
  (if extra then command WorkerSpecificSetupStop ;; act (Sleep 1) else ret tt) ;;
  command CommMagiskOff ;;
  act (Sleep 1) ;;
  command CommMagiskOn ;;
  act (Sleep 1) ;;
  do _ <- request (CommStartApp "com.nianticlabs.pokemongo") ;
  act (Sleep 25) ;;
  do _ <- _stop_pogo ;
  act (Sleep 1) ;;
  (if extra then command WorkerSpecificSetupStart ;; act (Sleep 1) else ret tt) ;;
  _start_pogo.

(** ** [_ensure_pogo_topmost] *)

(** The [break] statements of the loop, and the loop condition, by
    what they stand for. *)
Inductive Exit :=
| ExitTopmost          (* POGO or QUEST found *)
| ExitFrozen           (* the same screen more than 3 times in a row *)
| ExitDisabled         (* screen detection is disabled *)
| ExitGps              (* GPS error: reboot *)
| ExitSn               (* SN screen: safe restart *)
| ExitNotResponding    (* not responding: reboot *)
| ExitLoginErrors      (* login-error counter above 1 *)
| ExitStopSignal.      (* the stop event is set *)

(** How one pass through the body of the [while] loop ends. *)
Inductive Ctl := Break (why : Exit) | Next.

Definition incr_loginerrorcounter : M t unit :=
  modify (fun s => set_loginerrorcounter (loginerrorcounter s + 1) s).

(** The first part of the loop body, after the classifier has answered
    [screen_type] and it is neither POGO nor QUEST: the frozen-screen
    count. *)
Definition same_screen_check (screen_type : ScreenType.t) : M t Ctl :=
  do last <- gets last_screen_type ;
  if negb (ScreenType.eqb screen_type ScreenType.ERROR) && ScreenType.eqb last screen_type
  then
    modify (fun s => set_same_screen_count (same_screen_count s + 1) s) ;;
    do count <- gets same_screen_count ;
    if count >? 3 then
      (if count >? 4 then do _ <- _reboot false ; ret tt
       else
         do ok <- _restart_pogo true false ;
         if negb ok then do _ <- _reboot false ; ret tt else ret tt) ;;
      ret (Break ExitFrozen)
    else ret Next
  else if negb (ScreenType.eqb last screen_type) then
    modify (set_same_screen_count 0) ;; ret Next
  else ret Next.

(** The [if screen_type == ... elif ...] chain of remedies. *)
Definition handle_screen (screen_type : ScreenType.t) : M t Ctl :=
  match screen_type with
  | ScreenType.UNDEFINED => ret Next
  | ScreenType.BLACK => act (Sleep 20) ;; ret Next
  | ScreenType.CLOSE =>
      do _ <- _start_pogo ;
      incr_loginerrorcounter ;;
      ret Next
  | ScreenType.GAMEDATA =>
      incr_loginerrorcounter ;;
      do c <- gets loginerrorcounter ;
      (if c <? 2 then do _ <- _restart_pogo_safe ; ret tt else ret tt) ;;
      ret Next
  | ScreenType.DISABLED => ret (Break ExitDisabled)
  | ScreenType.UPDATE => act (Sleep 300) ;; ret Next
  | ScreenType.ERROR | ScreenType.FAILURE => incr_loginerrorcounter ;; ret Next
  | ScreenType.NOGGL => incr_loginerrorcounter ;; ret Next
  | ScreenType.GPS => do _ <- _reboot false ; ret (Break ExitGps)
  | ScreenType.SN => do _ <- _restart_pogo_safe ; ret (Break ExitSn)
  | ScreenType.NOTRESPONDING => do _ <- _reboot false ; ret (Break ExitNotResponding)
  | _ => ret Next
  end.

(** [if self._loginerrorcounter > 1: ...]: stop the app, clear its
    cache, wipe its data if the device is configured so, reset the
    counter, reboot. *)
Definition login_error_escalation : M t Ctl :=
  do c <- gets loginerrorcounter ;
  if c >? 1 then
    do _ <- _stop_pogo ;
    command (CommClearAppCache "com.nianticlabs.pokemongo") ;;
    do clear <- gets clear_game_data ;
    (if clear then command (CommResetAppData "com.nianticlabs.pokemongo") else ret tt) ;;
    modify (set_loginerrorcounter 0) ;;
    do _ <- _reboot false ;
    ret (Break ExitLoginErrors)
  else ret Next.

(** [screen_type in [ScreenType.POGO, ScreenType.QUEST]] *)
Definition is_topmost (screen_type : ScreenType.t) : bool :=
  ScreenType.eqb screen_type ScreenType.POGO || ScreenType.eqb screen_type ScreenType.QUEST.

(** One pass through the loop body, the classifier having answered
    [screen_type].  The classifier takes its screenshot from the device:
    it is a command, and a pass on which it raises gets no answer. *)
Definition loop_body (screen_type : ScreenType.t) : M t Ctl :=
  command DetectScreentype ;;
  if is_topmost screen_type
  then
    modify (set_last_screen_type screen_type) ;;
    modify (set_loginerrorcounter 0) ;;
    ret (Break ExitTopmost)
  else
    do c1 <- same_screen_check screen_type ;
    match c1 with
    | Break why => ret (Break why)
    | Next =>
        do c2 <- handle_screen screen_type ;
        match c2 with
        | Break why => ret (Break why)
        | Next =>
            do c3 <- login_error_escalation ;
            match c3 with
            | Break why => ret (Break why)
            | Next => modify (set_last_screen_type screen_type) ;; ret Next
            end
        end
    end.

(** What the environment contributes to one evaluation of the loop
    condition and the pass that follows it: whether another coroutine
    has set the stop event by then, and what the classifier answers. *)
Record Tick := mkTick {
  stop_requested : bool;
  screen : ScreenType.t
}.

(** The [while not self._stop_worker_event.is_set()] loop, on the ticks
    the environment supplies.  The result is the value of the local
    [screen_type] when the loop is left, and the way it is left; [None]
    when the ticks run out with the loop still going. *)
Fixpoint ensure_loop (ticks : list Tick) (screen_type : ScreenType.t) (s : t)
    : option ((Exception + ScreenType.t * Exit) * t) :=
  match ticks with
  | [] => if stop_worker_event s then Some (inr (screen_type, ExitStopSignal), s) else None
  | tk :: ticks' =>
      let s := if stop_requested tk then set_stop_worker_event true s else s in
      if stop_worker_event s then Some (inr (screen_type, ExitStopSignal), s)
      else
        match loop_body (screen tk) s with
        | (inl e, s') => Some (inl e, s')
        | (inr (Break why), s') => Some (inr (screen tk, why), s')
        | (inr Next, s') => ensure_loop ticks' (screen tk) s'
        end
  end.

(** [_ensure_pogo_topmost] *)
Definition _ensure_pogo_topmost (ticks : list Tick) (s : t)
    : option ((Exception + bool) * t) :=
  match ensure_loop ticks ScreenType.UNDEFINED s with
  | None => None
  | Some (inl e, s') => Some (inl e, s')
  | Some (inr (screen_type, _), s') =>
      Some (inr (is_topmost screen_type), s')
  end.

(** The classification the loop ended on and the way it was left, for
    stating properties of the return value. *)
Definition terminal_screen (ticks : list Tick) (s : t) : option ScreenType.t :=
  match ensure_loop ticks ScreenType.UNDEFINED s with
  | Some (inr (screen_type, _), _) => Some screen_type
  | _ => None
  end.

Definition exit_reason (ticks : list Tick) (s : t) : option Exit :=
  match ensure_loop ticks ScreenType.UNDEFINED s with
  | Some (inr (_, why), _) => Some why
  | _ => None
  end.

(** The classifications on which the pass through the loop body ends in
    a [break] whatever the counters are. *)
Definition ends_loop (screen_type : ScreenType.t) : bool :=
  match screen_type with
  | ScreenType.POGO | ScreenType.QUEST | ScreenType.DISABLED | ScreenType.GPS
  | ScreenType.SN | ScreenType.NOTRESPONDING => true
  | _ => false
  end.

(** The actions of the escalation after repeated login errors, in order:
    stop the app, clear its cache, wipe its data when the device is
    configured so, reboot. *)
Definition full_restart (clear : bool) : list Action :=
  [StopPogo; CommClearAppCache "com.nianticlabs.pokemongo"]
  ++ (if clear then [CommResetAppData "com.nianticlabs.pokemongo"] else [])
  ++ [CommReboot; Sleep 5; SaveLastReboot].

(** ** [check_walker] *)

Section CheckWalker.

(** [int(s)] on a str: [None] when Python raises ValueError.  The
    parser is the interpreter's, not the repository's. *)
Variable py_int : string -> option Z.

(** [check_walker_value_type] of mapadroid.utils.routeutil compares a
    configured time or period with the wall clock; it is one action
    whose outcome the environment decides. *)
Definition check_walker_value_type (value : string) : M t bool :=
  ask (CheckWalkerValueType value).

(** [while not stop and check_walker_value_type(sleeptime): sleep(1)],
    for at most [fuel] evaluations of the loop condition. *)
Fixpoint idle_sleep (fuel : nat) (sleeptime : string) : L t unit :=
  match fuel with
  | O => fun _ => None
  | S fuel' =>
      bindL (done (gets stop_worker_event)) (fun stop =>
      if stop then done (ret tt)
      else
        bindL (done (check_walker_value_type sleeptime)) (fun again =>
        if again then bindL (done (act (Sleep 1))) (fun _ => idle_sleep fuel' sleeptime)
        else done (ret tt)))
  end.

(** [check_walker], evaluated when [time.time()] reads [now], the
    current event is [current_event_id] and the route manager reports
    [processed_rounds] rounds.  [True] is "continue", [False] "stop".
    Only the sleep of mode idle is a loop without a bound: [fuel] is the
    number of evaluations of its condition the run is followed for. *)
Definition check_walker (fuel : nat) (now : Q) (current_event_id : Z) (processed_rounds : Z)
    : L t bool :=
  bindL (done (gets walker)) (fun w =>
  let mode := algo_type w in
  if match eventid w with
     | Some walkereventid => negb (walkereventid =? current_event_id)
     | None => false
     end
  then done (ret false)
  else if String.eqb mode "countdown" then
    let countdown := algo_value w in
    if String.eqb countdown "" then done (ret false)
    else
      done (
        do started <- gets workerstart ;
        match started with
        | None => modify (set_workerstart (Some (Qfloor now))) ;; ret true
        | Some start =>
            match py_int countdown with
            | None => raise ValueError
            | Some d => if Qfloor now >=? start + d then ret false else ret true
            end
        end)
  else if String.eqb mode "timer" then
    let exittime := algo_value w in
    if String.eqb exittime "" || negb (Communicator.contains ":" exittime) then done (ret false)
    else done (check_walker_value_type exittime)
  else if String.eqb mode "round" then
    let rounds := algo_value w in
    if String.eqb rounds "" then done (ret false)
    else
      match py_int rounds with
      | None => done (raise ValueError)
      | Some r => if processed_rounds >=? r then done (ret false) else done (ret true)
      end
  else if String.eqb mode "period" then
    let period := algo_value w in
    if String.eqb period "" then done (ret false)
    else done (check_walker_value_type period)
  else if String.eqb mode "coords" then
    let exittime := algo_value w in
    if negb (String.eqb exittime "") then done (check_walker_value_type exittime)
    else done (ret true)
  else if String.eqb mode "idle" then
    let sleeptime := algo_value w in
    if String.eqb sleeptime "" then done (ret false)
    else
      bindL (done (check_walker_value_type sleeptime)) (fun killpogo =>
      bindL (done (if killpogo then do _ <- _stop_pogo ; ret tt else ret tt)) (fun _ =>
      bindL (idle_sleep fuel sleeptime) (fun _ =>
      done ((if killpogo then do _ <- _start_pogo ; ret tt else ret tt) ;; ret false))))
  else done (ret false)).

End CheckWalker.

(** The numeral of a str of ASCII digits, on which Python's [int] agrees:
    an instance of [py_int] to evaluate [check_walker] with. *)
Fixpoint digits (s : string) (acc : Z) : option Z :=
  match s with
  | EmptyString => Some acc
  | String c s' =>
      let n := Z.of_nat (Ascii.nat_of_ascii c) in
      if (48 <=? n) && (n <=? 57) then digits s' (10 * acc + (n - 48)) else None
  end.

Definition decimal (s : string) : option Z :=
  match s with
  | EmptyString => None
  | _ => digits s 0
  end.

(** The guard before the modes of [check_walker]: the walker has no event
    id, or the current event's. *)
Definition event_matches (w : SettingsWalkerarea) (current_event_id : Z) : Prop :=
  eventid w = None \/ eventid w = Some current_event_id.

(** ** Readings of the recovery loop, for stating properties *)

(** What the routines that talk to the device leave alone: the two
    counters and the last screen type; and they never clear the stop
    event. *)
Definition frame (s s' : t) : Prop :=
  same_screen_count s' = same_screen_count s
  /\ last_screen_type s' = last_screen_type s
  /\ loginerrorcounter s' = loginerrorcounter s
  /\ clear_game_data s' = clear_game_data s
  /\ (stop_worker_event s = true -> stop_worker_event s' = true).

(** The classifications that count as a login error. *)
Definition login_error_screen (screen_type : ScreenType.t) : bool :=
  match screen_type with
  | ScreenType.CLOSE | ScreenType.GAMEDATA | ScreenType.ERROR | ScreenType.FAILURE
  | ScreenType.NOGGL => true
  | _ => false
  end.

(** The frozen-screen check gives up on this pass: the classification is
    the last one again, it is not ERROR, and it has been counted 3 times. *)
Definition frozen (screen_type : ScreenType.t) (s : t) : Prop :=
  screen_type <> ScreenType.ERROR /\ last_screen_type s = screen_type
  /\ 3 <= same_screen_count s.

(** The starts and stops of the app in a log of actions, in order. *)
Definition pogo_switches (actions : list Action) : list Action :=
  List.filter (fun a => match a with StartPogo | StopPogo => true | _ => false end) actions.

(** What [_restart_pogo] may do after it has saved the time of the
    restart. *)
Definition after_restart_saved (a : Action) : bool :=
  match a with
  | CommClearAppCache _ | Sleep _ | CollectLocationStats | StartPogo | CommReboot
  | SaveLastReboot => true
  | _ => false
  end.

(** No command still to come raises. *)
Definition calm (s : t) : Prop := faults s = [].

(** An outcome of a run from [s]: when it is a return, the value and
    the worker after satisfy [P], and an environment in which no command
    raises is still one; it is a raise only in an environment in which a
    command does. *)
Definition within {A} (s : t) (P : A -> t -> Prop) (outcome : (Exception + A) * t) : Prop :=
  match outcome with
  | (inr a, s') => P a s' /\ (calm s -> calm s')
  | (inl _, _) => ~ calm s
  end.

(** What [m] does on every worker and in every environment. *)
Definition meets {A} (m : M t A) (P : t -> A -> t -> Prop) : Prop :=
  forall s, within s (P s) (m s).

(** [_ensure_pogo_topmost] ends on the first of [ticks]: it raises or it
    returns, when it returns it returns [success], the loop left through
    [why], and it does return when no command raises. *)
Definition ends_with (ticks : list Tick) (s : t) (success : bool) (why : Exit) : Prop :=
  exists r s',
    _ensure_pogo_topmost (firstn 1 ticks) s = Some (r, s')
    /\ _ensure_pogo_topmost ticks s = Some (r, s')
    /\ (forall b, r = inr b -> b = success /\ exit_reason ticks s = Some why)
    /\ (calm s -> r = inr success).
End WorkerBase.

(* ===================================================================== *)
(** * WorkerQuests.py                                                     *)
(* ===================================================================== *)

Module PositionStopType.
Inductive t :=
| GMO_NOT_AVAILABLE | GMO_EMPTY | GYM | VISITED_STOP_IN_LEVEL_MODE_TO_IGNORE
| STOP_DISABLED | STOP_CLOSED | STOP_COOLDOWN | NO_FORT | SPINNABLE_STOP.

Global Instance eq_dec : EqDecision t.
Proof. solve_decision. Defined.

(** [type_contains_stop_at_all] *)
Definition type_contains_stop_at_all (position_stop_type : t) : bool :=
  match position_stop_type with
  | SPINNABLE_STOP | VISITED_STOP_IN_LEVEL_MODE_TO_IGNORE | STOP_CLOSED
  | STOP_COOLDOWN | STOP_DISABLED => true
  | _ => false
  end.
End PositionStopType.

Module WorkerQuests.
Import Eff.

Definition S2_GMO_CELL_LEVEL : Z := 15.
Definition RADIUS_FOR_CELLS_CONSIDERED_FOR_STOP_SCAN : Z := 35.
Definition DISTANCE_TO_STOP_TO_CONSIDER_ON_TOP : Q := 6 # 100000.

(** ** Telemetry as the worker reads it *)

(** A fort dict of a map-objects cell; every key may be missing. *)
Record Fort := mkFort {
  fort_id : option string;
  latitude : option Q;
  longitude : option Q;
  fort_type : option Z;
  visited : option bool;
  enabled : option bool;
  closed : option bool;
  cooldown_complete_ms : option Z
}.

Record Cell := mkCell {
  cell_id : Z;
  forts : option (list Fort)
}.

(** The payload dict of a telemetry entry, with the keys the worker
    reads of any kind of proto.  [quest_type] is
    [challenge_quest.quest.quest_type]; [inventory_items] is
    [inventory_delta.inventory_items], [None] without [inventory_delta]. *)
Record Proto := mkProto {
  cells : option (list Cell);
  proto_type : option Z;
  result : option Z;
  items_awarded : option (list Z);
  quest_type : option Z;
  inventory_items : option (list Z)
}.

Record Values := mkValues { payload : option Proto }.

Record Entry := mkEntry {
  timestamp : option Q;
  values : option Values
}.

(** [latest]: telemetry kind to latest entry. *)
Definition Latest := ProtoIdentifier.t -> option Entry.

(** The second component of what [_wait_for_data] returns. *)
Inductive Data :=
| DValues (v : Values)
| DProto (p : Proto)
| DResult (r : FortSearchResultTypes.t).

(** A row of the pokestop table, as far as the worker reads it;
    [last_updated] in seconds. *)
Record Pokestop := mkPokestop {
  stop_latitude : Q;
  stop_longitude : Q;
  last_updated : option Q
}.

(** ** The worker object *)

(** The attributes [WorkerQuests] adds to [WorkerBase] and reads in the
    modelled methods, the device settings LAST_CLEANUP_TIME and
    LAST_QUESTCLEAR_TIME, and the environment: the readings of
    [time.time()] to come, the results of the calls of [_wait_for_data] to
    come, and what [PokestopHelper.get_nearby] returns. *)
Record t := mk {
  base : WorkerBase.t;
  spinnable_data_failcount : Z;
  level_mode : bool;
  ignore_spinned_stops : bool;
  latest_quest : Q;
  stop_process_time : Z;
  waittime_without_delays : Z;
  delay_add : Z;
  last_cleanup_time : Q;
  last_questclear_time : Q;
  clock : list Q;
  waits : list (LatestReceivedType.t * option Data);
  nearby : gmap string Pokestop
}.

Definition set_base (v : WorkerBase.t) (s : t) : t :=
  mk v (spinnable_data_failcount s) (level_mode s) (ignore_spinned_stops s)
     (latest_quest s) (stop_process_time s) (waittime_without_delays s) (delay_add s)
     (last_cleanup_time s) (last_questclear_time s) (clock s) (waits s) (nearby s).

Definition set_spinnable_data_failcount (v : Z) (s : t) : t :=
  mk (base s) v (level_mode s) (ignore_spinned_stops s)
     (latest_quest s) (stop_process_time s) (waittime_without_delays s) (delay_add s)
     (last_cleanup_time s) (last_questclear_time s) (clock s) (waits s) (nearby s).

(** [self._stop_process_time = v] followed by
    [self._waittime_without_delays = self._stop_process_time]. *)
Definition set_stop_process_time (v : Z) (s : t) : t :=
  mk (base s) (spinnable_data_failcount s) (level_mode s) (ignore_spinned_stops s)
     (latest_quest s) v v (delay_add s)
     (last_cleanup_time s) (last_questclear_time s) (clock s) (waits s) (nearby s).

Definition set_clock (v : list Q) (s : t) : t :=
  mk (base s) (spinnable_data_failcount s) (level_mode s) (ignore_spinned_stops s)
     (latest_quest s) (stop_process_time s) (waittime_without_delays s) (delay_add s)
     (last_cleanup_time s) (last_questclear_time s) v (waits s) (nearby s).

Definition set_waits (v : list (LatestReceivedType.t * option Data)) (s : t) : t :=
  mk (base s) (spinnable_data_failcount s) (level_mode s) (ignore_spinned_stops s)
     (latest_quest s) (stop_process_time s) (waittime_without_delays s) (delay_add s)
     (last_cleanup_time s) (last_questclear_time s) (clock s) v (nearby s).

(** The log of actions of the worker. *)
Definition trace (s : t) : list WorkerBase.Action := WorkerBase.trace (base s).

Definition current_location (s : t) : WorkerBase.Location :=
  WorkerBase.current_location (base s).

(** A method inherited from [WorkerBase]. *)
Definition inherited {A} (m : M WorkerBase.t A) : M t A := lift base set_base m.

(** An action of the worker, logged.  The taps and the other commands
    of this module to the device are followed on the runs on which they
    return. *)
Definition act (a : WorkerBase.Action) : M t unit := inherited (WorkerBase.act a).

(** [time.time()]; a missing reading is 0. *)
Definition time_time : M t Q :=
  fun s => (inr (hd 0%Q (clock s)), set_clock (tl (clock s)) s).

(** [_wait_for_data] is a method of MITMBase, which is not part of the
    sources at hand: it is one action, logged with its arguments, whose
    result the environment decides; a missing result is the timeout
    [(UNDEFINED, None)]. *)
Definition _wait_for_data (timestamp : Q) (proto_to_wait_for : ProtoIdentifier.t)
    (timeout : option Z) : M t (LatestReceivedType.t * option Data) :=
  act (WorkerBase.WaitForData timestamp proto_to_wait_for timeout) ;;
  fun s => (inr (hd (LatestReceivedType.UNDEFINED, None) (waits s)), set_waits (tl (waits s)) s).

(** ** [_spinnable_data_failure] *)

Definition _spinnable_data_failure : M t unit :=
  do count <- gets spinnable_data_failcount ;
  if count >? 9 then
    modify (set_spinnable_data_failcount 0) ;;
    do ok <- inherited (WorkerBase._restart_pogo true true) ;
    if negb ok then raise InternalStopWorkerException else ret tt
  else modify (set_spinnable_data_failcount (count + 1)).

(** Python truthiness of a list that may be [None]. *)
Definition truthy {A} (l : option (list A)) : bool :=
  match l with
  | Some (_ :: _) => true
  | _ => false
  end.

Section Geo.

(** [S2Helper.get_s2cells_from_circle(lat, lng, radius, level)], as the
    list of the ids of the cells, and the great-circle distance of
    mapadroid.utils.geo: neither is part of the sources at hand. *)
Variable get_s2cells_from_circle : Q -> Q -> Z -> Z -> list Z.
Variable get_distance_of_two_points_in_meters : Q -> Q -> Q -> Q -> Q.

(** [_directly_surrounding_gmo_cells_containing_stops_around_current_position] *)
Definition _directly_surrounding_gmo_cells_containing_stops_around_current_position
    (self : t) (gmo_cells : option (list Cell)) : list Cell :=
  match gmo_cells with
  | Some ((_ :: _) as gmo_cells) =>
      let s2cell_ids_valid :=
        get_s2cells_from_circle (WorkerBase.lat (current_location self))
                                (WorkerBase.lng (current_location self))
                                RADIUS_FOR_CELLS_CONSIDERED_FOR_STOP_SCAN
                                S2_GMO_CELL_LEVEL in
      List.filter
        (fun cell => existsb (Z.eqb (cell_id cell)) s2cell_ids_valid
                     && truthy (forts cell))
        gmo_cells
  | _ => []
  end.

(** ** [_check_if_stop_was_nearby_and_update_location] *)

(** The pair of coordinates of a fort as [Location(latitude, longitude)]. *)
Definition location_of (la lo : Q) : WorkerBase.Location := WorkerBase.mkLocation la lo.

(** The first loop, over the forts of one cell; [stops] is the dict
    of stored stops, from which the forts seen are popped. *)
Fixpoint reconcile_forts (forts : list Fort) (stops : gmap string Pokestop)
    : M t (gmap string Pokestop) :=
  match forts with
  | [] => ret stops
  | fort :: rest =>
      match latitude fort, longitude fort, fort_id fort with
      | Some la, Some lo, Some id =>
          if Qeq_bool la 0 || Qeq_bool lo 0 || String.eqb id "" then
            reconcile_forts rest stops
          else
            match stops !! id with
            | None => reconcile_forts rest stops
            | Some stop =>
                let stops := delete id stops in
                if Qeq_bool (stop_latitude stop) la && Qeq_bool (stop_longitude stop) lo
                then reconcile_forts rest stops
                else
                  act (WorkerBase.PokestopUpdateLocation id (location_of la lo)) ;;
                  reconcile_forts rest stops
            end
      | _, _, _ => reconcile_forts rest stops
      end
  end.

Fixpoint reconcile_cells (gmo_cells : list Cell) (stops : gmap string Pokestop)
    : M t (gmap string Pokestop) :=
  match gmo_cells with
  | [] => ret stops
  | cell :: rest =>
      match forts cell with
      | Some ((_ :: _) as forts) =>
          do stops <- reconcile_forts forts stops ;
          reconcile_cells rest stops
      | _ => reconcile_cells rest stops
      end
  end.

(** The body of the second loop (lines 913 to 935), for one stored
    stop that the telemetry did not list, [now] being
    [datetime.now()] in seconds.  Three days are 259200 seconds. *)
Definition consider_deletion (now : Q) (stop : Pokestop) : M t unit :=
  let stop_location := location_of (stop_latitude stop) (stop_longitude stop) in
  if match last_updated stop with
     | Some updated => negb (Qle_bool updated (now - 259200))
     | None => false
     end
  then ret tt
  else
    do self <- gets id ;
    let distance_to_location :=
      get_distance_of_two_points_in_meters
        (WorkerBase.lat stop_location) (WorkerBase.lng stop_location)
        (WorkerBase.lat (current_location self)) (WorkerBase.lng (current_location self)) in
    if negb (Qle_bool 100 distance_to_location) then
      act (WorkerBase.PokestopDelete stop_location) ;;
      act (WorkerBase.AddCoordsToBeRemoved (WorkerBase.lat stop_location)
                                           (WorkerBase.lng stop_location))
    else ret tt.

(** [for fort_id, stop in stops.values()]: the loop header unpacks each
    value of the dict into two names.  The values are [Pokestop] rows
    (the first loop reads [stop.latitude] of them), which are not
    iterable: with a stop left in the dict the header raises TypeError
    before [consider_deletion] runs; with none left the loop is empty. *)
Definition deletion_loop (stops : gmap string Pokestop) : M t unit :=
  match map_to_list stops with
  | [] => ret tt
  | _ :: _ => raise TypeError
  end.

Definition _check_if_stop_was_nearby_and_update_location
    (gmo_cells : list Cell) : M t unit :=
  do stops <- gets nearby ;
  do stops <- reconcile_cells gmo_cells stops ;
  deletion_loop stops.

(** ** [_current_position_has_spinnable_stop] *)

(** Lines 548 to 576: the classification of the fort the worker stands
    on, at [latitude], [longitude]. *)
Definition classify_fort (fort : Fort) (la lo : Q) : M t PositionStopType.t :=
  if default 0 (fort_type fort) =? 0 then
    act (WorkerBase.PokestopDelete (location_of la lo)) ;;
    modify (set_spinnable_data_failcount 0) ;;
    ret PositionStopType.GYM
  else
    do self <- gets id ;
    if level_mode self && ignore_spinned_stops self && default false (visited fort) then
      act (WorkerBase.MarkVisited (location_of la lo)) ;;
      modify (set_spinnable_data_failcount 0) ;;
      ret PositionStopType.VISITED_STOP_IN_LEVEL_MODE_TO_IGNORE
    else if negb (default true (enabled fort)) then ret PositionStopType.STOP_DISABLED
    else if default false (closed fort) then ret PositionStopType.STOP_CLOSED
    else if negb (default 0 (cooldown_complete_ms fort) =? 0) then
      ret PositionStopType.STOP_COOLDOWN
    else
      modify (set_spinnable_data_failcount 0) ;;
      ret PositionStopType.SPINNABLE_STOP.

(** Lines 533 to 546: is the worker standing on top of the fort? *)
Definition on_top (here : WorkerBase.Location) (fort : Fort) : bool :=
  let la := default 0%Q (latitude fort) in
  let lo := default 0%Q (longitude fort) in
  if Qeq_bool la 0 || Qeq_bool lo 0 then false
  else
    Qle_bool (Qabs (WorkerBase.lat here - la)) DISTANCE_TO_STOP_TO_CONSIDER_ON_TOP
    && Qle_bool (Qabs (WorkerBase.lng here - lo)) DISTANCE_TO_STOP_TO_CONSIDER_ON_TOP.

(** [for fort in forts]: [Some] is a [return] out of the loops. *)
Fixpoint check_forts (forts : list Fort) : M t (option PositionStopType.t) :=
  match forts with
  | [] => ret None
  | fort :: rest =>
      do here <- gets current_location ;
      if on_top here fort then
        do r <- classify_fort fort (default 0%Q (latitude fort))
                              (default 0%Q (longitude fort)) ;
        ret (Some r)
      else check_forts rest
  end.

(** [for cell in cells_with_stops] *)
Fixpoint check_cells (cells_with_stops : list Cell) : M t (option PositionStopType.t) :=
  match cells_with_stops with
  | [] => ret None
  | cell :: rest =>
      match forts cell with
      | Some ((_ :: _) as forts) =>
          do r <- check_forts forts ;
          match r with
          | Some found => ret (Some found)
          | None => check_cells rest
          end
      | _ => check_cells rest
      end
  end.

Definition _current_position_has_spinnable_stop (timestamp : Q)
    : M t PositionStopType.t :=
  do received <- _wait_for_data timestamp ProtoIdentifier.GMO None ;
  match received with
  | (LatestReceivedType.GMO, Some data_received) =>
      match data_received with
      | DValues v =>
          match payload v with
          | None => raise AttributeError
          | Some latest_proto =>
              let gmo_cells := cells latest_proto in
              if negb (truthy gmo_cells) then
                _spinnable_data_failure ;;
                ret PositionStopType.GMO_EMPTY
              else
                do self <- gets id ;
                let cells_with_stops :=
                  _directly_surrounding_gmo_cells_containing_stops_around_current_position
                    self gmo_cells in
                do found <- check_cells cells_with_stops ;
                match found with
                | Some stop_type => ret stop_type
                | None =>
                    _check_if_stop_was_nearby_and_update_location (default [] gmo_cells) ;;
                    _spinnable_data_failure ;;
                    ret PositionStopType.NO_FORT
                end
          end
      | _ => raise AttributeError
      end
  | _ =>
      _spinnable_data_failure ;;
      ret PositionStopType.GMO_NOT_AVAILABLE
  end.

(** ** [_check_for_data_content] *)

(** [entry.get('timestamp', 0)] *)
Definition timestamp_of (e : Entry) : Q := default 0%Q (timestamp e).

(** [key in latest and latest[key].get('timestamp', 0) >= timestamp] *)
Definition newer_entry (latest : Latest) (key : ProtoIdentifier.t) (timestamp : Q) : bool :=
  match latest key with
  | Some e => Qle_bool timestamp (timestamp_of e)
  | None => false
  end.

(** [max] of two numbers: the first of them unless the second is
    greater. *)
Definition py_max (a b : Q) : Q := if Qle_bool b a then a else b.

(** [max(x for x in potential_replacements ...)]: the three candidates
    are numbers here. *)
Definition replacement (self : t) : Q :=
  py_max (py_max (latest_quest self) (last_cleanup_time self)) (last_questclear_time self).

(** Python truthiness of an entry dict: it has a key. *)
Definition entry_truthy (e : Entry) : bool :=
  match timestamp e, values e with
  | None, None => false
  | _, _ => true
  end.

(** The FORT_SEARCH branch (lines 828 to 845). *)
Definition fort_search_result (latest_proto : Proto)
    : LatestReceivedType.t * option Data :=
  let quest_type := default 0 (quest_type latest_proto) in
  let result := default 0 (result latest_proto) in
  let awarded := Z.of_nat (length (default [] (items_awarded latest_proto))) in
  let found r := (LatestReceivedType.FORT_SEARCH_RESULT, Some (DResult r)) in
  if (result =? 1) && (awarded =? 0) then found FortSearchResultTypes.TIME
  else if (result =? 1) && (quest_type =? 0) then found FortSearchResultTypes.FULL
  else if (result =? 1) && (awarded >? 0) then found FortSearchResultTypes.QUEST
  else if result =? 2 then found FortSearchResultTypes.OUT_OF_RANGE
  else if result =? 3 then found FortSearchResultTypes.COOLDOWN
  else if result =? 4 then found FortSearchResultTypes.INVENTORY
  else if result =? 5 then found FortSearchResultTypes.LIMIT
  else (LatestReceivedType.UNDEFINED, None).

Definition _check_for_data_content (self : t) (latest : Latest)
    (proto_to_wait_for : ProtoIdentifier.t) (timestamp : Q)
    : LatestReceivedType.t * option Data :=
  let nothing := (LatestReceivedType.UNDEFINED, @None Data) in
  if newer_entry latest ProtoIdentifier.GYM_INFO timestamp then
    (LatestReceivedType.GYM, None)
  else if newer_entry latest ProtoIdentifier.ENCOUNTER timestamp then
    (LatestReceivedType.MON, None)
  else
    match latest proto_to_wait_for with
    | None => nothing
    | Some latest_proto_entry =>
        let timestamp :=
          match proto_to_wait_for with
          | ProtoIdentifier.FORT_SEARCH | ProtoIdentifier.FORT_DETAILS => replacement self
          | _ => timestamp
          end in
        if negb (entry_truthy latest_proto_entry) then nothing
        else
          let timestamp_of_proto := timestamp_of latest_proto_entry in
          if negb (Qle_bool timestamp timestamp_of_proto) then nothing
          else
            match values latest_proto_entry with
            | None => nothing
            | Some latest_proto_data =>
                match payload latest_proto_data with
                | None => nothing
                | Some latest_proto =>
                    match proto_to_wait_for with
                    | ProtoIdentifier.FORT_SEARCH => fort_search_result latest_proto
                    | ProtoIdentifier.FORT_DETAILS =>
                        let fort_type := default 0 (proto_type latest_proto) in
                        (if fort_type =? 0 then LatestReceivedType.GYM
                         else LatestReceivedType.STOP,
                         Some (DProto latest_proto))
                    | ProtoIdentifier.GMO =>
                        match
                          _directly_surrounding_gmo_cells_containing_stops_around_current_position
                            self (cells latest_proto)
                        with
                        | _ :: _ => (LatestReceivedType.GMO, Some (DValues latest_proto_data))
                        | [] => nothing
                        end
                    | ProtoIdentifier.INVENTORY =>
                        if truthy (inventory_items latest_proto) then
                          (LatestReceivedType.CLEAR, Some (DProto latest_proto))
                        else nothing
                    | _ => nothing
                    end
                end
            end
    end.

(** ** [_try_to_open_pokestop] *)

Definition needs_recheck (stop_type : PositionStopType.t) : bool :=
  match stop_type with
  | PositionStopType.GMO_NOT_AVAILABLE | PositionStopType.GMO_EMPTY
  | PositionStopType.NO_FORT => true
  | _ => false
  end.

(** [while stop_type in (...) and not recheck_count > 2]; [passes] is
    [3 - recheck_count]. *)
Fixpoint recheck_loop (passes : nat) (timestamp : Q) (stop_type : PositionStopType.t)
    (type_received : LatestReceivedType.t)
    : M t (PositionStopType.t * LatestReceivedType.t) :=
  match passes with
  | O => ret (stop_type, type_received)
  | S passes' =>
      if needs_recheck stop_type then
        do now <- time_time ;
        do received <- _wait_for_data now ProtoIdentifier.GMO (Some 35) ;
        let type_received := fst received in
        do stop_type <-
          (if negb (LatestReceivedType.eqb type_received LatestReceivedType.UNDEFINED)
           then _current_position_has_spinnable_stop timestamp
           else ret stop_type) ;
        recheck_loop passes' timestamp stop_type type_received
      else ret (stop_type, type_received)
  end.

(** What follows the wait in one pass of the opening loop.  In the
    UNDEFINED branch [self._check_pogo_button()] is a coroutine that is
    not awaited: the object is truthy, the guarded call is never made. *)
Definition after_open (type_received : LatestReceivedType.t) : M t unit :=
  do delay <- gets delay_add ;
  match type_received with
  | LatestReceivedType.GYM =>
      act (WorkerBase.Sleep 10) ;;
      act WorkerBase.ClickCloseMainButton ;;
      act (WorkerBase.Sleep 3) ;;
      act (WorkerBase.TurnMap delay) ;;
      act (WorkerBase.Sleep 1)
  | LatestReceivedType.MON =>
      act (WorkerBase.Sleep 1) ;;
      act (WorkerBase.Sleep (1 # 2)) ;;
      act (WorkerBase.TurnMap delay) ;;
      act (WorkerBase.Sleep 1)
  | _ => ret tt
  end.

(** One pass of the opening loop (lines 622 to 648): record the action
    time, tap, wait for the fort details. *)
Definition open_attempt : M t LatestReceivedType.t :=
  do now <- time_time ;
  modify (set_stop_process_time (Qfloor now)) ;;
  do delay <- gets delay_add ;
  act (WorkerBase.ClickPokestopAtCurrentLocation delay) ;;
  do now' <- time_time ;
  act (WorkerBase.SetLastActionTime now') ;;
  do action_time <- gets stop_process_time ;
  do received <- _wait_for_data (inject_Z action_time) ProtoIdentifier.FORT_DETAILS
                                (Some 15) ;
  let type_received := fst received in
  after_open type_received ;;
  ret type_received.

(** [while type_received != STOP and int(to) < 3]; [passes] is [3 - to]. *)
Fixpoint open_loop (passes : nat) (type_received : LatestReceivedType.t)
    : M t LatestReceivedType.t :=
  match passes with
  | O => ret type_received
  | S passes' =>
      if LatestReceivedType.eqb type_received LatestReceivedType.STOP then ret type_received
      else
        do type_received <- open_attempt ;
        open_loop passes' type_received
  end.

Definition flag_current_location : M t unit :=
  do self <- gets id ;
  act (WorkerBase.AddCoordsToBeRemoved (WorkerBase.lat (current_location self))
                                       (WorkerBase.lng (current_location self))).

Definition _try_to_open_pokestop (timestamp : Q) : M t LatestReceivedType.t :=
  do stop_type <- _current_position_has_spinnable_stop timestamp ;
  do checked <- recheck_loop 3 timestamp stop_type LatestReceivedType.UNDEFINED ;
  let '(stop_type, type_received) := checked in
  if negb (PositionStopType.type_contains_stop_at_all stop_type) then
    flag_current_location ;; ret type_received
  else
    match stop_type with
    | PositionStopType.STOP_CLOSED | PositionStopType.STOP_COOLDOWN
    | PositionStopType.STOP_DISABLED => ret type_received
    | PositionStopType.VISITED_STOP_IN_LEVEL_MODE_TO_IGNORE =>
        flag_current_location ;; ret type_received
    | _ => open_loop 3 type_received
    end.

End Geo.

(** ** Readings of the log and of the telemetry, for stating properties *)

(** How many times [_restart_pogo] ran: it alone saves the time of the
    last restart. *)
Definition restarts (s : t) : nat :=
  length (List.filter (fun a => match a with WorkerBase.SaveLastRestart => true | _ => false end)
                      (trace s)).

(** How many times the worker tapped the stop. *)
Definition taps (s : t) : nat :=
  length (List.filter
            (fun a => match a with
                      | WorkerBase.ClickPokestopAtCurrentLocation _ => true
                      | _ => false
                      end)
            (trace s)).

(** How many stored stops were deleted. *)
Definition deletions (s : t) : nat :=
  length (List.filter (fun a => match a with WorkerBase.PokestopDelete _ => true | _ => false end)
                      (trace s)).

(** The fort the loops of [_current_position_has_spinnable_stop] stop at:
    the first one, in the order of the cells and of their forts, that the
    worker stands on top of. *)
Fixpoint first_on_top (here : WorkerBase.Location) (cells_with_stops : list Cell)
    : option Fort :=
  match cells_with_stops with
  | [] => None
  | cell :: rest =>
      match List.find (on_top here) (default [] (forts cell)) with
      | Some fort => Some fort
      | None => first_on_top here rest
      end
  end.

(** The actions of [after_open], in order. *)
Definition popup_actions (type_received : LatestReceivedType.t) (delay : Z)
    : list WorkerBase.Action :=
  match type_received with
  | LatestReceivedType.GYM =>
      [WorkerBase.Sleep 10; WorkerBase.ClickCloseMainButton; WorkerBase.Sleep 3;
       WorkerBase.TurnMap delay; WorkerBase.Sleep 1]
  | LatestReceivedType.MON =>
      [WorkerBase.Sleep 1; WorkerBase.Sleep (1 # 2); WorkerBase.TurnMap delay;
       WorkerBase.Sleep 1]
  | _ => []
  end.

(** The conditions under which the fort the worker stands on, being on
    cooldown, is reported as on cooldown: no earlier check of the chain
    applies to it. *)
Definition reaches_cooldown_check (self : t) (fort : Fort) : Prop :=
  default 0 (fort_type fort) <> 0
  /\ (level_mode self && ignore_spinned_stops self && default false (visited fort)) = false
  /\ default true (enabled fort) = true
  /\ default false (closed fort) = false.

(** ** Readings and examples used by the properties *)

(** [m] leaves the reading [obs] of the worker as it was, however it
    ends. *)
Definition keeps {A X} (obs : t -> X) (m : M t A) : Prop :=
  forall s r s', m s = (r, s') -> obs s' = obs s.

(** The failure counter and the number of restarts. *)
Definition counters (s : t) : Z * nat := (spinnable_data_failcount s, restarts s).

(** The state in which [act a] leaves the worker. *)
Definition acted (a : WorkerBase.Action) (s : t) : t :=
  set_base (WorkerBase.set_trace (WorkerBase.trace (base s) ++ [a]) (base s)) s.

Definition is_restart (a : WorkerBase.Action) : bool :=
  match a with WorkerBase.SaveLastRestart => true | _ => false end.

Definition is_deletion (a : WorkerBase.Action) : bool :=
  match a with WorkerBase.PokestopDelete _ => true | _ => false end.

(** The state in which [_wait_for_data] leaves the worker. *)
Definition waited (timestamp : Q) (proto : ProtoIdentifier.t) (timeout : option Z) (s : t) : t :=
  set_waits (tl (waits s))
    (set_base (WorkerBase.set_trace
                 (WorkerBase.trace (base s) ++ [WorkerBase.WaitForData timestamp proto timeout])
                 (base s)) s).

(** What a classification does to the failure counter. *)
Definition counter_after (r : PositionStopType.t) (before after : Z) : Prop :=
  match r with
  | PositionStopType.GYM | PositionStopType.VISITED_STOP_IN_LEVEL_MODE_TO_IGNORE
  | PositionStopType.SPINNABLE_STOP => after = 0
  | PositionStopType.STOP_DISABLED | PositionStopType.STOP_CLOSED
  | PositionStopType.STOP_COOLDOWN => after = before
  | _ => False
  end.

(** What a spinnability check that started with the failure counter at
    [count] and [restarted] restarts behind it may end like. *)
Definition counted (count : Z) (restarted : nat) (r : Exception + PositionStopType.t)
    (s' : t) : Prop :=
  match r with
  | inr stop_type =>
      if needs_recheck stop_type then
        (count <= 9 /\ spinnable_data_failcount s' = count + 1 /\ restarts s' = restarted)
        \/ (count > 9 /\ spinnable_data_failcount s' = 0 /\ restarts s' = S restarted)
      else
        counter_after stop_type count (spinnable_data_failcount s')
        /\ restarts s' = restarted
  | inl InternalStopWorkerException =>
      count > 9 /\ spinnable_data_failcount s' = 0 /\ restarts s' = S restarted
  | inl _ => True
  end.

Definition example_base : WorkerBase.t :=
  WorkerBase.mk (WorkerBase.mkWalker "countdown" "60" None) None 0 ScreenType.UNDEFINED 0 false
                (WorkerBase.mkLocation 1 1) false false [] [] [].

Definition example_fort (kind : Z) (enabled closed : bool) (cooldown : Z) : Fort :=
  mkFort (Some "stop-1") (Some 1%Q) (Some 1%Q) (Some kind) (Some false) (Some enabled)
         (Some closed) (Some cooldown).

Definition example_gmo (fort : Fort) : Data :=
  DValues (mkValues (Some (mkProto (Some [mkCell 1 (Some [fort])]) None None None None None))).

Definition example_worker (failcount : Z) (received : list (LatestReceivedType.t * option Data))
    (stored : gmap string Pokestop) : t :=
  mk example_base failcount false false 0 0 0 0 0 0 [] received stored.

Definition example_s2cells : Q -> Q -> Z -> Z -> list Z := fun _ _ _ _ => [1].

Definition example_stale_stop : Pokestop := mkPokestop 1 1 (Some 0%Q).


(** The id under which the first loop of the reconciliation looks a fort
    up, if it does: the fort has a latitude, a longitude and an id, none
    of them zero or empty. *)
Definition fort_key (fort : Fort) : option string :=
  match latitude fort, longitude fort, fort_id fort with
  | Some la, Some lo, Some id =>
      if Qeq_bool la 0 || Qeq_bool lo 0 || String.eqb id "" then None else Some id
  | _, _, _ => None
  end.

(** The ids the first loop looks up, over all the cells, in order. *)
Definition listed (gmo_cells : list Cell) : list string :=
  flat_map (fun cell => omap fort_key (default [] (forts cell))) gmo_cells.

(** The stored stops the first loop leaves in the dict: those whose id
    it did not look up. *)
Definition unlisted (ids : list string) (stops : gmap string Pokestop)
    : gmap string Pokestop :=
  foldl (fun stops id => delete id stops) stops ids.
End WorkerQuests.

(* ===================================================================== *)
(** * WorkerBase.py : starting and stopping the app                       *)
(* ===================================================================== *)

Module PogoControl.
Import Eff.

(** What [_start_pogo], [_stop_pogo] and [_wait_pogo_start_delay] ask of
    the communicator, the route manager and the event loop. *)
Inductive Command :=
| IsPogoTopmost
| IsScreenOn
| StartApp (package_name : string)
| StopApp (package_name : string)
| TurnScreenOn
| Sleep (seconds : Q)
| RoutemanagerPresent.

(** The attributes and device settings these methods read or write, and
    the environment as in [WorkerBase.t]: the boolean outcomes of the
    commands still to come, one per command that returns a bool (a
    missing one reads as [False]), and the log of the commands so far. *)
Record t := mk {
  stop_worker_event : bool;
  post_turn_screen_on_delay : option Q;
  post_pogo_start_delay : option Z;
  last_pogo_restart : option Q;
  answers : list bool;
  trace : list Command
}.

Definition act (c : Command) : M t unit :=
  modify (fun s => mk (stop_worker_event s) (post_turn_screen_on_delay s)
                      (post_pogo_start_delay s) (last_pogo_restart s) (answers s)
                      (trace s ++ [c])).

Definition ask (c : Command) : M t bool :=
  fun s =>
    (inr (hd false (answers s)),
     mk (stop_worker_event s) (post_turn_screen_on_delay s) (post_pogo_start_delay s)
        (last_pogo_restart s) (tl (answers s)) (trace s ++ [c])).

Definition set_last_pogo_restart (v : option Q) (s : t) : t :=
  mk (stop_worker_event s) (post_turn_screen_on_delay s) (post_pogo_start_delay s) v
     (answers s) (trace s).

Definition pogo : string := "com.nianticlabs.pokemongo".

(** [get_devicesettings_value(key, default_value)] on the stored value
    of a numeric setting: [value if value else default_value], so a
    stored 0 reads as the default, like a missing one.  Fetching the
    device mappings is taken to succeed. *)
Definition devicesetting_int (value : option Z) (default_value : Z) : Z :=
  match value with
  | Some v => if v =? 0 then default_value else v
  | None => default_value
  end.

Definition devicesetting_float (value : option Q) (default_value : Q) : Q :=
  match value with
  | Some v => if Qeq_bool v 0 then default_value else v
  | None => default_value
  end.

(** The body of [while pogo_topmost] in [_stop_pogo]; [left] is
    [10 - attempts]. *)
Fixpoint stop_loop (left : nat) (stop_result pogo_topmost : bool) : M t bool :=
  if pogo_topmost then
    match left with
    | O => ret false
    | S left' =>
        do stop_result <- ask (StopApp pogo) ;
        act (Sleep 1) ;;
        do pogo_topmost <- ask IsPogoTopmost ;
        stop_loop left' stop_result pogo_topmost
    end
  else ret stop_result.

(** [_stop_pogo] *)
Definition _stop_pogo : M t bool :=
  do stop_result <- ask (StopApp pogo) ;
  do pogo_topmost <- ask IsPogoTopmost ;
  stop_loop 10 stop_result pogo_topmost.

(** [while delay_count <= pogo_start_delay]; [passes] is
    [pogo_start_delay + 1 - delay_count]. *)
Fixpoint wait_loop (passes : nat) : M t unit :=
  match passes with
  | O => ret tt
  | S passes' =>
      do present <- ask RoutemanagerPresent ;
      do stop <- gets stop_worker_event ;
      if negb present || stop then raise InternalStopWorkerException
      else act (Sleep 1) ;; wait_loop passes'
  end.

(** [_wait_pogo_start_delay] *)
Definition _wait_pogo_start_delay : M t unit :=
  do pogo_start_delay <- gets (fun s => devicesetting_int (post_pogo_start_delay s) 60) ;
  wait_loop (Z.to_nat (pogo_start_delay + 1)).

(** How the loop of [_start_pogo] is left: by [return False] after ten
    attempts, or with the app topmost. *)
Inductive Started := GaveUp | Topmost (start_result : bool).

(** The body of [while not pogo_topmost] in [_start_pogo]; [left] is
    [10 - attempts]. *)
Fixpoint start_loop (left : nat) (start_result pogo_topmost : bool) : M t Started :=
  if pogo_topmost then ret (Topmost start_result)
  else
    match left with
    | O => ret GaveUp
    | S left' =>
        do start_result <- ask (StartApp pogo) ;
        act (Sleep 1) ;;
        do pogo_topmost <- ask IsPogoTopmost ;
        start_loop left' start_result pogo_topmost
    end.

(** [_start_pogo], [time.time()] reading [now]. *)
Definition _start_pogo (now : Q) : M t bool :=
  do pogo_topmost <- ask IsPogoTopmost ;
  if pogo_topmost then ret true
  else
    do screen_on <- ask IsScreenOn ;
    (if negb screen_on then
       do _ <- ask (StartApp "de.grennith.rgc.remotegpscontroller") ;
       do _ <- ask TurnScreenOn ;
       do delay <- gets (fun s => devicesetting_float (post_turn_screen_on_delay s) 7) ;
       act (Sleep delay)
     else ret tt) ;;
    do started <- start_loop 10 false pogo_topmost ;
    match started with
    | GaveUp => ret false
    | Topmost start_result =>
        (if start_result then modify (set_last_pogo_restart (Some now)) else ret tt) ;;
        _wait_pogo_start_delay ;;
        ret start_result
    end.

(** How many commands of the log stop the app, and how many start it. *)
Definition stops (actions : list Command) : nat :=
  length (List.filter
            (fun c => match c with StopApp p => String.eqb p pogo | _ => false end) actions).

Definition starts (actions : list Command) : nat :=
  length (List.filter
            (fun c => match c with StartApp p => String.eqb p pogo | _ => false end) actions).

(** How many seconds of sleep the log holds in one-second naps. *)
Definition naps (actions : list Command) : nat :=
  length (List.filter
            (fun c => match c with Sleep d => Qeq_bool d 1 | _ => false end) actions).

(** The answers of the environment to [rounds] of a stop (or start)
    command followed by a look at the topmost app that finds the app
    still there ([seen = true]) or still missing ([seen = false]). *)
Definition rounds (seen : bool) (acks : list bool) : list bool :=
  flat_map (fun ack => [ack; seen]) acks.

End PogoControl.

(* ===================================================================== *)
(** * WorkerBase.py : getting back to the main screen                     *)
(* ===================================================================== *)

Module MainScreen.
Import Eff.

(** What [_check_pogo_main_screen] asks of the communicator, of the
    window manager and of the file system.  [_take_screenshot] is one
    command with a boolean outcome. *)
Inductive Command :=
| IsPogoTopmost
| TakeScreenshot (delay_before : Q)
| IsDir
| CheckPogoMainscreen
| CheckCloseExceptNearbyButton (close_raid : bool)
| LookForButton (ratio_lo ratio_hi : Q)
| Sleep (seconds : Q).

(** The device setting POST_SCREENSHOT_DELAY and the environment: the
    boolean outcomes of the commands to come (a missing one reads as
    [False]) and the log of the commands so far, each with its outcome if
    it has one. *)
Record t := mk {
  post_screenshot_delay : option Q;
  answers : list bool;
  log : list (Command * option bool)
}.

Definition act (c : Command) : M t unit :=
  modify (fun s => mk (post_screenshot_delay s) (answers s) (log s ++ [(c, None)])).

Definition ask (c : Command) : M t bool :=
  fun s =>
    (inr (hd false (answers s)),
     mk (post_screenshot_delay s) (tl (answers s))
        (log s ++ [(c, Some (hd false (answers s)))])).

(** [self._take_screenshot(delay_before=
      await self.get_devicesettings_value(POST_SCREENSHOT_DELAY, 1))] *)
Definition take_screenshot : M t bool :=
  do delay <- gets (fun s => PogoControl.devicesetting_float (post_screenshot_delay s) 1) ;
  ask (TakeScreenshot delay).

(** The body of the loop after the [attempts == max_attempts] test:
    look for something to close, take the next screenshot. *)
Definition close_popups : M t unit :=
  do found <- ask (CheckCloseExceptNearbyButton true) ;
  do found <-
    (if negb found then ask (LookForButton (220 # 100) (301 # 100)) else ret found) ;
  do found <-
    (if negb found then
       do big <- ask (LookForButton (105 # 100) (220 # 100)) ;
       if big then act (Sleep 5) ;; ret true else ret found
     else ret found) ;
  do _ <- take_screenshot ;
  ret tt.

(** [while not check_pogo_mainscreen(...)].  The loop has no bound of
    its own when [max_attempts] is negative; [fuel] bounds the passes, and
    [None] says the loop was still going when it ran out. *)
Fixpoint main_screen_loop (fuel : nat) (attempts max_attempts : Z) : M t (option bool) :=
  match fuel with
  | O => ret None
  | S fuel' =>
      do on_mainscreen <- ask CheckPogoMainscreen ;
      if on_mainscreen then ret (Some true)
      else if attempts =? max_attempts then ret (Some false)
      else close_popups ;; main_screen_loop fuel' (attempts + 1) max_attempts
  end.

(** [_check_pogo_main_screen] *)
Definition _check_pogo_main_screen (fuel : nat) (max_attempts : Z) (again : bool)
    : M t (option bool) :=
  do pogo_topmost <- ask IsPogoTopmost ;
  if negb pogo_topmost then ret (Some false)
  else
    do taken <- take_screenshot ;
    if negb taken && again then ret (Some false)
    else
      do is_dir <- ask IsDir ;
      if is_dir then ret (Some false)
      else main_screen_loop fuel 0 max_attempts.

(** How many times the log asks whether the main screen is shown. *)
Definition checks (entries : list (Command * option bool)) : nat :=
  length (List.filter
            (fun e => match fst e with CheckPogoMainscreen => true | _ => false end) entries).

(** A step that returns and asks nothing about the main screen. *)
Definition quiet {A} (m : M t A) : Prop :=
  forall s, exists a s', m s = (inr a, s') /\ checks (log s') = checks (log s).

End MainScreen.

(* ===================================================================== *)
(** * Properties of the telemetry store                                   *)
(* ===================================================================== *)

Section PlayerDataProperties.
Import PlayerData.

Lemma not_cells_cons (c : CellId) (cs : list CellId) : not_cells (Some (c :: cs)) = false.
Proof. reflexivity. Qed.

Lemma set_bool_true (s : gset CellId) : s ≠ ∅ -> set_bool s = true.
Proof. intros H. unfold set_bool. by apply bool_decide_eq_true. Qed.

Lemma set_bool_false (s : gset CellId) : s = ∅ -> set_bool s = false.
Proof. intros ->. unfold set_bool. apply bool_decide_eq_false. auto. Qed.

(** A write of another kind leaves the cell set and the timestamp alone. *)
Lemma update_latest_other_kind self key value ts ts' loc :
  key ≠ "106" ->
  last_cell_ids (update_latest self key value ts ts' loc) = last_cell_ids self
  /\ get_last_possibly_moved (update_latest self key value ts ts' loc)
     = get_last_possibly_moved self.
Proof.
  intros Hk. unfold update_latest.
  destruct (String.eqb key "106") eqn:E.
  - apply String.eqb_eq in E. contradiction.
  - split; reflexivity.
Qed.

(** Every write is stored under its kind, whatever the kind. *)
Lemma update_latest_stored self key value ts ts' loc :
  get_specific_latest_data (update_latest self key value ts ts' loc) key
  = Some (mkEntry value ts ts' loc).
Proof.
  unfold get_specific_latest_data, update_latest, parse_gmo_for_location, holder_update.
  destruct (String.eqb key "106"); simpl.
  - destruct (not_cells (cells value)); simpl; [apply lookup_insert_eq|].
    destruct (set_bool _); simpl; apply lookup_insert_eq.
  - apply lookup_insert_eq.
Qed.

(** From the initial state no write ever changes the cell set: it starts
    empty, and only a non-empty intersection with it replaces it. *)
Lemma initial_cells_never_replaced value ts ts' loc :
  last_cell_ids (update_latest init "106" value ts ts' loc) = []
  /\ get_last_possibly_moved (update_latest init "106" value ts ts' loc) = Some 0.
Proof.
  unfold update_latest, parse_gmo_for_location. simpl.
  destruct (not_cells (cells value)); simpl; [done|].
  rewrite set_bool_false; [done|].
  unfold intersection. simpl. apply set_eq. intros x.
  rewrite elem_of_intersection, elem_of_empty. tauto.
Qed.

(** C1.  A write of kind "106" whose payload has a non-empty cells list:
    when the set of the new cell identifiers intersects the stored set,
    the stored cells become the new ones and the "last possibly moved"
    timestamp becomes the write's [timestamp_received]; when the two sets
    are disjoint, and when the payload has no cells (no key or an empty
    list), cells and timestamp stay as they were. *)
Theorem update_latest_gmo_cells
    (self : t) (value : Payload) (ts ts' : option Z) (loc : option Location) :
  let self' := update_latest self "106" value ts ts' loc in
  (forall c cs, cells value = Some (c :: cs) ->
     ((list_to_set (c :: cs) : gset CellId) ∩ list_to_set (last_cell_ids self) ≠ ∅ ->
        last_cell_ids self' = c :: cs /\ get_last_possibly_moved self' = ts)
     /\ ((list_to_set (c :: cs) : gset CellId) ∩ list_to_set (last_cell_ids self) = ∅ ->
        last_cell_ids self' = last_cell_ids self
        /\ get_last_possibly_moved self' = get_last_possibly_moved self))
  /\ (cells value = None \/ cells value = Some [] ->
        last_cell_ids self' = last_cell_ids self
        /\ get_last_possibly_moved self' = get_last_possibly_moved self).
Proof.
  cbv zeta. unfold update_latest, parse_gmo_for_location. simpl. split.
  - intros c cs Hc. rewrite Hc. simpl. split; intros Hi.
    + rewrite set_bool_true by exact Hi. done.
    + rewrite set_bool_false by exact Hi. done.
  - intros [-> | ->]; done.
Qed.

(** The three cases of C1 on concrete writes. *)
Lemma update_latest_gmo_cells_witness :
  let self := mk ∅ [1; 2] (Some 7) in
  (last_cell_ids (update_latest self "106" (mkPayload (Some [2; 3])) (Some 100) None None)
     = [2; 3]
   /\ get_last_possibly_moved
        (update_latest self "106" (mkPayload (Some [2; 3])) (Some 100) None None)
      = Some 100)
  /\ (last_cell_ids (update_latest self "106" (mkPayload (Some [3; 4])) (Some 100) None None)
        = [1; 2]
      /\ get_last_possibly_moved
           (update_latest self "106" (mkPayload (Some [3; 4])) (Some 100) None None)
         = Some 7)
  /\ (last_cell_ids (update_latest self "106" (mkPayload None) (Some 100) None None)
        = [1; 2]
      /\ get_last_possibly_moved
           (update_latest self "106" (mkPayload None) (Some 100) None None)
         = Some 7).
Proof.
  cbv zeta. split; [|split].
  - apply (proj1 (proj1 (update_latest_gmo_cells (mk ∅ [1; 2] (Some 7))
                           (mkPayload (Some [2; 3])) (Some 100) None None) 2 [3] eq_refl)).
    apply (bool_decide_unpack _). vm_compute. exact I.
  - apply (proj2 (proj1 (update_latest_gmo_cells (mk ∅ [1; 2] (Some 7))
                           (mkPayload (Some [3; 4])) (Some 100) None None) 3 [4] eq_refl)).
    apply (bool_decide_unpack _). vm_compute. exact I.
  - apply (proj2 (update_latest_gmo_cells (mk ∅ [1; 2] (Some 7)) (mkPayload None)
                     (Some 100) None None)).
    left. reflexivity.
Defined.

End PlayerDataProperties.

(* ===================================================================== *)
(** * Properties of the command transport                                 *)
(* ===================================================================== *)

Section CommunicatorProperties.
Import Communicator.

(** ** The send mutex *)

Lemma serialized_bind {A B} (p : Prog A) (f : A -> Prog B) (held : bool) :
  serialized held p -> (forall a, serialized false (f a)) ->
  serialized held (bind p f).
Proof.
  revert held. induction p as [a|e|k IH|k IH|m t b k IH|path k IH|path d k IH];
    intros held Hp Hf; simpl in *.
  - subst held. apply Hf.
  - exact Hp.
  - destruct Hp as [-> Hk]. split; [reflexivity|]. apply IH; assumption.
  - destruct Hp as [-> Hk]. split; [reflexivity|]. apply IH; assumption.
  - destruct Hp as [-> Hk]. split; [reflexivity|]. intros r. apply IH; [apply Hk|assumption].
  - intros r. apply IH; [apply Hp|assumption].
  - intros r. apply IH; [apply Hp|assumption].
Qed.

Lemma serialized_try_except {A} (p : Prog A) catches (handler : Prog A) (held : bool) :
  serialized held p -> serialized false handler ->
  serialized held (try_except p catches handler).
Proof.
  revert held. induction p as [a|e|k IH|k IH|m t b k IH|path k IH|path d k IH];
    intros held Hp Hh; simpl in *.
  - exact Hp.
  - subst held. destruct (catches e); [exact Hh|reflexivity].
  - destruct Hp as [-> Hk]. split; [reflexivity|]. apply IH; assumption.
  - destruct Hp as [-> Hk]. split; [reflexivity|]. apply IH; assumption.
  - destruct Hp as [-> Hk]. split; [reflexivity|]. intros r. apply IH; [apply Hk|assumption].
  - intros r. apply IH; [apply Hp|assumption].
  - intros r. apply IH; [apply Hp|assumption].
Qed.

Lemma serialized_reraise {A} (r : Exception + A) : serialized false (reraise r).
Proof. destruct r; reflexivity. Qed.

Lemma serialized_run_get_gesponse self message timeout :
  serialized false (run_get_gesponse self message timeout).
Proof.
  simpl. split; [reflexivity|]. split; [reflexivity|].
  intros res. split; [reflexivity|]. apply serialized_reraise.
Qed.

Lemma serialized_run_and_ok_bytes self message timeout byte_command :
  serialized false (run_and_ok_bytes self message timeout byte_command).
Proof.
  simpl. split; [reflexivity|]. split; [reflexivity|].
  intros [e|res]; split; reflexivity.
Qed.

Lemma serialized_run_and_ok self command timeout :
  serialized false (run_and_ok self command timeout).
Proof. apply serialized_run_and_ok_bytes. Qed.

Lemma serialized_data_or_file filepath data : serialized false (data_or_file filepath data).
Proof.
  destruct data as [[|b bs]|]; simpl; try reflexivity; intros r; apply serialized_reraise.
Qed.

Lemma serialized_void {A} (p : Prog A) : serialized false p -> serialized false (void p).
Proof. intros H. apply serialized_bind; [exact H|]. intros a. reflexivity. Qed.

Lemma serialized_store path (b : list Byte.byte) :
  serialized false
    (WriteFile path b (fun r => match r with Some e => Raise e | None => Ret true end)).
Proof. simpl. intros [e|]; reflexivity. Qed.

Create HintDb serialized.

Local Hint Resolve serialized_run_get_gesponse serialized_run_and_ok_bytes
  serialized_run_and_ok serialized_data_or_file serialized_reraise serialized_store
  : serialized.

(** Every method that does not go through [passthrough] sends its
    command inside [async with self.__send_mutex]. *)
Lemma serialized_call format_float distance self (c : Call) :
  uses_passthrough c = false ->
  serialized false (call format_float distance self c).
Proof.
  intros Hc. destruct c; try discriminate Hc; unfold call;
    try (apply serialized_void).
  - (* cleanup *)
    unfold cleanup. apply serialized_try_except; [|reflexivity].
    apply serialized_bind; [|intros; reflexivity].
    unfold terminate_connection. apply serialized_try_except; [|reflexivity].
    auto with serialized.
  - unfold install_apk. apply serialized_bind; auto with serialized.
  - unfold install_bundle. apply serialized_bind; auto with serialized.
  - unfold start_app. auto with serialized.
  - unfold stop_app. apply serialized_bind; [auto with serialized|].
    intros [|]; reflexivity.
  - unfold reboot. auto with serialized.
  - unfold restart_app. auto with serialized.
  - unfold reset_app_data. auto with serialized.
  - unfold clear_app_cache. auto with serialized.
  - unfold turn_screen_on. auto with serialized.
  - unfold click. auto with serialized.
  - unfold swipe. auto with serialized.
  - unfold touch_and_hold. auto with serialized.
  - unfold get_screensize. auto with serialized.
  - unfold uiautomator. auto with serialized.
  - unfold get_screenshot.
    destruct ((quality <? 10) || (quality >? 100)); [reflexivity|].
    apply serialized_bind; [auto with serialized|].
    intros [[s|b]|]; [|auto with serialized|reflexivity].
    destruct (contains "KO: " s); [reflexivity|].
    destruct (negb (contains "OK:" s)); reflexivity.
  - unfold back_button. auto with serialized.
  - unfold home_button. auto with serialized.
  - unfold enter_text. auto with serialized.
  - unfold is_screen_on. apply serialized_bind; [auto with serialized|].
    intros [[s|b]|]; reflexivity.
  - unfold is_pogo_topmost. apply serialized_bind; [auto with serialized|].
    intros [[s|b]|]; reflexivity.
  - unfold topmost_app. apply serialized_bind; [auto with serialized|].
    intros [[[|c s]|[|b bs]]|]; try reflexivity.
    simpl. destruct (contains "KO:" (String c s)); reflexivity.
  - unfold set_location. auto with serialized.
  - unfold terminate_connection. apply serialized_try_except; [|reflexivity].
    auto with serialized.
  - unfold walk_from_to. destruct (Qeq_bool _ _); [reflexivity|]. auto with serialized.
  - unfold get_compressed_logcat. apply serialized_bind; [auto with serialized|].
    intros [[s|b]|]; [reflexivity|auto with serialized|reflexivity].
Qed.

Lemma holds_owner P i : holds P i = true -> owner P = Some i.
Proof. unfold holds. intros H. by apply bool_decide_eq_true in H. Qed.

Lemma holds_other P i j : owner P = Some i -> j ≠ i -> holds P j = false.
Proof.
  intros Ho Hne. unfold holds. apply bool_decide_eq_false. rewrite Ho. congruence.
Qed.

Lemma pool_ok_start (ps : list (Prog unit)) :
  (forall p, p ∈ ps -> serialized false p) -> pool_ok (start ps).
Proof.
  intros Hps i t Hi. unfold start in *. simpl in *.
  rewrite list_lookup_fmap in Hi.
  destruct (ps !! i) as [p|] eqn:Ep; simpl in Hi; [|discriminate].
  injection Hi as <-.
  assert (Hh : holds (mkPool None (Running <$> ps)) i = false)
    by (apply bool_decide_eq_false; simpl; discriminate).
  rewrite Hh. simpl.
  apply Hps. eapply list_elem_of_lookup_2. exact Ep.
Qed.

(** A step that leaves the owner alone and replaces task [i] by one that
    fits the same holding. *)
Lemma pool_ok_update P i t' :
  pool_ok P ->
  task_ok (holds P i) t' ->
  pool_ok (mkPool (owner P) (<[i := t']> (tasks P))).
Proof.
  intros HP Ht j t Hj. simpl in Hj.
  apply list_lookup_insert_Some in Hj as [(-> & <- & _)|(Hne & Hj)].
  - exact Ht.
  - apply (HP j t Hj).
Qed.

Lemma pool_ok_step P Q : pool_ok P -> step P Q -> pool_ok Q.
Proof.
  intros HP Hs. destruct Hs as [P i k Hi Ho|P i k Hi|P i m t b k Hi|P i k r Hi
                               |P i path k r Hi|P i path d k r Hi].
  - (* acquire *)
    intros j t Hj. simpl in Hj.
    pose proof (HP i _ Hi) as Hok. simpl in Hok. destruct Hok as [_ Hk].
    apply list_lookup_insert_Some in Hj as [(-> & <- & _)|(Hne & Hj)].
    + unfold holds. simpl. rewrite bool_decide_eq_true_2 by reflexivity. exact Hk.
    + pose proof (HP j t Hj) as Hok.
      assert (holds P j = false) as Hf
        by (unfold holds; apply bool_decide_eq_false; rewrite Ho; discriminate).
      rewrite Hf in Hok.
      assert (holds (mkPool (Some i) (<[i:=Running k]> (tasks P))) j = false) as ->
        by (apply (holds_other _ i); [reflexivity|congruence]).
      exact Hok.
  - (* release *)
    intros j t Hj. simpl in Hj.
    pose proof (HP i _ Hi) as Hok. simpl in Hok. destruct Hok as [Hh Hk].
    apply holds_owner in Hh.
    assert (forall j', holds (mkPool None (<[i:=Running k]> (tasks P))) j' = false) as Hn
      by (intros j'; apply bool_decide_eq_false; simpl; discriminate).
    rewrite Hn.
    apply list_lookup_insert_Some in Hj as [(-> & <- & _)|(Hne & Hj)].
    + exact Hk.
    + pose proof (HP j t Hj) as Hok.
      rewrite (holds_other P i j Hh) in Hok by congruence. exact Hok.
  - (* send *)
    apply pool_ok_update; [exact HP|].
    pose proof (HP i _ Hi) as Hok. simpl in Hok. destruct Hok as [Hh Hk].
    rewrite Hh in *. simpl. split; [reflexivity|exact Hk].
  - (* reply *)
    apply pool_ok_update; [exact HP|].
    pose proof (HP i _ Hi) as Hok. simpl in Hok. destruct Hok as [Hh Hk].
    rewrite Hh. simpl. apply Hk.
  - apply pool_ok_update; [exact HP|].
    pose proof (HP i _ Hi) as Hok. simpl in Hok. simpl. apply Hok.
  - apply pool_ok_update; [exact HP|].
    pose proof (HP i _ Hi) as Hok. simpl in Hok. simpl. apply Hok.
Qed.

Lemma pool_ok_reachable P Q : pool_ok P -> reachable P Q -> pool_ok Q.
Proof.
  intros HP Hr. induction Hr as [|Q R _ IH Hs]; [exact HP|].
  eapply pool_ok_step; eauto.
Qed.

(** At most one command in flight: coroutines that all send inside the
    mutex never have two commands awaiting their replies. *)
Lemma serialized_never_overlap (ps : list (Prog unit)) (P : Pool) (i j : nat) :
  (forall p, p ∈ ps -> serialized false p) ->
  reachable (start ps) P ->
  in_flight P i -> in_flight P j -> i = j.
Proof.
  intros Hps Hr [ki Hi] [kj Hj].
  pose proof (pool_ok_reachable _ _ (pool_ok_start ps Hps) Hr) as HP.
  destruct (HP i _ Hi) as [Hhi _]. destruct (HP j _ Hj) as [Hhj _].
  apply holds_owner in Hhi. apply holds_owner in Hhj. congruence.
Qed.

(** X28.  Any number of concurrent calls of the methods that do not use
    [passthrough] are serialized on the session: in no state the event
    loop can reach are two of their commands in flight. *)
Lemma mutex_methods_never_overlap format_float distance self (cs : list Call)
    (P : Pool) (i j : nat) :
  (forall c, c ∈ cs -> uses_passthrough c = false) ->
  reachable (start (call format_float distance self <$> cs)) P ->
  in_flight P i -> in_flight P j -> i = j.
Proof.
  intros Hcs. apply serialized_never_overlap.
  intros p Hp. apply list_elem_of_fmap in Hp as (c & -> & Hc).
  apply serialized_call. auto.
Qed.

(** C2, at its failing input.  [passthrough] calls [send_and_wait]
    without entering [async with self.__send_mutex]: it is not
    serialized, and two concurrent calls of it (here as the public
    method, through [call]) reach a state where both commands are in
    flight on the session while the mutex is free. *)
Theorem passthrough_commands_overlap format_float distance (self : t) (c1 c2 : string) :
  ~ serialized false (passthrough self c1)
  /\ exists P,
       reachable (start [call format_float distance self (CallPassthrough c1);
                         call format_float distance self (CallPassthrough c2)]) P
       /\ in_flight P 0 /\ in_flight P 1 /\ 0%nat ≠ 1%nat /\ owner P = None.
Proof.
  split.
  - simpl. intros [H _]. discriminate H.
  - eexists. split; [|split; [|split; [|split]]].
    + eapply reachable_step; [eapply reachable_step; [apply reachable_refl|]|].
      * eapply (step_send _ 0). reflexivity.
      * eapply (step_send _ 1). reflexivity.
    + eexists. reflexivity.
    + eexists. reflexivity.
    + discriminate.
    + reflexivity.
Qed.

(** ** Screenshots *)

Lemma run_bind_get_gesponse {A} self message (f : option MessageTyping -> Prog A) w :
  run (bind (run_get_gesponse self message None) f) w =
  if mutex_locked w then None
  else
    match replies w with
    | [] => None
    | inl e :: rs =>
        Some (inl e, mkWorld false rs (sent w ++ [(message, command_timeout self, None)])
                             (files w) (write_errors w))
    | inr m :: rs =>
        run (f m) (mkWorld false rs (sent w ++ [(message, command_timeout self, None)])
                           (files w) (write_errors w))
    end.
Proof.
  simpl. destruct (mutex_locked w); [reflexivity|]. simpl.
  destruct (replies w) as [|[e|m] rs]; reflexivity.
Qed.

Lemma quality_guard quality :
  (quality <? 10) || (quality >? 100) = false <-> quality_ok quality.
Proof. unfold quality_ok. lia. Qed.

(** C10.  [get_screenshot]: with a quality below 10 or above 100 it is
    the program that returns [False] and does nothing else, so that
    running it leaves the session as it was and sends no command; on a
    textual reply it returns [False], also when the text contains "OK:",
    and stores nothing; and whenever it returns [True] the reply was
    binary and the file at [path] holds that payload. *)
Theorem get_screenshot_result
    (self : t) (path : string) (quality : Z) (screenshot_type : ScreenshotType) (w : World) :
  (quality < 10 \/ quality > 100 ->
     get_screenshot self path quality screenshot_type = Ret false
     /\ run (get_screenshot self path quality screenshot_type) w = Some (inr false, w))
  /\ (forall text rs,
        quality_ok quality -> mutex_locked w = false ->
        replies w = inr (Some (Text text)) :: rs ->
        exists w',
          run (get_screenshot self path quality screenshot_type) w = Some (inr false, w')
          /\ files w' = files w
          /\ length (sent w') = S (length (sent w)))
  /\ (forall w',
        run (get_screenshot self path quality screenshot_type) w = Some (inr true, w') ->
        exists payload rs,
          replies w = inr (Some (Binary payload)) :: rs
          /\ files w' !! path = Some payload
          /\ quality_ok quality).
Proof.
  split; [|split].
  - intros Hq. unfold get_screenshot.
    assert ((quality <? 10) || (quality >? 100) = true) as -> by lia.
    split; reflexivity.
  - intros text rs Hq Hm Hr. apply quality_guard in Hq.
    unfold get_screenshot. rewrite Hq, run_bind_get_gesponse, Hm, Hr.
    eexists. split; [|split].
    + destruct (contains "KO: " text); [reflexivity|].
      destruct (negb (contains "OK:" text)); reflexivity.
    + reflexivity.
    + simpl. rewrite length_app. simpl. lia.
  - intros w' Hrun. unfold get_screenshot in Hrun.
    destruct ((quality <? 10) || (quality >? 100)) eqn:Hq; [simpl in Hrun; congruence|].
    apply quality_guard in Hq.
    rewrite run_bind_get_gesponse in Hrun.
    destruct (mutex_locked w); [discriminate|].
    destruct (replies w) as [|[e|[[text|payload]|]] rs]; try discriminate.
    + destruct (contains "KO: " text); [simpl in Hrun; congruence|].
      destruct (negb (contains "OK:" text)); simpl in Hrun; congruence.
    + exists payload, rs. split; [reflexivity|]. split; [|exact Hq].
      simpl in Hrun.
      destruct (write_errors w) as [|[e|] es]; simpl in Hrun;
        try discriminate; injection Hrun as <-; simpl; apply lookup_insert_eq.
Qed.

(** C10 on concrete sessions: quality 5 is refused; at quality 70 the
    reply "OK: done" gives [False] and the reply of three bytes gives
    [True] with the bytes stored. *)
Lemma get_screenshot_result_witness :
  let w text := mkWorld false [inr (Some text)] [] ∅ [] in
  let self := mk (5 # 1) in
  run (get_screenshot self "shot.jpg" 5 JPEG) (w (Text "OK: done"))
    = Some (inr false, w (Text "OK: done"))
  /\ (exists w', run (get_screenshot self "shot.jpg" 70 JPEG) (w (Text "OK: done"))
                 = Some (inr false, w')
                 /\ files w' = ∅ /\ length (sent w') = 1%nat)
  /\ (exists w', run (get_screenshot self "shot.jpg" 70 JPEG)
                     (w (Binary [Byte.x01; Byte.x02; Byte.x03]))
                 = Some (inr true, w')
                 /\ files w' !! "shot.jpg" = Some [Byte.x01; Byte.x02; Byte.x03]).
Proof.
  cbv zeta. split; [|split].
  - apply (proj1 (get_screenshot_result (mk (5 # 1)) "shot.jpg" 5 JPEG
                    (mkWorld false [inr (Some (Text "OK: done"))] [] ∅ []))).
    left. lia.
  - apply (proj1 (proj2 (get_screenshot_result (mk (5 # 1)) "shot.jpg" 70 JPEG
                           (mkWorld false [inr (Some (Text "OK: done"))] [] ∅ [])))
             "OK: done" []); [unfold quality_ok; lia|reflexivity|reflexivity].
  - eexists. split; [reflexivity|].
    destruct (proj2 (proj2 (get_screenshot_result (mk (5 # 1)) "shot.jpg" 70 JPEG
                              (mkWorld false [inr (Some (Binary [Byte.x01; Byte.x02; Byte.x03]))]
                                       [] ∅ []))) _ eq_refl)
      as (payload & rs & Hr & Hf & _).
    injection Hr as <- <-. exact Hf.
Defined.

End CommunicatorProperties.

(* ===================================================================== *)
(** * Properties of the screen recovery and of the walker policy          *)
(* ===================================================================== *)

Section WorkerBaseProperties.
Import WorkerBase Eff.

Lemma yields_ret {S A} (a : A) (P : A -> Prop) : P a -> yields (S:=S) (ret a) P.
Proof. intros H s. exists a, s. split; [reflexivity|exact H]. Qed.

Lemma yields_bind {S A B} (m : M S A) (f : A -> M S B) (Q : A -> Prop) (P : B -> Prop) :
  yields m Q -> (forall a, Q a -> yields (f a) P) -> yields (bind m f) P.
Proof.
  intros Hm Hf s. destruct (Hm s) as (a & s1 & E & Ha).
  destruct (Hf a Ha s1) as (b & s2 & E2 & Hb).
  exists b, s2. unfold bind. rewrite E. split; assumption.
Qed.

Lemma yields_seq {S A B} (m : M S A) (k : M S B) (P : B -> Prop) :
  yields m (fun _ => True) -> yields k P -> yields (bind m (fun _ => k)) P.
Proof. intros Hm Hk. eapply yields_bind; [exact Hm|]. intros _ _. exact Hk. Qed.

Lemma run_bind {S A B} (m : M S A) (f : A -> M S B) s a s1 :
  m s = (inr a, s1) -> bind m f s = f a s1.
Proof. intros E. unfold bind. rewrite E. reflexivity. Qed.

Lemma bind_gets {S A B} (f : S -> A) (k : A -> M S B) s : bind (gets f) k s = k (f s) s.
Proof. reflexivity. Qed.

Lemma bind_modify {S B} (f : S -> S) (k : unit -> M S B) s : bind (modify f) k s = k tt (f s).
Proof. reflexivity. Qed.

(** ** Outcomes of the routines that talk to the device *)

Lemma within_ret {A} (s s' : t) (P : A -> t -> Prop) (a : A) :
  P a s' -> (calm s -> calm s') -> within s P (inr a, s').
Proof. intros H Hc. split; assumption. Qed.

Lemma within_weaken {A} (s : t) (P Q : A -> t -> Prop) outcome :
  within s P outcome -> (forall a s', P a s' -> Q a s') -> within s Q outcome.
Proof.
  destruct outcome as [[e|a] s']; simpl; [auto|]. intros [H Hc] HPQ. auto.
Qed.

(** The rule for [do a <- m ; f a]: what [m] meets may be assumed of the
    state [f a] starts from. *)
Lemma within_bind {A B} (m : M t A) (f : A -> M t B) (P : t -> A -> t -> Prop)
    (R : B -> t -> Prop) (s : t) :
  meets m P ->
  (forall a s1, m s = (inr a, s1) -> P s a s1 -> within s1 R (f a s1)) ->
  within s R (bind m f s).
Proof.
  intros Hm Hf. unfold bind. specialize (Hm s).
  destruct (m s) as [[e|a] s1] eqn:E; [exact Hm|].
  destruct Hm as [HP Hc]. specialize (Hf a s1 eq_refl HP).
  destruct (f a s1) as [[e|b] s2]; simpl in *.
  - intros H. apply Hf, Hc, H.
  - destruct Hf as [HR Hc']. split; [exact HR|]. intros H. apply Hc', Hc, H.
Qed.

(** A step that changes nothing the environment owns. *)
Lemma within_step {A} (s s1 : t) (R : A -> t -> Prop) outcome :
  (calm s -> calm s1) -> within s1 R outcome -> within s R outcome.
Proof.
  intros Hc. destruct outcome as [[e|a] s']; simpl.
  - intros H H0. apply H, Hc, H0.
  - intros [HR Hc']. split; [exact HR|]. intros H0. apply Hc', Hc, H0.
Qed.

Lemma meets_weaken {A} (m : M t A) (P Q : t -> A -> t -> Prop) :
  meets m P -> (forall s a s', P s a s' -> Q s a s') -> meets m Q.
Proof. intros H HPQ s. eapply within_weaken; [apply H|]. intros a s'. apply HPQ. Qed.

Lemma meets_returned {A} (m : M t A) (P : t -> A -> t -> Prop) (s : t) a s' :
  meets m P -> m s = (inr a, s') -> P s a s'.
Proof. intros H E. specialize (H s). rewrite E in H. apply H. Qed.

Lemma frame_refl s : frame s s.
Proof. unfold frame. auto. Qed.

Lemma frame_trans s1 s2 s3 : frame s1 s2 -> frame s2 s3 -> frame s1 s3.
Proof.
  unfold frame. intros Ha Hb.
  destruct Ha as (Ha1 & Ha2 & Ha3 & Ha4 & Ha5). destruct Hb as (Hb1 & Hb2 & Hb3 & Hb4 & Hb5).
  repeat split; try congruence. auto.
Qed.

Lemma meets_act a : meets (act a) (fun s _ s' => s' = set_trace (trace s ++ [a]) s).
Proof. intros s. split; [reflexivity|]. intros H. exact H. Qed.

Lemma meets_reply :
  meets reply (fun s b s' => b = hd false (answers s) /\ s' = set_answers (tl (answers s)) s).
Proof. intros s. split; [split; reflexivity|]. intros H. exact H. Qed.

Lemma meets_fault a : meets (fault a) (fun s _ s' => exists fs, s' = set_faults fs s).
Proof.
  intros s. unfold fault, within, calm. destruct (faults s) as [|[e|] rest] eqn:E.
  - split; [|auto]. exists []. destruct s; simpl in *. subst. reflexivity.
  - destruct (raises a e); [discriminate|]. split; [eauto|discriminate].
  - split; [eauto|discriminate].
Qed.

(** A command is logged whether or not it raises. *)
Lemma meets_command a :
  meets (command a)
        (fun s _ s' => exists fs, s' = set_faults fs (set_trace (trace s ++ [a]) s)).
Proof.
  intros s. unfold command.
  apply (within_bind _ _ _ _ _ (meets_act a)). intros _ s1 _ ->.
  eapply within_weaken; [apply meets_fault|]. intros a0 s' H. exact H.
Qed.

Lemma meets_request a :
  meets (request a)
        (fun s b s' =>
           b = hd false (answers s)
           /\ exists fs, s' = set_answers (tl (answers s))
                                (set_faults fs (set_trace (trace s ++ [a]) s))).
Proof.
  intros s. unfold request.
  apply (within_bind _ _ _ _ _ (meets_command a)). intros _ s1 _ (fs & ->).
  eapply within_weaken; [apply meets_reply|]. intros b s' [-> ->]. simpl. eauto.
Qed.

Lemma meets_act_logged a :
  meets (act a) (fun s _ s' => frame s s' /\ trace s' = trace s ++ [a]).
Proof.
  eapply meets_weaken; [apply meets_act|]. intros s _ s' ->. unfold frame. simpl. auto 10.
Qed.

Lemma meets_command_logged a :
  meets (command a) (fun s _ s' => frame s s' /\ trace s' = trace s ++ [a]).
Proof.
  eapply meets_weaken; [apply meets_command|]. intros s _ s' (fs & ->).
  unfold frame. simpl. auto 10.
Qed.

Lemma meets_request_logged a :
  meets (request a) (fun s _ s' => frame s s' /\ trace s' = trace s ++ [a]).
Proof.
  eapply meets_weaken; [apply meets_request|]. intros s _ s' (_ & fs & ->).
  unfold frame. simpl. auto 10.
Qed.

Lemma meets_act_frame a : meets (act a) (fun s _ s' => frame s s').
Proof. eapply meets_weaken; [apply meets_act_logged|]. intros s _ s' [H _]. exact H. Qed.

Lemma meets_command_frame a : meets (command a) (fun s _ s' => frame s s').
Proof. eapply meets_weaken; [apply meets_command_logged|]. intros s _ s' [H _]. exact H. Qed.

Lemma meets_request_frame a : meets (request a) (fun s _ s' => frame s s').
Proof. eapply meets_weaken; [apply meets_request_logged|]. intros s _ s' [H _]. exact H. Qed.

(** [_reboot] returns with the stop event set; the one exception it
    catches is the device being gone. *)
Lemma meets_try_reboot :
  meets (catch (request CommReboot)
               (fun e => match e with
                         | WebsocketWorkerRemovedException => Some (ret false)
                         | _ => None
                         end))
        (fun s _ s' => frame s s' /\ trace s' = trace s ++ [CommReboot]).
Proof.
  intros s. unfold catch. pose proof (meets_request_logged CommReboot s) as H.
  destruct (request CommReboot s) as [[e|b] s1] eqn:E; simpl in H.
  - destruct e; simpl; try exact H.
    (* the device is gone: the log has the command, nothing else changed *)
    split; [|intros Hc; contradiction].
    revert E. unfold request, command, fault, act, reply, bind, modify, ret. simpl.
    destruct (faults s) as [|[e|] rest]; simpl; try discriminate.
    destruct (raises CommReboot e); intros E; inversion E. subst.
    unfold frame. simpl. auto 10.
  - exact H.
Qed.

Lemma meets_reboot_logged mm :
  meets (_reboot mm)
        (fun s _ s' =>
           frame s s' /\ stop_worker_event s' = true
           /\ trace s' = trace s ++ [CommReboot; Sleep 5]
                         ++ (if mm then [CollectLocationStats] else []) ++ [SaveLastReboot]).
Proof.
  intros s. unfold _reboot.
  apply (within_bind _ _ _ _ _ meets_try_reboot). intros start_result s1 _ [F1 T1].
  apply (within_bind _ _ _ _ _ (meets_act_logged (Sleep 5))). intros _ s2 _ [F2 T2].
  assert (meets (if mm then act CollectLocationStats else ret tt)
                (fun s _ s' => frame s s'
                               /\ trace s' = trace s ++ (if mm then [CollectLocationStats] else [])))
    as Hmm.
  { destruct mm; [apply meets_act_logged|]. intros s0.
    split; [split; [apply frame_refl|rewrite app_nil_r; reflexivity]|auto]. }
  apply (within_bind _ _ _ _ _ Hmm). intros _ s3 _ [F3 T3].
  apply (within_bind _ _ _ _ _ (meets_act_logged SaveLastReboot)). intros _ s4 _ [F4 T4].
  unfold stop_worker. rewrite bind_modify. apply within_ret; [|intros H; exact H].
  split; [|split; [reflexivity|]].
  - apply (frame_trans _ _ _ F1). apply (frame_trans _ _ _ F2).
    apply (frame_trans _ _ _ F3). apply (frame_trans _ _ _ F4).
    unfold frame. simpl. auto.
  - simpl. rewrite T4, T3, T2, T1. rewrite <- !app_assoc. reflexivity.
Qed.

Lemma meets_reboot mm :
  meets (_reboot mm) (fun s _ s' => frame s s' /\ stop_worker_event s' = true).
Proof.
  eapply meets_weaken; [apply meets_reboot_logged|]. intros s _ s' (F & Hs & _). auto.
Qed.

Lemma meets_skip_or (b : bool) (m : M t unit) :
  meets m (fun s _ s' => frame s s') ->
  meets (if b then m else ret tt) (fun s _ s' => frame s s').
Proof.
  intros H. destruct b; [exact H|]. intros s. split; [apply frame_refl|auto].
Qed.

Lemma meets_restart_pogo cc mm : meets (_restart_pogo cc mm) (fun s _ s' => frame s s').
Proof.
  intros s. unfold _restart_pogo, _stop_pogo, _start_pogo.
  apply (within_bind _ _ _ _ _ (meets_request_frame StopPogo)). intros ok s1 _ F1.
  apply (within_bind _ _ _ _ _ (meets_act_frame SaveLastRestart)). intros _ s2 _ F2.
  destruct ok.
  - apply (within_bind _ _ _ _ _
             (meets_skip_or cc _ (meets_command_frame (CommClearAppCache "com.nianticlabs.pokemongo")))).
    intros _ s3 _ F3.
    apply (within_bind _ _ _ _ _ (meets_act_frame (Sleep 1))). intros _ s4 _ F4.
    apply (within_bind _ _ _ _ _ (meets_skip_or mm _ (meets_act_frame CollectLocationStats))).
    intros _ s5 _ F5.
    eapply within_weaken; [apply meets_request_frame|]. intros b s' F6.
    eauto 10 using frame_trans.
  - eapply within_weaken; [apply meets_reboot|]. intros b s' [F3 _].
    eauto using frame_trans.
Qed.

Lemma meets_seq_frame {A} (m : M t unit) (k : M t A) :
  meets m (fun s _ s' => frame s s') -> meets k (fun s _ s' => frame s s') ->
  meets (m ;; k) (fun s _ s' => frame s s').
Proof.
  intros Hm Hk s. apply (within_bind _ _ _ _ _ Hm). intros _ s1 _ F1.
  eapply within_weaken; [apply Hk|]. intros a s' F2. eauto using frame_trans.
Qed.

Lemma meets_bind_frame {A B} (m : M t A) (k : A -> M t B) :
  meets m (fun s _ s' => frame s s') -> (forall a, meets (k a) (fun s _ s' => frame s s')) ->
  meets (bind m k) (fun s _ s' => frame s s').
Proof.
  intros Hm Hk s. apply (within_bind _ _ _ _ _ Hm). intros a s1 _ F1.
  eapply within_weaken; [apply Hk|]. intros b s' F2. eauto using frame_trans.
Qed.

Lemma meets_gets_frame {A} (f : t -> A) : meets (gets f) (fun s _ s' => frame s s').
Proof. intros s. split; [apply frame_refl|auto]. Qed.

Lemma meets_ret_frame {A} (a : A) : meets (ret a) (fun s _ s' => frame s s').
Proof. intros s. split; [apply frame_refl|auto]. Qed.

Lemma meets_restart_pogo_safe : meets _restart_pogo_safe (fun s _ s' => frame s s').
Proof.
  unfold _restart_pogo_safe, _stop_pogo, _start_pogo.
  repeat first
    [ apply meets_request_frame | apply meets_command_frame | apply meets_act_frame
    | apply meets_ret_frame
    | apply meets_seq_frame
    | apply meets_bind_frame; [|intros ?]
    | apply meets_gets_frame
    | match goal with |- meets (if ?b then _ else _) _ => destruct b end ].
Qed.

(** ** The passes of the recovery loop *)

Ltac returns :=
  cbv beta iota delta [within ret];
  split; [|first [intros Hcalm; exact Hcalm|auto]].

Lemma screen_eqb_eq (a b : ScreenType.t) : ScreenType.eqb a b = true <-> a = b.
Proof.
  destruct a, b; simpl; split; intros H; try reflexivity; try discriminate H.
  - apply Z.eqb_eq in H. congruence.
  - injection H as ->. apply Z.eqb_refl.
Qed.

Lemma frozen_check screen_type s :
  negb (ScreenType.eqb screen_type ScreenType.ERROR)
  && ScreenType.eqb (last_screen_type s) screen_type = true
  <-> screen_type <> ScreenType.ERROR /\ last_screen_type s = screen_type.
Proof.
  rewrite andb_true_iff, negb_true_iff, screen_eqb_eq.
  split; intros [H1 H2]; split; auto.
  - intros ->. simpl in H1. discriminate H1.
  - destruct (ScreenType.eqb screen_type ScreenType.ERROR) eqn:E; [|reflexivity].
    apply screen_eqb_eq in E. contradiction.
Qed.

Lemma meets_discard {A} (m : M t A) (P : t -> t -> Prop) :
  meets m (fun s _ s' => P s s') -> meets (do _ <- m ; ret tt) (fun s _ s' => P s s').
Proof.
  intros H s. apply (within_bind _ _ _ _ _ H). intros a s1 _ HP.
  returns. exact HP.
Qed.

(** What the frozen-screen check does when it gives up: a restart, and a
    reboot when the restart fails or the repetition was counted four
    times. *)
Lemma meets_frozen_remedy count :
  meets (if count >? 4 then do _ <- _reboot false ; ret tt
         else do ok <- _restart_pogo true false ;
              if negb ok then do _ <- _reboot false ; ret tt else ret tt)
        (fun s _ s' => frame s s' /\ (4 < count -> stop_worker_event s' = true)).
Proof.
  destruct (count >? 4) eqn:E4.
  - apply Z.gtb_lt in E4. apply meets_discard.
    eapply meets_weaken; [apply meets_reboot|]. intros s _ s' [F Hs]. auto.
  - rewrite Z.gtb_ltb in E4. apply Z.ltb_ge in E4.
    intros s. apply (within_bind _ _ _ _ _ (meets_restart_pogo true false)). intros ok s1 _ F1.
    destruct ok; simpl.
    + returns. split; [exact F1|lia].
    + apply (within_bind _ _ _ _ _ (meets_reboot false)). intros _ s2 _ [F2 Hs].
      returns. split; [eauto using frame_trans|auto].
Qed.

Lemma same_screen_check_meets screen_type :
  meets (same_screen_check screen_type) (fun s c s' =>
    last_screen_type s' = last_screen_type s
    /\ loginerrorcounter s' = loginerrorcounter s
    /\ clear_game_data s' = clear_game_data s
    /\ (stop_worker_event s = true -> stop_worker_event s' = true)
    /\ (frozen screen_type s ->
          c = Break ExitFrozen /\ same_screen_count s' = same_screen_count s + 1
          /\ (4 <= same_screen_count s -> stop_worker_event s' = true))
    /\ (~ frozen screen_type s -> c = Next)
    /\ (c = Next \/ c = Break ExitFrozen)
    /\ (~ frozen screen_type s ->
          exists n, s' = set_same_screen_count n s
                    /\ (last_screen_type s <> screen_type -> n = 0))).
Proof.
  intros s. unfold same_screen_check, frozen.
  rewrite bind_gets.
  destruct (negb (ScreenType.eqb screen_type ScreenType.ERROR)
            && ScreenType.eqb (last_screen_type s) screen_type) eqn:Ec.
  - apply frozen_check in Ec as [Hne Hlast].
    rewrite bind_modify, bind_gets.
    set (s1 := set_same_screen_count (same_screen_count s + 1) s).
    change (same_screen_count s1) with (same_screen_count s + 1).
    apply (within_step s s1); [intros H; exact H|].
    destruct (same_screen_count s + 1 >? 3) eqn:E3.
    + apply Z.gtb_lt in E3.
      apply (within_bind _ _ _ _ _ (meets_frozen_remedy (same_screen_count s + 1))).
      intros _ s' _ [(F1 & F2 & F3 & F4 & F5) Hs].
      returns. subst s1. simpl in *.
      split; [exact F2|]. split; [exact F3|]. split; [exact F4|]. split; [exact F5|].
      split; [intros _; split; [reflexivity|]; split; [exact F1|]; intros H; apply Hs; lia|].
      assert (~ ~ (screen_type <> ScreenType.ERROR /\ last_screen_type s = screen_type
                   /\ 3 <= same_screen_count s)) as Hnn
        by (intros Hn; apply Hn; repeat split; auto; lia).
      split; [|split; [auto|]]; intros Hn; exfalso; apply Hnn, Hn.
    + rewrite Z.gtb_ltb in E3. apply Z.ltb_ge in E3.
      returns. subst s1. simpl.
      split; [reflexivity|]. split; [reflexivity|]. split; [reflexivity|]. split; [auto|].
      split; [intros (_ & _ & H); lia|]. split; [auto|]. split; [auto|].
      intros _. eexists. split; [reflexivity|]. intros H. contradiction.
  - assert (~ (screen_type <> ScreenType.ERROR /\ last_screen_type s = screen_type)) as Hn.
    { intros H. apply frozen_check in H. congruence. }
    destruct (negb (ScreenType.eqb (last_screen_type s) screen_type)) eqn:Eb.
    + rewrite bind_modify. returns. simpl.
      split; [reflexivity|]. split; [reflexivity|]. split; [reflexivity|]. split; [auto|].
      split; [intros (H1 & H2 & _); exfalso; apply Hn; auto|]. split; [auto|]. split; [auto|].
      intros _. exists 0. split; reflexivity.
    + returns.
      split; [reflexivity|]. split; [reflexivity|]. split; [reflexivity|]. split; [auto|].
      split; [intros (H1 & H2 & _); exfalso; apply Hn; auto|]. split; [auto|]. split; [auto|].
      intros _. exists (same_screen_count s). split; [destruct s; reflexivity|]. intros Hl.
      destruct (ScreenType.eqb (last_screen_type s) screen_type) eqn:Eq.
      * apply screen_eqb_eq in Eq. contradiction.
      * discriminate Eb.
Qed.

Lemma incr_then {B} (k : unit -> M t B) s :
  bind incr_loginerrorcounter k s = k tt (set_loginerrorcounter (loginerrorcounter s + 1) s).
Proof. reflexivity. Qed.

Ltac hs_done :=
  simpl; repeat split; auto;
  try (intros [H|H]; discriminate H); try (intros H; discriminate H).

Lemma handle_screen_meets screen_type :
  meets (handle_screen screen_type) (fun s c s' =>
    same_screen_count s' = same_screen_count s
    /\ last_screen_type s' = last_screen_type s
    /\ clear_game_data s' = clear_game_data s
    /\ (stop_worker_event s = true -> stop_worker_event s' = true)
    /\ (if login_error_screen screen_type
        then c = Next /\ loginerrorcounter s' = loginerrorcounter s + 1
        else loginerrorcounter s' = loginerrorcounter s)
    /\ (c = Break ExitGps \/ c = Break ExitNotResponding -> stop_worker_event s' = true)
    /\ match screen_type with
       | ScreenType.DISABLED => c = Break ExitDisabled
       | ScreenType.GPS => c = Break ExitGps
       | ScreenType.SN => c = Break ExitSn
       | ScreenType.NOTRESPONDING => c = Break ExitNotResponding
       | _ => c = Next
       end).
Proof.
  intros s. destruct screen_type; unfold handle_screen, login_error_screen.
  - (* UNDEFINED *) returns. hs_done.
  - (* POGO *) returns. hs_done.
  - (* QUEST *) returns. hs_done.
  - (* BLACK *)
    apply (within_bind _ _ _ _ _ (meets_act_frame (Sleep 20))).
    intros _ s' _ (F1 & F2 & F3 & F4 & F5). returns. hs_done.
  - (* CLOSE *)
    apply (within_bind _ _ _ _ _ (meets_request_frame StartPogo)).
    intros _ s' _ (F1 & F2 & F3 & F4 & F5).
    rewrite incr_then. returns. simpl. rewrite F3. hs_done.
  - (* GAMEDATA *)
    rewrite incr_then, bind_gets.
    set (s1 := set_loginerrorcounter (loginerrorcounter s + 1) s).
    apply (within_step s s1); [intros H; exact H|].
    destruct (loginerrorcounter s1 <? 2).
    + apply (within_bind _ _ _ _ _ (meets_discard _ _ meets_restart_pogo_safe)).
      intros _ s' _ (F1 & F2 & F3 & F4 & F5).
      returns. subst s1. simpl in *. hs_done.
    + rewrite (run_bind (ret tt) _ s1 tt s1 eq_refl).
      returns. subst s1. simpl. hs_done.
  - (* DISABLED *) returns. hs_done.
  - (* UPDATE *)
    apply (within_bind _ _ _ _ _ (meets_act_frame (Sleep 300))).
    intros _ s' _ (F1 & F2 & F3 & F4 & F5). returns. hs_done.
  - (* ERROR *) rewrite incr_then. returns. hs_done.
  - (* FAILURE *) rewrite incr_then. returns. hs_done.
  - (* NOGGL *) rewrite incr_then. returns. hs_done.
  - (* GPS *)
    apply (within_bind _ _ _ _ _ (meets_reboot false)).
    intros _ s' _ [(F1 & F2 & F3 & F4 & F5) Hs]. returns. hs_done.
  - (* SN *)
    apply (within_bind _ _ _ _ _ meets_restart_pogo_safe).
    intros _ s' _ (F1 & F2 & F3 & F4 & F5). returns. hs_done.
  - (* NOTRESPONDING *)
    apply (within_bind _ _ _ _ _ (meets_reboot false)).
    intros _ s' _ [(F1 & F2 & F3 & F4 & F5) Hs]. returns. hs_done.
  - (* OTHER *) returns. hs_done.
Qed.

Lemma login_error_escalation_meets :
  meets login_error_escalation (fun s c s' =>
    same_screen_count s' = same_screen_count s
    /\ last_screen_type s' = last_screen_type s
    /\ (stop_worker_event s = true -> stop_worker_event s' = true)
    /\ (1 < loginerrorcounter s ->
          c = Break ExitLoginErrors /\ loginerrorcounter s' = 0
          /\ stop_worker_event s' = true
          /\ trace s' = trace s ++ full_restart (clear_game_data s))
    /\ (loginerrorcounter s <= 1 -> c = Next /\ s' = s)).
Proof.
  intros s. unfold login_error_escalation, _stop_pogo. rewrite bind_gets.
  destruct (loginerrorcounter s >? 1) eqn:Ec.
  - apply Z.gtb_lt in Ec.
    apply (within_bind _ _ _ _ _ (meets_request_logged StopPogo)). intros _ s1 _ [F1 T1].
    apply (within_bind _ _ _ _ _
             (meets_command_logged (CommClearAppCache "com.nianticlabs.pokemongo"))).
    intros _ s2 _ [F2 T2]. rewrite bind_gets.
    assert (meets (if clear_game_data s2
                   then command (CommResetAppData "com.nianticlabs.pokemongo") else ret tt)
                  (fun s _ s' =>
                     frame s s'
                     /\ trace s' = trace s ++ (if clear_game_data s2
                                               then [CommResetAppData "com.nianticlabs.pokemongo"]
                                               else []))) as Hreset.
    { destruct (clear_game_data s2); [apply meets_command_logged|]. intros s0.
      split; [split; [apply frame_refl|rewrite app_nil_r; reflexivity]|auto]. }
    apply (within_bind _ _ _ _ _ Hreset).
    intros _ s3 _ [F3 T3]. rewrite bind_modify.
    apply (within_step s3 (set_loginerrorcounter 0 s3)); [intros H; exact H|].
    apply (within_bind _ _ _ _ _ (meets_reboot_logged false)). intros _ s4 _ (F4 & Hs & T4).
    returns.
    pose proof (frame_trans _ _ _ F1 F2) as (K1 & K2 & K3 & K4 & K5).
    pose proof (frame_trans _ _ _ (frame_trans _ _ _ F1 F2) F3) as (G1 & G2 & G3 & G4 & G5).
    destruct F4 as (H1 & H2 & H3 & H4 & H5). simpl in *.
    split; [congruence|]. split; [congruence|]. split; [auto|].
    split; [|intros Hle; lia].
    intros _. split; [reflexivity|]. split; [exact H3|]. split; [exact Hs|].
    rewrite T4, T3, T2, T1, K4. unfold full_restart. rewrite <- !app_assoc. reflexivity.
  - rewrite Z.gtb_ltb in Ec. apply Z.ltb_ge in Ec.
    returns.
    split; [reflexivity|]. split; [reflexivity|]. split; [auto|].
    split; [intros Hlt; lia|auto].
Qed.

Lemma classic_frozen screen_type s : frozen screen_type s \/ ~ frozen screen_type s.
Proof.
  unfold frozen.
  destruct (decide (screen_type = ScreenType.ERROR)) as [He|He]; [right; tauto|].
  destruct (decide (last_screen_type s = screen_type)) as [Hl|Hl]; [|right; tauto].
  destruct (Z_le_gt_dec 3 (same_screen_count s)); [left; auto|right; intros (_ & _ & H); lia].
Qed.

Lemma frozen_frame screen_type s s' : frame s s' -> frozen screen_type s <-> frozen screen_type s'.
Proof. unfold frozen. intros (F1 & F2 & _). rewrite F1, F2. tauto. Qed.

Lemma handle_screen_exit (screen_type : ScreenType.t) (c : Ctl) :
  match screen_type with
  | ScreenType.DISABLED => c = Break ExitDisabled
  | ScreenType.GPS => c = Break ExitGps
  | ScreenType.SN => c = Break ExitSn
  | ScreenType.NOTRESPONDING => c = Break ExitNotResponding
  | _ => c = Next
  end ->
  c <> Break ExitTopmost /\ c <> Break ExitStopSignal
  /\ c <> Break ExitFrozen /\ c <> Break ExitLoginErrors.
Proof. destruct screen_type; intros ->; repeat split; discriminate. Qed.

Lemma loop_body_meets screen_type :
  meets (loop_body screen_type) (fun s c s' =>
    (stop_worker_event s = true -> stop_worker_event s' = true)
    /\ (is_topmost screen_type = true ->
          c = Break ExitTopmost /\ loginerrorcounter s' = 0
          /\ last_screen_type s' = screen_type)
    /\ (is_topmost screen_type = false -> c <> Break ExitTopmost)
    /\ c <> Break ExitStopSignal
    /\ (c = Break ExitGps \/ c = Break ExitNotResponding \/ c = Break ExitLoginErrors ->
          stop_worker_event s' = true)
    /\ (c = Break ExitLoginErrors -> loginerrorcounter s' = 0)
    /\ (is_topmost screen_type = false -> frozen screen_type s ->
          c = Break ExitFrozen
          /\ same_screen_count s' = same_screen_count s + 1
          /\ last_screen_type s' = last_screen_type s
          /\ loginerrorcounter s' = loginerrorcounter s
          /\ (4 <= same_screen_count s -> stop_worker_event s' = true))
    /\ (is_topmost screen_type = false -> ~ frozen screen_type s ->
          login_error_screen screen_type = true ->
          (1 <= loginerrorcounter s -> c = Break ExitLoginErrors)
          /\ (loginerrorcounter s <= 0 ->
                c = Next /\ loginerrorcounter s' = loginerrorcounter s + 1))
    /\ (c = Next -> last_screen_type s' = screen_type)
    /\ (is_topmost screen_type = false -> ~ frozen screen_type s ->
          match screen_type with
          | ScreenType.DISABLED => c = Break ExitDisabled
          | ScreenType.GPS => c = Break ExitGps
          | ScreenType.SN => c = Break ExitSn
          | ScreenType.NOTRESPONDING => c = Break ExitNotResponding
          | _ => True
          end)).
Proof.
  intros s. unfold loop_body.
  apply (within_bind _ _ _ _ _ (meets_command_frame DetectScreentype)). intros _ s0 _ F0.
  pose proof (frozen_frame screen_type _ _ F0) as Hfz.
  destruct F0 as (A1 & A2 & A3 & A4 & A5).
  destruct (is_topmost screen_type) eqn:Htop.
  - rewrite !bind_modify. returns. simpl.
    split; [exact A5|]. split; [auto|]. split; [discriminate|]. split; [discriminate|].
    split; [intros [H|[H|H]]; discriminate H|]. split; [discriminate|].
    split; [discriminate|]. split; [discriminate|]. split; discriminate.
  - apply (within_bind _ _ _ _ _ (same_screen_check_meets screen_type)).
    intros c1 s1 _ (B1 & B2 & B3 & B4 & B5 & B6 & B7 & B8).
    destruct (classic_frozen screen_type s0) as [Hf|Hf].
    + destruct (B5 Hf) as (-> & C1 & C2).
      returns.
      split; [auto|]. split; [discriminate|]. split; [discriminate|]. split; [discriminate|].
      split; [intros [H|[H|H]]; discriminate H|]. split; [discriminate|].
      split; [intros _ _; repeat split; try congruence; intros H; apply C2; lia|].
      split; [intros _ Hn; exfalso; apply Hn, Hfz, Hf|].
      split; [discriminate|]. intros _ Hn. exfalso. apply Hn, Hfz, Hf.
    + rewrite (B6 Hf).
      apply (within_bind _ _ _ _ _ (handle_screen_meets screen_type)).
      intros c2 s2 _ (D1 & D2 & D3 & D4 & D5 & D6 & D7).
      destruct (handle_screen_exit _ _ D7) as (D8 & D9 & D10 & D11).
      destruct c2 as [why|].
      * returns.
        split; [auto|]. split; [discriminate|]. split; [intros _; exact D8|].
        split; [exact D9|].
        split; [intros [H|[H|H]]; [apply D6; auto|apply D6; auto|contradiction]|].
        split; [intros H; contradiction|].
        split; [intros _ H; exfalso; apply Hf, Hfz, H|].
        split; [|split; [discriminate|]].
        -- intros _ _ Hle. rewrite Hle in D5. destruct D5 as [D5 _]. discriminate D5.
        -- intros _ _. destruct screen_type; auto.
      * apply (within_bind _ _ _ _ _ login_error_escalation_meets).
        intros c3 s3 _ (G1 & G2 & G3 & G4 & G5).
        assert (match screen_type with
                | ScreenType.DISABLED | ScreenType.GPS | ScreenType.SN
                | ScreenType.NOTRESPONDING => False
                | _ => True
                end) as Hscreen
          by (destruct screen_type; auto; discriminate D7).
        destruct c3 as [why|].
        -- returns.
           destruct (Z_lt_le_dec 1 (loginerrorcounter s2)) as [Hc|Hc];
             [|destruct (G5 Hc) as [H _]; discriminate H].
           destruct (G4 Hc) as (H1 & H2 & H3 & _). injection H1 as ->.
           split; [auto|]. split; [discriminate|]. split; [discriminate|].
           split; [discriminate|]. split; [auto|]. split; [auto|].
           split; [intros _ H; exfalso; apply Hf, Hfz, H|].
           split; [|split; [discriminate|]].
           ++ intros _ _ Hle. rewrite Hle in D5. destruct D5 as [_ D5].
              split; [reflexivity|]. intros H0. lia.
           ++ intros _ _. destruct screen_type; auto; contradiction.
        -- rewrite bind_modify. returns. simpl.
           destruct (Z_lt_le_dec 1 (loginerrorcounter s2)) as [Hc|Hc];
             [destruct (G4 Hc) as [H _]; discriminate H|].
           destruct (G5 Hc) as [_ ->].
           split; [auto|]. split; [discriminate|]. split; [discriminate|].
           split; [discriminate|].
           split; [intros [H|[H|H]]; discriminate H|]. split; [discriminate|].
           split; [intros _ H; exfalso; apply Hf, Hfz, H|].
           split; [|split; [reflexivity|]].
           ++ intros _ _ Hle. rewrite Hle in D5. destruct D5 as [_ D5].
              split; [intros H1; lia|]. intros H0. split; [reflexivity|]. lia.
           ++ intros _ _. destruct screen_type; auto; contradiction.
Qed.

Lemma is_topmost_spec screen_type :
  is_topmost screen_type = true <-> screen_type = ScreenType.POGO \/ screen_type = ScreenType.QUEST.
Proof.
  destruct screen_type; simpl; split; intros H; try discriminate H; auto;
    destruct H as [H|H]; discriminate H.
Qed.

(** ** The close dialog, twice *)

Lemma handle_close_meets :
  meets (handle_screen ScreenType.CLOSE)
        (fun s c s' =>
           c = Next
           /\ exists fs,
                s' = set_loginerrorcounter (loginerrorcounter s + 1)
                       (set_answers (tl (answers s))
                          (set_faults fs (set_trace (trace s ++ [StartPogo]) s)))).
Proof.
  intros s. unfold handle_screen, _start_pogo.
  apply (within_bind _ _ _ _ _ (meets_request StartPogo)). intros b s2 _ (_ & fs2 & ->).
  rewrite incr_then. returns. split; [reflexivity|]. exists fs2. reflexivity.
Qed.

Lemma loop_body_close_first s :
  loginerrorcounter s = 0 -> last_screen_type s <> ScreenType.CLOSE ->
  within s
    (fun c s1 =>
       c = Next
       /\ trace s1 = trace s ++ [DetectScreentype; StartPogo]
       /\ loginerrorcounter s1 = 1
       /\ last_screen_type s1 = ScreenType.CLOSE
       /\ same_screen_count s1 = 0
       /\ stop_worker_event s1 = stop_worker_event s
       /\ clear_game_data s1 = clear_game_data s)
    (loop_body ScreenType.CLOSE s).
Proof.
  intros Hc Hl. unfold loop_body.
  apply (within_bind _ _ _ _ _ (meets_command DetectScreentype)). intros _ s0 _ (fs & ->).
  cbn [is_topmost ScreenType.eqb orb].
  apply (within_bind _ _ _ _ _ (same_screen_check_meets ScreenType.CLOSE)).
  intros c1 s1 _ (_ & _ & _ & _ & _ & B6 & _ & B8).
  assert (~ frozen ScreenType.CLOSE
              (set_faults fs (set_trace (trace s ++ [DetectScreentype]) s))) as Hnf
    by (intros (_ & H & _); apply Hl; exact H).
  rewrite (B6 Hnf). destruct (B8 Hnf) as (n & -> & Hn). rewrite (Hn Hl). clear Hn B6 B8.
  apply (within_bind _ _ _ _ _ handle_close_meets). intros c2 s2 _ (-> & fs2 & ->).
  apply (within_bind _ _ _ _ _ login_error_escalation_meets).
  intros c3 s3 _ (_ & _ & _ & _ & G5).
  destruct G5 as [-> ->]; [simpl; lia|].
  rewrite bind_modify. returns. simpl. rewrite Hc, <- app_assoc. auto 10.
Qed.

Lemma loop_body_close_second s :
  loginerrorcounter s = 1 -> last_screen_type s = ScreenType.CLOSE ->
  same_screen_count s = 0 ->
  within s
    (fun c s2 =>
       c = Break ExitLoginErrors
       /\ trace s2 = trace s ++ [DetectScreentype; StartPogo] ++ full_restart (clear_game_data s)
       /\ loginerrorcounter s2 = 0
       /\ stop_worker_event s2 = true)
    (loop_body ScreenType.CLOSE s).
Proof.
  intros Hc Hl Hs. unfold loop_body.
  apply (within_bind _ _ _ _ _ (meets_command DetectScreentype)). intros _ s0 _ (fs & ->).
  cbn [is_topmost ScreenType.eqb orb].
  apply (within_bind _ _ _ _ _ (same_screen_check_meets ScreenType.CLOSE)).
  intros c1 s1 _ (_ & _ & _ & _ & _ & B6 & _ & B8).
  assert (~ frozen ScreenType.CLOSE
              (set_faults fs (set_trace (trace s ++ [DetectScreentype]) s))) as Hnf
    by (intros (_ & _ & H); simpl in H; lia).
  rewrite (B6 Hnf). destruct (B8 Hnf) as (n & -> & _). clear B6 B8.
  apply (within_bind _ _ _ _ _ handle_close_meets). intros c2 s2 _ (-> & fs2 & ->).
  apply (within_bind _ _ _ _ _ login_error_escalation_meets).
  intros c3 s3 _ (_ & _ & _ & G4 & _).
  destruct G4 as (-> & G1 & G2 & G3); [simpl; lia|].
  returns. simpl in G3. rewrite G3, <- !app_assoc. auto.
Qed.

(** C5.  From a worker with no login error counted, the stop event clear
    and a last screen other than CLOSE, on CLOSE, CLOSE, CLOSE with no stop
    request.  When no command to the device raises: the first pass taps
    the app into the foreground ([_start_pogo]) and counts one login error,
    and the loop goes on without escalation; the second pass taps again,
    counts the second error and performs the full restart (stop, clear
    cache, wipe data if configured, counter back to 0, reboot) and leaves
    the loop; the method returns [False] there, the third classification
    is never asked for.  In every environment: the first close dialog
    alone never makes the method return, and on the three the method ends
    by raising or by returning; whenever it returns it returns [False],
    with exactly these two taps followed by one full restart in the log. *)
Theorem close_dialog_escalation (s : t) :
  loginerrorcounter s = 0 -> stop_worker_event s = false ->
  last_screen_type s <> ScreenType.CLOSE ->
  let close := mkTick false ScreenType.CLOSE in
  (calm s ->
   exists s1 s2,
     loop_body ScreenType.CLOSE s = (inr Next, s1)
     /\ trace s1 = trace s ++ [DetectScreentype; StartPogo]
     /\ loginerrorcounter s1 = 1
     /\ _ensure_pogo_topmost [close] s = None
     /\ loop_body ScreenType.CLOSE s1 = (inr (Break ExitLoginErrors), s2)
     /\ trace s2 = trace s1 ++ [DetectScreentype; StartPogo] ++ full_restart (clear_game_data s)
     /\ loginerrorcounter s2 = 0
     /\ _ensure_pogo_topmost [close; close; close] s = Some (inr false, s2))
  /\ (forall success s', _ensure_pogo_topmost [close] s <> Some (inr success, s'))
  /\ (exists r s',
        _ensure_pogo_topmost [close; close; close] s = Some (r, s')
        /\ forall success, r = inr success ->
             success = false
             /\ trace s' = trace s ++ [DetectScreentype; StartPogo]
                             ++ [DetectScreentype; StartPogo]
                             ++ full_restart (clear_game_data s)
             /\ loginerrorcounter s' = 0
             /\ stop_worker_event s' = true).
Proof.
  intros Hc He Hl. cbv zeta.
  pose proof (loop_body_close_first s Hc Hl) as H1.
  unfold _ensure_pogo_topmost. cbn [ensure_loop stop_requested screen]. rewrite He.
  destruct (loop_body ScreenType.CLOSE s) as [[e|c] s1] eqn:E1; unfold within in H1.
  - (* the first pass raises *)
    split; [intros Hcalm; contradiction|]. split; [discriminate|].
    eexists _, _. split; [reflexivity|]. discriminate.
  - destruct H1 as [(-> & T1 & C1 & L1 & S1 & St1 & Cl1) Hcalm1].
    rewrite St1, He.
    pose proof (loop_body_close_second s1 C1 L1 S1) as H2.
    destruct (loop_body ScreenType.CLOSE s1) as [[e|c] s2] eqn:E2; unfold within in H2.
    + (* the second pass raises *)
      split; [intros Hcalm; exfalso; apply H2, Hcalm1, Hcalm|]. split; [discriminate|].
      eexists _, _. split; [reflexivity|]. discriminate.
    + destruct H2 as [(-> & T2 & C2 & St2) Hcalm2]. rewrite Cl1 in T2.
      split; [|split].
      * intros _. exists s1, s2. auto 10.
      * discriminate.
      * eexists _, _. split; [reflexivity|]. intros success H. injection H as <-.
        split; [reflexivity|]. split; [|auto].
        rewrite T2, T1, <- !app_assoc. reflexivity.
Qed.

(** C5 on a freshly started worker. *)
Lemma close_dialog_escalation_witness :
  let s := init (mkWalker "countdown" "60" None) false true [true; true; true; true] in
  let close := mkTick false ScreenType.CLOSE in
  exists s2,
    _ensure_pogo_topmost [close; close; close] s = Some (inr false, s2)
    /\ trace s2 = [DetectScreentype; StartPogo; DetectScreentype; StartPogo] ++ full_restart true.
Proof.
  cbv zeta.
  destruct (proj1 (close_dialog_escalation
                     (init (mkWalker "countdown" "60" None) false true [true; true; true; true])
                     eq_refl eq_refl ltac:(discriminate)) eq_refl)
    as (s1 & s2 & _ & T1 & _ & _ & _ & T2 & _ & R).
  exists s2. split; [exact R|]. rewrite T2, T1. reflexivity.
Defined.

(** C6, amended.  In countdown mode with a non-empty duration: when the
    walker has no event id or the current event's, the first evaluation
    records the floor of the wall clock as start and returns continue, and
    every later one returns stop if and only if the floor of the wall clock
    has reached start + d, changing nothing; when the walker's event id
    differs from the current event's, every evaluation returns stop. *)
Theorem countdown_policy (py_int : string -> option Z) (fuel : nat) (s : t) (now : Q)
    (current_event_id processed_rounds : Z) :
  algo_type (walker s) = "countdown" ->
  algo_value (walker s) <> "" ->
  (event_matches (walker s) current_event_id ->
     (workerstart s = None ->
        check_walker py_int fuel now current_event_id processed_rounds s
        = Some (inr true, set_workerstart (Some (Qfloor now)) s))
     /\ (forall start d,
           workerstart s = Some start -> py_int (algo_value (walker s)) = Some d ->
           exists continue,
             check_walker py_int fuel now current_event_id processed_rounds s
             = Some (inr continue, s)
             /\ (continue = false <-> start + d <= Qfloor now)))
  /\ (~ event_matches (walker s) current_event_id ->
        check_walker py_int fuel now current_event_id processed_rounds s = Some (inr false, s)).
Proof.
  intros Hmode Hval. unfold check_walker, event_matches, bindL, done, bind, gets, modify, ret.
  rewrite Hmode. simpl.
  apply String.eqb_neq in Hval. rewrite Hval.
  split.
  - intros Hev.
    assert (match eventid (walker s) with
            | Some walkereventid => negb (walkereventid =? current_event_id)
            | None => false
            end = false) as ->.
    { destruct Hev as [-> | ->]; [reflexivity|]. rewrite Z.eqb_refl. reflexivity. }
    split.
    + intros ->. reflexivity.
    + intros start d -> ->.
      destruct (Qfloor now >=? start + d) eqn:E.
      * exists false. split; [reflexivity|]. split; [lia|reflexivity].
      * exists true. split; [reflexivity|]. split; [discriminate|lia].
  - intros Hev.
    destruct (eventid (walker s)) as [e|] eqn:Ee; [|exfalso; apply Hev; auto].
    destruct (e =? current_event_id) eqn:E; [|reflexivity].
    exfalso. apply Hev. right. f_equal. lia.
Qed.

(** C6 as stated fails: a countdown of 60 started at 100, evaluated at
    110 while event 6 runs and the walker belongs to event 5, stops. *)
Lemma countdown_stops_early_on_event_change :
  let s := set_workerstart (Some 100)
             (init (mkWalker "countdown" "60" (Some 5)) false false []) in
  check_walker decimal 1 (110 # 1) 6 0 s = Some (inr false, s)
  /\ Qfloor (110 # 1) < 100 + 60
  /\ decimal "60" = Some 60.
Proof. cbv zeta. split; [reflexivity|]. split; [reflexivity|reflexivity]. Qed.

(** C6 on a countdown of 60: first evaluation at 100.5, then at 159.9
    (continue) and at 160 (stop). *)
Lemma countdown_policy_witness :
  let s0 := init (mkWalker "countdown" "60" None) false false [] in
  let s1 := set_workerstart (Some 100) s0 in
  check_walker decimal 1 (1005 # 10) 0 0 s0 = Some (inr true, s1)
  /\ (exists continue, check_walker decimal 1 (1599 # 10) 0 0 s1 = Some (inr continue, s1)
                       /\ (continue = false <-> 100 + 60 <= Qfloor (1599 # 10)))
  /\ (exists continue, check_walker decimal 1 (160 # 1) 0 0 s1 = Some (inr continue, s1)
                       /\ (continue = false <-> 100 + 60 <= Qfloor (160 # 1))).
Proof.
  cbv zeta.
  pose (s0 := init (mkWalker "countdown" "60" None) false false []).
  assert (Hne : algo_value (walker s0) <> "") by discriminate.
  split; [|split].
  - apply (proj1 (proj1 (countdown_policy decimal 1 s0 (1005 # 10) 0 0 eq_refl Hne)
                    (or_introl eq_refl)) eq_refl).
  - apply (proj2 (proj1 (countdown_policy decimal 1 (set_workerstart (Some 100) s0)
                           (1599 # 10) 0 0 eq_refl Hne)
                    (or_introl eq_refl)) 100 60 eq_refl eq_refl).
  - apply (proj2 (proj1 (countdown_policy decimal 1 (set_workerstart (Some 100) s0)
                           (160 # 1) 0 0 eq_refl Hne)
                    (or_introl eq_refl)) 100 60 eq_refl eq_refl).
Defined.

(** ** How the loop is left *)

Lemma ensure_loop_exit ticks : forall screen_type s r why s',
  is_topmost screen_type = false ->
  ensure_loop ticks screen_type s = Some (inr (r, why), s') ->
  (is_topmost r = true <-> why = ExitTopmost).
Proof.
  induction ticks as [|tk ticks IH]; intros screen_type s r why s' Hinit Hrun; simpl in Hrun.
  - destruct (stop_worker_event s); [|discriminate].
    injection Hrun as <- <- <-. rewrite Hinit. split; discriminate.
  - destruct (stop_worker_event (if stop_requested tk then _ else _)).
    + injection Hrun as <- <- <-. rewrite Hinit. split; discriminate.
    + destruct (loop_body (screen tk) _) as [[e|c] s1] eqn:E; [discriminate|].
      pose proof (meets_returned _ _ _ _ _ (loop_body_meets (screen tk)) E)
        as (_ & P2 & P3 & P4 & _).
      destruct c as [w|].
      * injection Hrun as <- <- <-.
        destruct (is_topmost (screen tk)) eqn:Htop.
        -- destruct P2 as [P2 _]; [reflexivity|]. injection P2 as ->. tauto.
        -- split; [discriminate|]. intros ->. exfalso. apply P3; reflexivity.
      * destruct (is_topmost (screen tk)) eqn:Htop.
        -- destruct P2 as [P2 _]; [reflexivity|]. discriminate P2.
        -- eapply IH; eauto.
Qed.

(** One pass that ends the loop, from any worker. *)
Lemma pass_ends tk rest s why :
  stop_requested tk = false -> stop_worker_event s = false ->
  (forall c s1, loop_body (screen tk) s = (inr c, s1) -> c = Break why) ->
  ends_with (tk :: rest) s (is_topmost (screen tk)) why.
Proof.
  intros Hreq Hstop Hc. unfold ends_with, _ensure_pogo_topmost, exit_reason.
  cbn [firstn ensure_loop]. rewrite Hreq, Hstop.
  pose proof (loop_body_meets (screen tk) s) as Hm.
  destruct (loop_body (screen tk) s) as [[e|c] s1] eqn:E; unfold within in Hm.
  - eexists _, _. split; [reflexivity|]. split; [reflexivity|].
    split; [discriminate|]. intros H. contradiction.
  - rewrite (Hc c s1 eq_refl).
    eexists _, _. split; [reflexivity|]. split; [reflexivity|].
    split; [|reflexivity]. intros b H. injection H as <-. auto.
Qed.

Lemma stop_ends ticks s :
  stop_worker_event s = true
  \/ (exists tk rest, ticks = tk :: rest /\ stop_requested tk = true) ->
  ends_with ticks s false ExitStopSignal.
Proof.
  intros H. unfold ends_with, _ensure_pogo_topmost, exit_reason.
  destruct ticks as [|tk rest].
  - destruct H as [H|(tk & rest & H & _)]; [|discriminate H].
    cbn [firstn ensure_loop]. rewrite H.
    eexists _, _. split; [reflexivity|]. split; [reflexivity|].
    split; [|reflexivity]. intros b Hb. injection Hb as <-. auto.
  - cbn [firstn ensure_loop].
    assert (stop_worker_event (if stop_requested tk then set_stop_worker_event true s else s)
            = true) as ->.
    { destruct H as [H|(tk' & rest' & H & Hr)].
      - destruct (stop_requested tk); [reflexivity|exact H].
      - injection H as <- <-. rewrite Hr. reflexivity. }
    eexists _, _. split; [reflexivity|]. split; [reflexivity|].
    split; [|reflexivity]. intros b Hb. injection Hb as <-. auto.
Qed.

(** C7.  Whenever [_ensure_pogo_topmost] returns, it returns [True] if
    and only if the classification the loop ended on is POGO or QUEST, and
    if and only if the loop was left through the [break] of that case.
    And each way of leaving the loop does so, on a pass that starts from
    any worker: with the stop event set or requested the method returns
    [False] without a pass; otherwise a pass on POGO or QUEST ends the
    method with [True], and it ends the method with [False] when the
    screen is frozen, and, when it is not, when the classification is
    DISABLED, GPS, SN or NOTRESPONDING, or is a login-error screen met with
    a login error already counted.  On each of these passes the method
    returns when no command to the device raises, and otherwise ends by
    raising. *)
Theorem ensure_pogo_topmost_exit_contract (ticks : list Tick) (s : t) :
  (forall success s',
     _ensure_pogo_topmost ticks s = Some (inr success, s') ->
     exists screen_type why,
       terminal_screen ticks s = Some screen_type
       /\ exit_reason ticks s = Some why
       /\ (success = true <-> screen_type = ScreenType.POGO \/ screen_type = ScreenType.QUEST)
       /\ (success = true <-> why = ExitTopmost))
  /\ (stop_worker_event s = true -> ends_with ticks s false ExitStopSignal)
  /\ (forall tk rest, ticks = tk :: rest ->
        (stop_requested tk = true -> ends_with ticks s false ExitStopSignal)
        /\ (stop_worker_event s = false -> stop_requested tk = false ->
              (screen tk = ScreenType.POGO \/ screen tk = ScreenType.QUEST ->
                 ends_with ticks s true ExitTopmost)
              /\ (is_topmost (screen tk) = false -> frozen (screen tk) s ->
                    ends_with ticks s false ExitFrozen)
              /\ (~ frozen (screen tk) s ->
                    (screen tk = ScreenType.DISABLED -> ends_with ticks s false ExitDisabled)
                    /\ (screen tk = ScreenType.GPS -> ends_with ticks s false ExitGps)
                    /\ (screen tk = ScreenType.SN -> ends_with ticks s false ExitSn)
                    /\ (screen tk = ScreenType.NOTRESPONDING ->
                          ends_with ticks s false ExitNotResponding)
                    /\ (login_error_screen (screen tk) = true -> 1 <= loginerrorcounter s ->
                          ends_with ticks s false ExitLoginErrors)))).
Proof.
  split; [|split].
  - intros success s'. unfold _ensure_pogo_topmost, terminal_screen, exit_reason.
    destruct (ensure_loop ticks ScreenType.UNDEFINED s) as [[[e|[r why]] s1]|] eqn:E;
      try discriminate.
    intros H. injection H as <- <-.
    exists r, why. split; [reflexivity|]. split; [reflexivity|].
    split; [apply is_topmost_spec|].
    eapply ensure_loop_exit; [|exact E]. reflexivity.
  - intros H. apply stop_ends. auto.
  - intros tk rest ->. split.
    + intros H. apply stop_ends. right. eauto.
    + intros Hstop Hreq.
      assert (forall success why,
                is_topmost (screen tk) = success ->
                (forall c s1, loop_body (screen tk) s = (inr c, s1) -> c = Break why) ->
                ends_with (tk :: rest) s success why) as Hend.
      { intros success why <- Hc. apply pass_ends; assumption. }
      split; [|split].
      * intros Htop. apply is_topmost_spec in Htop. apply Hend; [exact Htop|].
        intros c s1 E.
        apply (meets_returned _ _ _ _ _ (loop_body_meets (screen tk))) in E
          as (_ & P2 & _). apply P2, Htop.
      * intros Htop Hfz. apply Hend; [exact Htop|].
        intros c s1 E.
        apply (meets_returned _ _ _ _ _ (loop_body_meets (screen tk))) in E
          as (_ & _ & _ & _ & _ & _ & P7 & _). apply P7; assumption.
      * intros Hfz.
        assert (forall why,
                  is_topmost (screen tk) = false ->
                  (forall c s1,
                     loop_body (screen tk) s = (inr c, s1) ->
                     match screen tk with
                     | ScreenType.DISABLED => c = Break ExitDisabled
                     | ScreenType.GPS => c = Break ExitGps
                     | ScreenType.SN => c = Break ExitSn
                     | ScreenType.NOTRESPONDING => c = Break ExitNotResponding
                     | _ => True
                     end -> c = Break why) ->
                  ends_with (tk :: rest) s false why) as Hscreen.
        { intros why Htop Hc. apply Hend; [exact Htop|]. intros c s1 E.
          apply (Hc c s1 E).
          apply (meets_returned _ _ _ _ _ (loop_body_meets (screen tk))) in E
            as (_ & _ & _ & _ & _ & _ & _ & _ & _ & P10). apply P10; assumption. }
        split; [|split; [|split; [|split]]].
        -- intros Hx. apply Hscreen; rewrite Hx; [reflexivity|]. auto.
        -- intros Hx. apply Hscreen; rewrite Hx; [reflexivity|]. auto.
        -- intros Hx. apply Hscreen; rewrite Hx; [reflexivity|]. auto.
        -- intros Hx. apply Hscreen; rewrite Hx; [reflexivity|]. auto.
        -- intros Hle Hc.
           assert (is_topmost (screen tk) = false) as Htop
             by (destruct (screen tk); try reflexivity; discriminate Hle).
           apply Hend; [exact Htop|]. intros c s1 E.
           apply (meets_returned _ _ _ _ _ (loop_body_meets (screen tk))) in E
             as (_ & _ & _ & _ & _ & _ & _ & P8 & _).
           apply P8; assumption.
Qed.

(** C7 on a freshly started worker: a GPS error, a disabled detection
    and a requested stop end the method with [False], a black screen
    followed by QUEST with [True]; and on a worker that has seen the black
    screen three times over, or has one login error counted, a fourth
    black screen and an error screen end it with [False]. *)
Lemma ensure_pogo_topmost_exit_contract_witness :
  let s := init (mkWalker "countdown" "60" None) false false [] in
  let seen count errors :=
    mk (mkWalker "countdown" "60" None) None count ScreenType.BLACK errors false
       (mkLocation 0 0) false false [] [] [] in
  ends_with [mkTick false ScreenType.GPS; mkTick false ScreenType.POGO] s false ExitGps
  /\ ends_with [mkTick false ScreenType.DISABLED] s false ExitDisabled
  /\ ends_with [mkTick true ScreenType.POGO] s false ExitStopSignal
  /\ ends_with [mkTick false ScreenType.QUEST] s true ExitTopmost
  /\ ends_with [mkTick false ScreenType.BLACK] (seen 3 0) false ExitFrozen
  /\ ends_with [mkTick false ScreenType.ERROR] (seen 0 1) false ExitLoginErrors
  /\ exists screen_type why,
       terminal_screen [mkTick false ScreenType.BLACK; mkTick false ScreenType.QUEST] s
       = Some screen_type
       /\ exit_reason [mkTick false ScreenType.BLACK; mkTick false ScreenType.QUEST] s
          = Some why
       /\ (true = true <-> screen_type = ScreenType.POGO \/ screen_type = ScreenType.QUEST)
       /\ (true = true <-> why = ExitTopmost).
Proof.
  cbv zeta.
  pose (s := init (mkWalker "countdown" "60" None) false false []).
  assert (forall x, x <> ScreenType.UNDEFINED -> ~ frozen x s) as Hnf
    by (intros x Hx (_ & H & _); apply Hx; symmetry; exact H).
  split; [|split; [|split; [|split; [|split; [|split]]]]].
  - apply (proj1 (proj2 (proj2 (proj2 (proj2 (proj2 (proj2
             (ensure_pogo_topmost_exit_contract
                [mkTick false ScreenType.GPS; mkTick false ScreenType.POGO] s))
             _ _ eq_refl) eq_refl eq_refl))
             (Hnf ScreenType.GPS ltac:(discriminate)))) eq_refl).
  - apply (proj1 (proj2 (proj2 (proj2 (proj2 (proj2
             (ensure_pogo_topmost_exit_contract [mkTick false ScreenType.DISABLED] s))
             _ _ eq_refl) eq_refl eq_refl))
             (Hnf ScreenType.DISABLED ltac:(discriminate))) eq_refl).
  - apply (proj1 (proj2 (proj2
             (ensure_pogo_topmost_exit_contract [mkTick true ScreenType.POGO] s))
             _ _ eq_refl) eq_refl).
  - apply (proj1 (proj2 (proj2 (proj2
             (ensure_pogo_topmost_exit_contract [mkTick false ScreenType.QUEST] s))
             _ _ eq_refl) eq_refl eq_refl) (or_intror eq_refl)).
  - apply (proj1 (proj2 (proj2 (proj2 (proj2
             (ensure_pogo_topmost_exit_contract [mkTick false ScreenType.BLACK]
                (mk (mkWalker "countdown" "60" None) None 3 ScreenType.BLACK 0 false
                    (mkLocation 0 0) false false [] [] [])))
             _ _ eq_refl) eq_refl eq_refl)) eq_refl).
    unfold frozen. simpl. split; [discriminate|]. split; [reflexivity|lia].
  - apply (proj2 (proj2 (proj2 (proj2 (proj2 (proj2 (proj2 (proj2 (proj2
             (ensure_pogo_topmost_exit_contract [mkTick false ScreenType.ERROR]
                (mk (mkWalker "countdown" "60" None) None 0 ScreenType.BLACK 1 false
                    (mkLocation 0 0) false false [] [] [])))
             _ _ eq_refl) eq_refl eq_refl))
             ltac:(intros (H & _); apply H; reflexivity))))) eq_refl).
    simpl. lia.
  - apply (proj1 (ensure_pogo_topmost_exit_contract
                    [mkTick false ScreenType.BLACK; mkTick false ScreenType.QUEST] s)
             true _ eq_refl).
Defined.

Lemma loop_body_breaks screen_type s c s1 :
  ends_loop screen_type = true -> loop_body screen_type s = (inr c, s1) -> c <> Next.
Proof.
  intros He E.
  apply (meets_returned _ _ _ _ _ (loop_body_meets screen_type)) in E
    as (_ & P2 & _ & _ & _ & _ & P7 & _ & _ & P10).
  destruct (is_topmost screen_type) eqn:Htop.
  - destruct P2 as [-> _]; [reflexivity|discriminate].
  - destruct (classic_frozen screen_type s) as [Hf|Hf].
    + destruct (P7 eq_refl Hf) as [-> _]. discriminate.
    + specialize (P10 eq_refl Hf).
      destruct screen_type; try discriminate He; try discriminate Htop; rewrite P10; discriminate.
Qed.

(** X29.  The loop is left, and [_ensure_pogo_topmost] ends, as soon as
    the stop event is requested or the classifier answers with a screen
    that ends it (POGO, QUEST, DISABLED, GPS, SN or NOTRESPONDING),
    whatever happened on the passes before: it returns when no command to
    the device raises, and otherwise it returns or raises. *)
Lemma ensure_pogo_topmost_returns ticks s :
  Exists (fun tk => stop_requested tk = true \/ ends_loop (screen tk) = true) ticks ->
  exists r s',
    _ensure_pogo_topmost ticks s = Some (r, s')
    /\ (calm s -> exists success, r = inr success).
Proof.
  intros Hex.
  assert (exists r s', ensure_loop ticks ScreenType.UNDEFINED s = Some (r, s')
                       /\ (calm s -> exists x, r = inr x)) as (r & s' & E & Hr).
  { generalize ScreenType.UNDEFINED. revert s.
    induction Hex as [tk ticks Htk|tk ticks _ IH]; intros s init; cbn [ensure_loop].
    - assert (calm s -> calm (if stop_requested tk then set_stop_worker_event true s else s))
        as Hcalm by (destruct (stop_requested tk); intros H; exact H).
      destruct (stop_worker_event (if stop_requested tk then _ else _)) eqn:Es; [eauto 6|].
      destruct Htk as [Hs|He].
      + rewrite Hs in Es. discriminate Es.
      + pose proof (loop_body_meets (screen tk)
                      (if stop_requested tk then set_stop_worker_event true s else s)) as Hm.
        destruct (loop_body (screen tk) _) as [[e|c] s1] eqn:E; unfold within in Hm.
        * eexists _, _. split; [reflexivity|]. intros H. exfalso. apply Hm, Hcalm, H.
        * pose proof (loop_body_breaks _ _ _ _ He E) as Hc.
          destruct c; [eauto 6|contradiction].
    - assert (calm s -> calm (if stop_requested tk then set_stop_worker_event true s else s))
        as Hcalm by (destruct (stop_requested tk); intros H; exact H).
      destruct (stop_worker_event (if stop_requested tk then _ else _)); [eauto 6|].
      pose proof (loop_body_meets (screen tk)
                    (if stop_requested tk then set_stop_worker_event true s else s)) as Hm.
      destruct (loop_body (screen tk) _) as [[e|c] s1] eqn:E; unfold within in Hm.
      + eexists _, _. split; [reflexivity|]. intros H. exfalso. apply Hm, Hcalm, H.
      + destruct c; [eauto 6|].
        destruct (IH s1 (screen tk)) as (r & s' & E' & Hr).
        exists r, s'. split; [exact E'|]. intros H. apply Hr, Hm, Hcalm, H. }
  unfold _ensure_pogo_topmost. rewrite E. destruct r as [e|[x why]].
  - eexists _, _. split; [reflexivity|]. intros H. destruct (Hr H) as (x & Hx). discriminate Hx.
  - eexists _, _. split; [reflexivity|]. eauto.
Qed.

Lemma ensure_pogo_topmost_returns_witness :
  exists r s',
    _ensure_pogo_topmost
      [mkTick false ScreenType.BLACK; mkTick false ScreenType.UPDATE;
       mkTick false ScreenType.DISABLED; mkTick false ScreenType.POGO]
      (init (mkWalker "idle" "" None) false false []) = Some (r, s')
    /\ (calm (init (mkWalker "idle" "" None) false false []) -> exists success, r = inr success).
Proof.
  apply (ensure_pogo_topmost_returns
           [mkTick false ScreenType.BLACK; mkTick false ScreenType.UPDATE;
            mkTick false ScreenType.DISABLED; mkTick false ScreenType.POGO]
           (init (mkWalker "idle" "" None) false false [])).
  apply Exists_cons_tl, Exists_cons_tl, Exists_cons_hd. right. reflexivity.
Defined.

(** X11.  The frozen-screen check comes before every remedy.  When the
    classifier answers with the screen of the pass before, a screen that
    is neither POGO, QUEST nor ERROR, and that repetition has been counted
    three times already, [_ensure_pogo_topmost] gives up on that pass,
    whatever remedy the screen has: it returns when no command to the
    device raises (the restart and the reboot are commands), and whenever
    it returns it returns [False], the count gone up by one, the login
    error counter and the last screen type as they were; when the
    repetition had been counted four times or more, the device has been
    rebooted and the stop event set. *)
Theorem frozen_screen_gives_up (tk : Tick) (rest : list Tick) (s : t) :
  stop_requested tk = false -> stop_worker_event s = false ->
  is_topmost (screen tk) = false -> frozen (screen tk) s ->
  exists r s',
    _ensure_pogo_topmost (tk :: rest) s = Some (r, s')
    /\ (calm s -> r = inr false)
    /\ (forall success, r = inr success ->
          success = false
          /\ exit_reason (tk :: rest) s = Some ExitFrozen
          /\ same_screen_count s' = same_screen_count s + 1
          /\ last_screen_type s' = last_screen_type s
          /\ loginerrorcounter s' = loginerrorcounter s
          /\ (4 <= same_screen_count s -> stop_worker_event s' = true)).
Proof.
  intros Hreq Hstop Htop Hfz.
  unfold _ensure_pogo_topmost, exit_reason. cbn [ensure_loop]. rewrite Hreq, Hstop.
  pose proof (loop_body_meets (screen tk) s) as Hm.
  destruct (loop_body (screen tk) s) as [[e|c] s'] eqn:E; unfold within in Hm.
  - eexists _, _. split; [reflexivity|]. split; [intros H; contradiction|discriminate].
  - destruct Hm as [(_ & _ & _ & _ & _ & _ & P7 & _) _].
    destruct (P7 Htop Hfz) as (-> & C1 & C2 & C3 & C4).
    eexists _, _. split; [reflexivity|]. rewrite Htop. split; [reflexivity|].
    intros success H. injection H as <-. auto 10.
Qed.

Lemma frozen_screen_gives_up_witness :
  exists r s',
    _ensure_pogo_topmost [mkTick false ScreenType.BLACK]
      (mk (mkWalker "idle" "" None) None 4 ScreenType.BLACK 0 false (mkLocation 0 0)
          false false [] [] [])
    = Some (r, s')
    /\ (calm (mk (mkWalker "idle" "" None) None 4 ScreenType.BLACK 0 false (mkLocation 0 0)
                 false false [] [] []) -> r = inr false)
    /\ (forall success, r = inr success ->
          success = false
          /\ exit_reason [mkTick false ScreenType.BLACK]
               (mk (mkWalker "idle" "" None) None 4 ScreenType.BLACK 0 false (mkLocation 0 0)
                   false false [] [] [])
             = Some ExitFrozen
          /\ same_screen_count s' = 4 + 1
          /\ last_screen_type s' = ScreenType.BLACK
          /\ loginerrorcounter s' = 0
          /\ (4 <= 4 -> stop_worker_event s' = true)).
Proof.
  apply (frozen_screen_gives_up (mkTick false ScreenType.BLACK) []
           (mk (mkWalker "idle" "" None) None 4 ScreenType.BLACK 0 false (mkLocation 0 0)
               false false [] [] [])).
  - reflexivity.
  - reflexivity.
  - reflexivity.
  - unfold frozen. simpl. split; [discriminate|]. split; [reflexivity|lia].
Defined.

Lemma login_error_screen_not_topmost screen_type :
  login_error_screen screen_type = true -> is_topmost screen_type = false.
Proof. destruct screen_type; simpl; intros H; try reflexivity; discriminate H. Qed.

(** X12.  Every login-error screen counts, not only the close dialog,
    and the second one escalates.  On a pass that starts with the stop
    event clear and that the frozen-screen check lets through, on a CLOSE,
    GAMEDATA, ERROR, FAILURE or NOGGL screen: the pass returns when no
    command to the device raises; whenever it returns
    with no login error counted before, the counter is 1 and the loop goes
    on; whenever it returns with a login error already counted, whatever
    screens came in between, it has ended the loop through the full
    restart: the counter is back at 0 and the stop event is set. *)
Theorem login_error_second_strike (screen_type : ScreenType.t) (s : t)
    (r : Exception + Ctl) (s' : t) :
  login_error_screen screen_type = true -> ~ frozen screen_type s ->
  stop_worker_event s = false ->
  loop_body screen_type s = (r, s') ->
  (calm s -> exists c, r = inr c)
  /\ (loginerrorcounter s = 0 ->
      forall c, r = inr c ->
        c = Next /\ loginerrorcounter s' = 1 /\ last_screen_type s' = screen_type)
  /\ (1 <= loginerrorcounter s ->
      forall c, r = inr c ->
        c = Break ExitLoginErrors /\ loginerrorcounter s' = 0 /\ stop_worker_event s' = true).
Proof.
  intros Hle Hfz _ E. pose proof (login_error_screen_not_topmost _ Hle) as Htop.
  pose proof (loop_body_meets screen_type s) as Hm. rewrite E in Hm.
  destruct r as [e|c]; unfold within in Hm.
  - split; [intros H; contradiction|]. split; intros _ c H; discriminate H.
  - destruct Hm as [(_ & _ & _ & _ & P5 & P6 & _ & P8 & P9 & _) _].
    destruct (P8 Htop Hfz Hle) as [Q1 Q2].
    split; [eauto|]. split.
    + intros H0 c' H. injection H as <-. destruct Q2 as (-> & C1); [lia|].
      split; [reflexivity|]. split; [lia|auto].
    + intros H1 c' H. injection H as <-. rewrite (Q1 H1) in *.
      split; [reflexivity|]. split; [apply P6; reflexivity|apply P5; auto].
Qed.

Lemma login_error_second_strike_witness :
  exists s',
    loop_body ScreenType.NOGGL
      (mk (mkWalker "idle" "" None) None 0 ScreenType.BLACK 1 false (mkLocation 0 0)
          false false [] [] [])
    = (inr (Break ExitLoginErrors), s')
    /\ loginerrorcounter s' = 0 /\ stop_worker_event s' = true.
Proof.
  exists (mk (mkWalker "idle" "" None) None 0 ScreenType.BLACK 0 true (mkLocation 0 0)
             false false [] []
             [DetectScreentype; StopPogo; CommClearAppCache "com.nianticlabs.pokemongo";
              CommReboot; Sleep 5; SaveLastReboot]).
  assert (loop_body ScreenType.NOGGL
            (mk (mkWalker "idle" "" None) None 0 ScreenType.BLACK 1 false (mkLocation 0 0)
                false false [] [] [])
          = (inr (Break ExitLoginErrors),
             mk (mkWalker "idle" "" None) None 0 ScreenType.BLACK 0 true (mkLocation 0 0)
                false false [] []
                [DetectScreentype; StopPogo; CommClearAppCache "com.nianticlabs.pokemongo";
                 CommReboot; Sleep 5; SaveLastReboot])) as E
    by (vm_compute; reflexivity).
  split; [exact E|].
  refine (proj2 (proj2 (proj2 (login_error_second_strike ScreenType.NOGGL _ _ _
                                 eq_refl _ _ E)) _ _ eq_refl)).
  - intros (_ & H & _). discriminate H.
  - reflexivity.
  - simpl. lia.
Defined.

Lemma ensure_loop_final ticks : forall init s r why s',
  ensure_loop ticks init s = Some (inr (r, why), s') ->
  (why = ExitStopSignal \/ why = ExitGps \/ why = ExitNotResponding \/ why = ExitLoginErrors ->
     stop_worker_event s' = true)
  /\ (why = ExitLoginErrors -> loginerrorcounter s' = 0)
  /\ (why = ExitTopmost -> loginerrorcounter s' = 0 /\ last_screen_type s' = r).
Proof.
  induction ticks as [|tk ticks IH]; intros init s r why s' Hrun; simpl in Hrun.
  - destruct (stop_worker_event s) eqn:Es; [|discriminate].
    injection Hrun as <- <- <-. split; [auto|]. split; discriminate.
  - destruct (stop_worker_event (if stop_requested tk then _ else _)) eqn:Es.
    + injection Hrun as <- <- <-. split; [auto|]. split; discriminate.
    + destruct (loop_body (screen tk) _) as [[e|c] s1] eqn:E; [discriminate|].
      pose proof (meets_returned _ _ _ _ _ (loop_body_meets (screen tk)) E)
        as (P1 & P2 & P3 & P4 & P5 & P6 & _).
      destruct c as [why'|]; [|eapply IH; exact Hrun].
      injection Hrun as <- <- <-.
      split; [intros [H|H];
                [subst why'; exfalso; apply P4; reflexivity
                |apply P5; destruct H as [->|[->| ->]]; auto]|].
      split; [intros ->; apply P6; reflexivity|].
      intros ->. destruct (is_topmost (screen tk)) eqn:Htop.
      * destruct P2 as (_ & C1 & C2); auto.
      * exfalso. apply P3; reflexivity.
Qed.

(** X13.  The state [_ensure_pogo_topmost] leaves behind.  When it
    returns [True], the login error counter is 0 and the last screen type
    is the POGO or QUEST it ended on.  When it returns through a GPS
    error, a not-responding screen or the login-error escalation, the
    device has been rebooted and the stop event is set, as it is when the
    loop ends on the stop event; after the escalation the login error
    counter is 0. *)
Theorem ensure_pogo_topmost_final_state (ticks : list Tick) (s s' : t) (success : bool) :
  _ensure_pogo_topmost ticks s = Some (inr success, s') ->
  exists why,
    exit_reason ticks s = Some why
    /\ (why = ExitStopSignal \/ why = ExitGps \/ why = ExitNotResponding
        \/ why = ExitLoginErrors -> stop_worker_event s' = true)
    /\ (why = ExitLoginErrors -> loginerrorcounter s' = 0)
    /\ (success = true ->
          loginerrorcounter s' = 0 /\ is_topmost (last_screen_type s') = true).
Proof.
  unfold _ensure_pogo_topmost, exit_reason.
  destruct (ensure_loop ticks ScreenType.UNDEFINED s) as [[[e|[r why]] s1]|] eqn:E;
    try discriminate.
  intros H. injection H as <- <-.
  destruct (ensure_loop_final _ _ _ _ _ _ E) as (P1 & P2 & P3).
  exists why. split; [reflexivity|]. split; [exact P1|]. split; [exact P2|].
  intros Hs.
  assert (why = ExitTopmost) as Hw.
  { eapply ensure_loop_exit; [|exact E|exact Hs]. reflexivity. }
  destruct (P3 Hw) as [C1 C2]. rewrite C2. auto.
Qed.

Lemma ensure_pogo_topmost_final_state_witness :
  exists why,
    exit_reason [mkTick false ScreenType.BLACK; mkTick false ScreenType.GPS]
                (init (mkWalker "idle" "" None) false false []) = Some why
    /\ (why = ExitStopSignal \/ why = ExitGps \/ why = ExitNotResponding
        \/ why = ExitLoginErrors ->
        stop_worker_event
          (mk (mkWalker "idle" "" None) None 0 ScreenType.BLACK 0 true (mkLocation 0 0)
              false false [] []
              [DetectScreentype; Sleep 20; DetectScreentype; CommReboot; Sleep 5;
               SaveLastReboot]) = true)
    /\ (why = ExitLoginErrors ->
        loginerrorcounter
          (mk (mkWalker "idle" "" None) None 0 ScreenType.BLACK 0 true (mkLocation 0 0)
              false false [] []
              [DetectScreentype; Sleep 20; DetectScreentype; CommReboot; Sleep 5;
               SaveLastReboot]) = 0)
    /\ (false = true ->
        loginerrorcounter
          (mk (mkWalker "idle" "" None) None 0 ScreenType.BLACK 0 true (mkLocation 0 0)
              false false [] []
              [DetectScreentype; Sleep 20; DetectScreentype; CommReboot; Sleep 5;
               SaveLastReboot]) = 0
        /\ is_topmost
             (last_screen_type
                (mk (mkWalker "idle" "" None) None 0 ScreenType.BLACK 0 true (mkLocation 0 0)
                    false false [] []
                    [DetectScreentype; Sleep 20; DetectScreentype; CommReboot; Sleep 5;
                     SaveLastReboot])) = true).
Proof.
  apply (ensure_pogo_topmost_final_state
           [mkTick false ScreenType.BLACK; mkTick false ScreenType.GPS]
           (init (mkWalker "idle" "" None) false false [])).
  reflexivity.
Defined.

(** ** What a restart logs, however it ends *)

Lemma bind_inv {S A B} (m : M S A) (f : A -> M S B) s r s' :
  bind m f s = (r, s') ->
  (exists e, m s = (inl e, s') /\ r = inl e)
  \/ (exists a s1, m s = (inr a, s1) /\ f a s1 = (r, s')).
Proof.
  unfold bind. destruct (m s) as [[e|a] s1]; intros H.
  - left. exists e. injection H as <- <-. auto.
  - right. eauto.
Qed.

Lemma command_logged a s r s' :
  command a s = (r, s') ->
  trace s' = trace s ++ [a] /\ (forall e, r = inl e -> raises a e = true).
Proof.
  unfold command, fault, act, bind, modify. simpl.
  destruct (faults s) as [|[e|] rest].
  - intros H. injection H as <- <-. split; [reflexivity|discriminate].
  - destruct (raises a e) eqn:Er; intros H; injection H as <- <-;
      (split; [reflexivity|]); intros e' He; [congruence|discriminate].
  - intros H. injection H as <- <-. split; [reflexivity|discriminate].
Qed.

Lemma request_logged a s r s' :
  request a s = (r, s') ->
  trace s' = trace s ++ [a] /\ (forall e, r = inl e -> raises a e = true).
Proof.
  unfold request. intros H. apply bind_inv in H as [(e & E & ->)|([] & s1 & E & E2)].
  - apply command_logged in E as [T R]. split; [exact T|]. intros e' He.
    injection He as <-. apply R. reflexivity.
  - apply command_logged in E as [T _]. unfold reply in E2. injection E2 as <- <-.
    split; [exact T|discriminate].
Qed.

Lemma bind_act {B} (a : Action) (k : unit -> M t B) s :
  bind (act a) k s = k tt (set_trace (trace s ++ [a]) s).
Proof. reflexivity. Qed.

Lemma raises_not_stop a e :
  raises a e = true -> a <> StartPogo -> e <> InternalStopWorkerException.
Proof. intros H Ha ->. destruct a; try discriminate H. contradiction. Qed.

Lemma reboot_logged mm s r s' :
  _reboot mm s = (r, s') ->
  (exists l, trace s' = trace s ++ l /\ forallb after_restart_saved l = true)
  /\ r <> inl InternalStopWorkerException.
Proof.
  unfold _reboot. intros H.
  apply bind_inv in H as [(e & E & ->)|(start_result & s1 & E & E2)].
  - unfold catch in E. destruct (request CommReboot s) as [[e'|b] s0] eqn:Er; [|discriminate].
    apply request_logged in Er as [T R].
    assert (e = e' /\ s' = s0) as [-> ->].
    { destruct e'; simpl in E; try (injection E as <- <-; auto). discriminate E. }
    split; [exists [CommReboot]; auto|].
    intros He. injection He as ->. specialize (R _ eq_refl). discriminate R.
  - assert (trace s1 = trace s ++ [CommReboot]) as T1.
    { unfold catch in E. destruct (request CommReboot s) as [[e'|b] s0] eqn:Er.
      - apply request_logged in Er as [T _].
        destruct e'; simpl in E; try discriminate E. injection E as <- <-. exact T.
      - apply request_logged in Er as [T _]. injection E as <- <-. exact T. }
    unfold stop_worker, act, bind, modify, ret in E2.
    destruct mm; injection E2 as <- <-; (split; [|discriminate]); simpl; rewrite T1;
      eexists; rewrite <- !app_assoc; (split; [reflexivity|reflexivity]).
Qed.

(** [_restart_pogo] either raises an exception of the transport while it
    stops the app, or saves the time of the restart once and then neither
    saves it again nor does anything but clear the cache, sleep, report,
    start the app or reboot; only the start of the app can make it raise
    InternalStopWorkerException. *)
Lemma restart_pogo_logged cc mm s r s' :
  _restart_pogo cc mm s = (r, s') ->
  (exists e, r = inl e /\ e <> InternalStopWorkerException /\ trace s' = trace s ++ [StopPogo])
  \/ (exists l, trace s' = trace s ++ [StopPogo; SaveLastRestart] ++ l
                /\ forallb after_restart_saved l = true).
Proof.
  unfold _restart_pogo, _stop_pogo, _start_pogo. intros H.
  apply bind_inv in H as [(e & E & ->)|(ok & s1 & E & E2)].
  - apply request_logged in E as [T R]. left. exists e. split; [reflexivity|].
    split; [|exact T]. apply (raises_not_stop StopPogo); [auto|discriminate].
  - apply request_logged in E as [T1 _]. right.
    rewrite bind_act in E2.
    set (s2 := set_trace (trace s1 ++ [SaveLastRestart]) s1) in E2.
    assert (trace s2 = trace s ++ [StopPogo; SaveLastRestart]) as T2
      by (subst s2; simpl; rewrite T1, <- app_assoc; reflexivity).
    clearbody s2. destruct ok.
    + assert (forall s3 r3 s3',
                (act (Sleep 1) ;;
                 (if mm then act CollectLocationStats else ret tt) ;;
                 request StartPogo) s3 = (r3, s3') ->
                exists l, trace s3' = trace s3 ++ l /\ forallb after_restart_saved l = true)
        as Hrest.
      { intros s3 r3 s3' H3. rewrite bind_act in H3.
        destruct mm.
        - rewrite bind_act in H3. apply request_logged in H3 as [T _].
          eexists. rewrite T. simpl. rewrite <- !app_assoc. split; reflexivity.
        - rewrite (run_bind (ret tt) _ _ tt _ eq_refl) in H3.
          apply request_logged in H3 as [T _].
          eexists. rewrite T. simpl. rewrite <- !app_assoc. split; reflexivity. }
      destruct cc.
      * apply bind_inv in E2 as [(e & E & ->)|([] & s3 & E & E3)].
        -- apply command_logged in E as [T _].
           exists [CommClearAppCache "com.nianticlabs.pokemongo"].
           rewrite T, T2, <- app_assoc. auto.
        -- apply command_logged in E as [T _].
           apply Hrest in E3 as (l & T3 & Hl).
           exists (CommClearAppCache "com.nianticlabs.pokemongo" :: l).
           rewrite T3, T, T2, <- !app_assoc. auto.
      * rewrite (run_bind (ret tt) _ _ tt _ eq_refl) in E2.
        apply Hrest in E2 as (l & T3 & Hl). exists l. rewrite T3, T2, <- !app_assoc. auto.
    + apply reboot_logged in E2 as [(l & T3 & Hl) _]. exists l.
      rewrite T3, T2, <- !app_assoc. auto.
Qed.

End WorkerBaseProperties.

(* ===================================================================== *)
(** * More of the walker policy                                           *)
(* ===================================================================== *)

Section CheckWalkerProperties.
Import WorkerBase Eff.

Variable py_int : string -> option Z.

(** X14.  The event guard of [check_walker] comes before every mode: a
    walker bound to an event other than the current one is told to stop,
    whatever its mode and value, without anything being done to the device
    or to the worker (the countdown does not start). *)
Theorem check_walker_event_guard (fuel : nat) (now : Q)
    (current_event_id processed_rounds : Z) (walkereventid : Z) (s : t) :
  eventid (walker s) = Some walkereventid -> walkereventid <> current_event_id ->
  check_walker py_int fuel now current_event_id processed_rounds s = Some (inr false, s).
Proof.
  intros He Hne. unfold check_walker, bindL, done, gets. cbv beta iota. rewrite He.
  replace (walkereventid =? current_event_id) with false; [reflexivity|].
  symmetry. apply Z.eqb_neq. exact Hne.
Qed.

Lemma event_guard_passes w current_event_id :
  event_matches w current_event_id ->
  match eventid w with
  | Some walkereventid => negb (walkereventid =? current_event_id)
  | None => false
  end = false.
Proof. intros [-> | ->]; [reflexivity|]. rewrite Z.eqb_refl. reflexivity. Qed.

(** X15.  A walker without a value.  With the event guard passed and an
    empty [algo_value], [check_walker] answers "continue" in mode coords
    and "stop" in every other mode, an unknown one included; a timer whose
    value has no colon is stopped as well.  In all these cases nothing is
    asked of the clock or the device and the worker is left as it was. *)
Theorem check_walker_without_value (fuel : nat) (now : Q)
    (current_event_id processed_rounds : Z) (s : t) :
  event_matches (walker s) current_event_id ->
  (algo_value (walker s) = "" ->
     check_walker py_int fuel now current_event_id processed_rounds s
     = Some (inr (String.eqb (algo_type (walker s)) "coords"), s))
  /\ (algo_type (walker s) = "timer" ->
      Communicator.contains ":" (algo_value (walker s)) = false ->
      check_walker py_int fuel now current_event_id processed_rounds s = Some (inr false, s)).
Proof.
  intros Hev. unfold check_walker, bindL, done, gets. cbv beta iota. rewrite (event_guard_passes _ _ Hev).
  split.
  - intros ->.
    destruct (String.eqb (algo_type (walker s)) "countdown") eqn:E1;
      [apply String.eqb_eq in E1; rewrite E1; reflexivity|].
    destruct (String.eqb (algo_type (walker s)) "timer") eqn:E2;
      [apply String.eqb_eq in E2; rewrite E2; reflexivity|].
    destruct (String.eqb (algo_type (walker s)) "round") eqn:E3;
      [apply String.eqb_eq in E3; rewrite E3; reflexivity|].
    destruct (String.eqb (algo_type (walker s)) "period") eqn:E4;
      [apply String.eqb_eq in E4; rewrite E4; reflexivity|].
    destruct (String.eqb (algo_type (walker s)) "coords") eqn:E5; [reflexivity|].
    destruct (String.eqb (algo_type (walker s)) "idle") eqn:E6; reflexivity.
  - intros -> Hc. simpl. rewrite Hc. rewrite orb_true_r. reflexivity.
Qed.

(** X16.  Mode round.  With the event guard passed and a number of
    rounds configured, the walker continues exactly while the route
    manager reports fewer rounds than configured; the worker is left as it
    was.  A value that is not a number raises ValueError. *)
Theorem check_walker_round (fuel : nat) (now : Q) (current_event_id processed_rounds : Z)
    (s : t) :
  event_matches (walker s) current_event_id ->
  algo_type (walker s) = "round" -> algo_value (walker s) <> "" ->
  check_walker py_int fuel now current_event_id processed_rounds s
  = match py_int (algo_value (walker s)) with
    | Some rounds => Some (inr (processed_rounds <? rounds), s)
    | None => Some (inl ValueError, s)
    end.
Proof.
  intros Hev Hm Hv. unfold check_walker, bindL, done, gets. cbv beta iota.
  rewrite (event_guard_passes _ _ Hev), Hm. simpl.
  destruct (String.eqb (algo_value (walker s)) "") eqn:E;
    [apply String.eqb_eq in E; contradiction|].
  destruct (py_int (algo_value (walker s))) as [r|]; [|reflexivity].
  rewrite Z.geb_leb, Z.ltb_antisym. destruct (r <=? processed_rounds); reflexivity.
Qed.

Lemma pogo_switches_app l1 l2 :
  pogo_switches (l1 ++ l2) = pogo_switches l1 ++ pogo_switches l2.
Proof. unfold pogo_switches. apply List.filter_app. Qed.

Lemma pogo_switches_naps v n :
  pogo_switches (concat (repeat [CheckWalkerValueType v; Sleep 1] n)) = [].
Proof. induction n as [|n IH]; [reflexivity|]. simpl. exact IH. Qed.

Lemma ask_eq a s :
  ask a s = (inr (hd false (answers s)),
             set_answers (tl (answers s)) (set_trace (trace s ++ [a]) s)).
Proof. reflexivity. Qed.

Lemma request_calm a s :
  calm s ->
  request a s = (inr (hd false (answers s)),
                 set_answers (tl (answers s)) (set_trace (trace s ++ [a]) s)).
Proof.
  unfold calm. intros H. destruct s. simpl in H. subst. reflexivity.
Qed.

(** The sleep of mode idle: [n] looks at the clock that find the period
    running, each followed by a sleep of one second, and the look that
    finds it over. *)
Lemma idle_sleep_runs v : forall n fuel s later,
  stop_worker_event s = false ->
  answers s = repeat true n ++ false :: later ->
  ((fuel <= n)%nat -> idle_sleep fuel v s = None)
  /\ ((n < fuel)%nat ->
      idle_sleep fuel v s
      = Some (inr tt,
              set_answers later
                (set_trace (trace s ++ concat (repeat [CheckWalkerValueType v; Sleep 1] n)
                                    ++ [CheckWalkerValueType v]) s))).
Proof.
  induction n as [|n IH]; intros fuel s later Hstop Hans.
  - split; intros Hf.
    + replace fuel with 0%nat by lia. reflexivity.
    + destruct fuel as [|fuel]; [lia|].
      cbn [idle_sleep]. unfold bindL, done, gets, check_walker_value_type.
      rewrite Hstop, ask_eq, Hans. reflexivity.
  - split; intros Hf.
    + destruct fuel as [|fuel]; [reflexivity|].
      cbn [idle_sleep]. unfold bindL, done, gets, check_walker_value_type.
      rewrite Hstop, ask_eq, Hans. cbn [repeat app hd tl].
      unfold act, modify. cbv beta iota.
      match goal with
      | |- idle_sleep fuel v ?s2 = None =>
          apply (proj1 (IH fuel s2 later Hstop eq_refl)); lia
      end.
    + destruct fuel as [|fuel]; [lia|].
      cbn [idle_sleep]. unfold bindL, done, gets, check_walker_value_type.
      rewrite Hstop, ask_eq, Hans. cbn [repeat app hd tl].
      unfold act, modify. cbv beta iota.
      match goal with
      | |- idle_sleep fuel v ?s2 = _ =>
          rewrite (proj2 (IH fuel s2 later Hstop eq_refl)) by lia
      end.
      destruct s. simpl. rewrite <- !app_assoc. reflexivity.
Qed.

(** X17.  Mode idle, with the event guard passed, a value configured,
    the stop event clear and no command to the device raising.  The first
    look at the clock decides whether the app is stopped; then the worker
    looks at the clock once a second until the idle period is over; then
    the app is started again if it was stopped, and the answer is "stop".
    With [n] looks that find the period running, the method is still
    asleep after [n] evaluations of the loop condition or fewer; followed
    further, it returns "stop", and what it did to the app is balanced:
    one stop and, after the sleep, one start, or neither. *)
Theorem check_walker_idle (fuel : nat) (now : Q) (current_event_id processed_rounds : Z)
    (s : t) (killpogo stopped : bool) (n : nat) (later : list bool) :
  event_matches (walker s) current_event_id ->
  algo_type (walker s) = "idle" -> algo_value (walker s) <> "" ->
  calm s -> stop_worker_event s = false ->
  answers s = killpogo :: (if killpogo then [stopped] else [])
                ++ repeat true n ++ false :: later ->
  ((fuel <= n)%nat ->
     check_walker py_int fuel now current_event_id processed_rounds s = None)
  /\ ((n < fuel)%nat ->
      exists s',
        check_walker py_int fuel now current_event_id processed_rounds s = Some (inr false, s')
        /\ trace s'
           = trace s ++ [CheckWalkerValueType (algo_value (walker s))]
               ++ (if killpogo then [StopPogo] else [])
               ++ concat (repeat [CheckWalkerValueType (algo_value (walker s)); Sleep 1] n)
               ++ [CheckWalkerValueType (algo_value (walker s))]
               ++ (if killpogo then [StartPogo] else [])
        /\ pogo_switches (trace s')
           = pogo_switches (trace s) ++ (if killpogo then [StopPogo; StartPogo] else [])
        /\ answers s' = (if killpogo then tl later else later)).
Proof.
  intros Hev Hm Hv Hcalm Hstop Hans.
  unfold check_walker, bindL, done, gets. cbv beta iota.
  rewrite (event_guard_passes _ _ Hev), Hm. simpl.
  destruct (String.eqb (algo_value (walker s)) "") eqn:E;
    [apply String.eqb_eq in E; contradiction|].
  set (v := algo_value (walker s)).
  rewrite Hans. cbn [hd tl].
  destruct killpogo; cbn [app].
  - unfold _stop_pogo, _start_pogo.
    match goal with
    | |- context [bind (request StopPogo) ?k ?s1] =>
        rewrite (run_bind _ k s1 _ _ (request_calm StopPogo s1 Hcalm))
    end.
    cbn [hd tl ret answers set_answers set_trace].
    match goal with
    | |- context [idle_sleep fuel v ?s2] =>
        destruct (idle_sleep_runs v n fuel s2 later Hstop eq_refl) as [Hnone Hsome]
    end.
    split; intros Hf.
    + rewrite (Hnone Hf). reflexivity.
    + rewrite (Hsome Hf).
      match goal with
      | |- context [bind (bind (request StartPogo) ?k) ?k' ?s3] =>
          rewrite (run_bind _ k' s3 tt _
                     (run_bind _ k s3 _ _ (request_calm StartPogo s3 Hcalm)))
      end.
      eexists. split; [reflexivity|]. simpl.
      split; [rewrite <- !app_assoc; reflexivity|]. split; [|reflexivity].
      rewrite !pogo_switches_app, pogo_switches_naps. simpl.
      rewrite <- !app_assoc. reflexivity.
  - cbv beta iota delta [ret].
    match goal with
    | |- context [idle_sleep fuel v ?s2] =>
        destruct (idle_sleep_runs v n fuel s2 later Hstop eq_refl) as [Hnone Hsome]
    end.
    split; intros Hf.
    + rewrite (Hnone Hf). reflexivity.
    + rewrite (Hsome Hf).
      eexists. split; [reflexivity|]. simpl.
      split; [rewrite <- ?app_assoc, ?app_nil_r; reflexivity|]. split; [|reflexivity].
      rewrite !pogo_switches_app, pogo_switches_naps. simpl.
      rewrite ?app_nil_r. reflexivity.
Qed.

End CheckWalkerProperties.

Section CheckWalkerExamples.
Import WorkerBase Eff.

Lemma check_walker_event_guard_witness :
  check_walker decimal 1 0%Q 2 0 (init (mkWalker "round" "3" (Some 1)) false false [])
  = Some (inr false, init (mkWalker "round" "3" (Some 1)) false false []).
Proof.
  apply (check_walker_event_guard decimal 1 0%Q 2 0 1
           (init (mkWalker "round" "3" (Some 1)) false false [])).
  - reflexivity.
  - discriminate.
Defined.

Lemma check_walker_without_value_witness :
  check_walker decimal 1 0%Q 2 0 (init (mkWalker "coords" "" None) false false [])
  = Some (inr (String.eqb "coords" "coords"), init (mkWalker "coords" "" None) false false []).
Proof.
  apply (proj1 (check_walker_without_value decimal 1 0%Q 2 0
                  (init (mkWalker "coords" "" None) false false [])
                  (or_introl eq_refl))).
  reflexivity.
Defined.

Lemma check_walker_round_witness :
  check_walker decimal 1 0%Q 2 3 (init (mkWalker "round" "3" None) false false [])
  = match decimal "3" with
    | Some rounds => Some (inr (3 <? rounds), init (mkWalker "round" "3" None) false false [])
    | None => Some (inl ValueError, init (mkWalker "round" "3" None) false false [])
    end.
Proof.
  apply (check_walker_round decimal 1 0%Q 2 3 (init (mkWalker "round" "3" None) false false [])).
  - left. reflexivity.
  - reflexivity.
  - discriminate.
Defined.

(** An idle period found running at the first look and at two more:
    followed for two evaluations of the loop condition the method is still
    asleep; followed for three it has stopped the app, slept twice and
    started the app again. *)
Lemma check_walker_idle_witness :
  let s := init (mkWalker "idle" "22:00-06:00" None) false false
                [true; true; true; true; false; true] in
  check_walker decimal 2 0%Q 2 0 s = None
  /\ exists s',
       check_walker decimal 3 0%Q 2 0 s = Some (inr false, s')
       /\ trace s'
          = [] ++ [CheckWalkerValueType "22:00-06:00"] ++ [StopPogo]
              ++ concat (repeat [CheckWalkerValueType "22:00-06:00"; Sleep 1] 2)
              ++ [CheckWalkerValueType "22:00-06:00"] ++ [StartPogo]
       /\ pogo_switches (trace s') = [] ++ [StopPogo; StartPogo]
       /\ answers s' = tl [true].
Proof.
  cbv zeta. split.
  - apply (proj1 (check_walker_idle decimal 2 0%Q 2 0
                    (init (mkWalker "idle" "22:00-06:00" None) false false
                          [true; true; true; true; false; true])
                    true true 2 [true]
                    (or_introl eq_refl) eq_refl ltac:(discriminate) eq_refl eq_refl eq_refl)).
    lia.
  - apply (proj2 (check_walker_idle decimal 3 0%Q 2 0
                    (init (mkWalker "idle" "22:00-06:00" None) false false
                          [true; true; true; true; false; true])
                    true true 2 [true]
                    (or_introl eq_refl) eq_refl ltac:(discriminate) eq_refl eq_refl eq_refl)).
    lia.
Defined.

End CheckWalkerExamples.

(* ===================================================================== *)
(** * Properties of the point-of-interest interaction                     *)
(* ===================================================================== *)

Section WorkerQuestsProperties.
Import WorkerQuests Eff.

Variable get_s2cells_from_circle : Q -> Q -> Z -> Z -> list Z.
Variable get_distance_of_two_points_in_meters : Q -> Q -> Q -> Q -> Q.

Section Keeps.
Context {X : Type} (obs : t -> X).

Lemma keeps_ret {A} (a : A) : keeps obs (ret a).
Proof. intros s r s' H. injection H as <- <-. reflexivity. Qed.

Lemma keeps_raise {A} e : keeps obs (raise (A:=A) e).
Proof. intros s r s' H. injection H as <- <-. reflexivity. Qed.

Lemma keeps_gets {A} (f : t -> A) : keeps obs (gets f).
Proof. intros s r s' H. injection H as <- <-. reflexivity. Qed.

Lemma keeps_bind {A B} (m : M t A) (f : A -> M t B) :
  keeps obs m -> (forall a, keeps obs (f a)) -> keeps obs (bind m f).
Proof.
  intros Hm Hf s r s' H. apply bind_inv in H as [(e & E & ->)|(a & s1 & E & E2)].
  - apply (Hm _ _ _ E).
  - rewrite (Hf a _ _ _ E2). apply (Hm _ _ _ E).
Qed.

Lemma keeps_act a : (forall s, obs (acted a s) = obs s) -> keeps obs (act a).
Proof. intros Ha s r s' H. injection H as <- <-. apply Ha. Qed.

(** The actions of the reconciliation leave [obs] alone when updating a
    stored position does. *)
Hypothesis obs_update :
  forall fort_id location s, obs (acted (WorkerBase.PokestopUpdateLocation fort_id location) s)
                             = obs s.

Lemma keeps_reconcile_forts forts : forall stops, keeps obs (reconcile_forts forts stops).
Proof.
  induction forts as [|fort rest IH]; intros stops; simpl; [apply keeps_ret|].
  destruct (latitude fort), (longitude fort), (fort_id fort); try apply IH.
  destruct (_ || _); [apply IH|].
  destruct (stops !! _); [|apply IH].
  destruct (_ && _); [apply IH|].
  apply keeps_bind; [apply keeps_act; apply obs_update|]. intros _. apply IH.
Qed.

Lemma keeps_reconcile_cells cells : forall stops, keeps obs (reconcile_cells cells stops).
Proof.
  induction cells as [|cell rest IH]; intros stops; simpl; [apply keeps_ret|].
  destruct (forts cell) as [[|f fs]|]; try apply IH.
  apply keeps_bind; [apply keeps_reconcile_forts|]. intros stops'. apply IH.
Qed.

Lemma keeps_check_nearby cells :
  keeps obs (_check_if_stop_was_nearby_and_update_location cells).
Proof.
  unfold _check_if_stop_was_nearby_and_update_location.
  apply keeps_bind; [apply keeps_gets|]. intros stops.
  apply keeps_bind; [apply keeps_reconcile_cells|]. intros stops'.
  unfold deletion_loop. destruct (map_to_list stops'); [apply keeps_ret|apply keeps_raise].
Qed.

End Keeps.

Lemma restarts_acted a s :
  restarts (acted a s) = (restarts s + (if is_restart a then 1 else 0))%nat.
Proof.
  unfold restarts, trace, acted. simpl. rewrite List.filter_app, length_app. simpl.
  fold (is_restart a). destruct (is_restart a); reflexivity.
Qed.

Lemma counters_acted a s : is_restart a = false -> counters (acted a s) = counters s.
Proof. intros Ha. unfold counters. rewrite restarts_acted, Ha. f_equal. lia. Qed.

Lemma deletions_acted a s :
  deletions (acted a s) = (deletions s + (if is_deletion a then 1 else 0))%nat.
Proof.
  unfold deletions, trace, acted. simpl. rewrite List.filter_app, length_app. simpl.
  fold (is_deletion a). destruct (is_deletion a); reflexivity.
Qed.

Lemma keeps_wait ts p to : keeps counters (_wait_for_data ts p to).
Proof.
  unfold _wait_for_data. apply keeps_bind; [apply keeps_act|].
  - intros s. apply counters_acted. reflexivity.
  - intros _ s r s' H. injection H as <- <-. reflexivity.
Qed.

(** No path through the reconciliation deletes a stored stop. *)
Lemma check_nearby_never_deletes cells :
  keeps deletions (_check_if_stop_was_nearby_and_update_location cells).
Proof.
  apply keeps_check_nearby. intros fort_id location s.
  rewrite deletions_acted. simpl. lia.
Qed.

Lemma check_nearby_keeps_counters cells :
  keeps counters (_check_if_stop_was_nearby_and_update_location cells).
Proof.
  apply keeps_check_nearby. intros fort_id location s.
  apply counters_acted. reflexivity.
Qed.

Lemma filter_after_restart_saved (keep : WorkerBase.Action -> bool) l :
  (forall a, keep a = true -> WorkerBase.after_restart_saved a = false) ->
  forallb WorkerBase.after_restart_saved l = true -> List.filter keep l = [].
Proof.
  intros Hk. induction l as [|a l IH]; simpl; [reflexivity|].
  intros H. apply andb_true_iff in H as [Ha Hl].
  destruct (keep a) eqn:E; [|auto]. rewrite (Hk a E) in Ha. discriminate Ha.
Qed.

(** However the inherited [_restart_pogo] ends, it leaves the failure
    counter alone and taps nothing; and it has saved the time of the
    restart exactly once unless an exception of the transport ended it. *)
Lemma restart_pogo_counts s r s' :
  inherited (WorkerBase._restart_pogo true true) s = (r, s') ->
  spinnable_data_failcount s' = spinnable_data_failcount s
  /\ taps s' = taps s
  /\ ((exists e, r = inl e /\ e <> InternalStopWorkerException)
      \/ restarts s' = S (restarts s)).
Proof.
  unfold inherited, lift.
  destruct (WorkerBase._restart_pogo true true (base s)) as [r0 b'] eqn:E.
  intros H. injection H as <- <-.
  split; [reflexivity|].
  apply restart_pogo_logged in E as [(e & -> & Hne & T)|(l & T & Hl)].
  - split; [|eauto]. unfold taps, trace. simpl. rewrite T, List.filter_app, length_app.
    simpl. lia.
  - split; [|right]; unfold taps, restarts, trace; simpl; rewrite T, !List.filter_app;
      rewrite (filter_after_restart_saved _ l) by
        (first [exact Hl | intros a Ha; destruct a; try discriminate Ha; reflexivity]);
      rewrite !length_app; simpl; lia.
Qed.

Lemma spinnable_data_failure_spec s r s' :
  _spinnable_data_failure s = (r, s') ->
  (spinnable_data_failcount s <= 9
   /\ r = inr tt
   /\ spinnable_data_failcount s' = spinnable_data_failcount s + 1
   /\ restarts s' = restarts s)
  \/ (spinnable_data_failcount s > 9
      /\ spinnable_data_failcount s' = 0
      /\ ((exists e, r = inl e /\ e <> InternalStopWorkerException)
          \/ ((r = inr tt \/ r = inl InternalStopWorkerException)
              /\ restarts s' = S (restarts s)))).
Proof.
  unfold _spinnable_data_failure. unfold bind at 1. unfold gets at 1.
  destruct (spinnable_data_failcount s >? 9) eqn:E.
  - intros H. right. split; [lia|].
    unfold bind at 1, modify at 1 in H.
    apply bind_inv in H as [(e & E1 & ->)|(ok & s1 & E1 & E2)];
      apply restart_pogo_counts in E1 as (F & _ & R); simpl in F, R.
    + split; [exact F|]. destruct R as [(e' & He & Hne)|R].
      * injection He as <-. eauto.
      * destruct e; try (left; eexists; split; [reflexivity|discriminate]). auto.
    + split; [destruct ok; simpl in E2; injection E2 as <- <-; exact F|].
      destruct R as [(e' & He & _)|R]; [discriminate He|].
      right. destruct ok; simpl in E2; injection E2 as <- <-; auto.
  - intros H. left. injection H as <- <-. split; [lia|]. auto.
Qed.

Lemma classify_fort_spec fort la lo s :
  exists r s',
    classify_fort fort la lo s = (inr r, s')
    /\ restarts s' = restarts s
    /\ counter_after r (spinnable_data_failcount s) (spinnable_data_failcount s')
    /\ (default 0 (cooldown_complete_ms fort) <> 0 ->
        r <> PositionStopType.SPINNABLE_STOP
        /\ (r = PositionStopType.STOP_COOLDOWN <-> reaches_cooldown_check s fort)
        /\ r = (if default 0 (fort_type fort) =? 0 then PositionStopType.GYM
                else if level_mode s && ignore_spinned_stops s && default false (visited fort)
                then PositionStopType.VISITED_STOP_IN_LEVEL_MODE_TO_IGNORE
                else if negb (default true (enabled fort)) then PositionStopType.STOP_DISABLED
                else if default false (closed fort) then PositionStopType.STOP_CLOSED
                else PositionStopType.STOP_COOLDOWN)).
Proof.
  unfold classify_fort, reaches_cooldown_check.
  destruct (default 0 (fort_type fort) =? 0) eqn:Et.
  - eexists _, _. split; [reflexivity|]. split; [|split; [reflexivity|]].
    + unfold act, inherited, lift, WorkerBase.act, bind, modify, ret. simpl.
      unfold restarts, trace. simpl. rewrite List.filter_app, length_app. simpl. lia.
    + intros _. split; [discriminate|]. split; [|reflexivity].
      split; [discriminate|]. intros [H _]. lia.
  - unfold bind at 1, gets at 1. change (id s) with s.
    destruct (level_mode s && ignore_spinned_stops s && default false (visited fort)) eqn:Ev.
    + eexists _, _. split; [reflexivity|]. split; [|split; [reflexivity|]].
      * unfold act, inherited, lift, WorkerBase.act, bind, modify, ret. simpl.
        unfold restarts, trace. simpl. rewrite List.filter_app, length_app. simpl. lia.
      * intros _. split; [discriminate|]. split; [|reflexivity].
        split; [discriminate|]. intros (_ & H & _). discriminate H.
    + destruct (default true (enabled fort)) eqn:Ee; simpl.
      2:{ eexists _, _. split; [reflexivity|]. split; [reflexivity|]. split; [reflexivity|].
          intros _. split; [discriminate|]. split; [|reflexivity].
          split; [discriminate|]. intros (_ & _ & H & _). discriminate H. }
      destruct (default false (closed fort)) eqn:Ec; simpl.
      { eexists _, _. split; [reflexivity|]. split; [reflexivity|]. split; [reflexivity|].
        intros _. split; [discriminate|]. split; [|reflexivity].
        split; [discriminate|]. intros (_ & _ & _ & H). discriminate H. }
      destruct (default 0 (cooldown_complete_ms fort) =? 0) eqn:Eo; simpl.
      * eexists _, _. split; [reflexivity|]. split; [reflexivity|]. split; [reflexivity|].
        intros H. lia.
      * eexists _, _. split; [reflexivity|]. split; [reflexivity|]. split; [reflexivity|].
        intros _. split; [discriminate|]. split; [|reflexivity]. split; [|reflexivity].
        intros _. repeat split; auto. lia.
Qed.

(** The loops over the cells and their forts classify the first fort the
    worker stands on top of, and touch nothing before they find it. *)
Lemma check_forts_spec forts s :
  check_forts forts s =
  match List.find (on_top (current_location s)) forts with
  | Some fort =>
      bind (classify_fort fort (default 0%Q (latitude fort)) (default 0%Q (longitude fort)))
           (fun r => ret (Some r)) s
  | None => (inr None, s)
  end.
Proof.
  induction forts as [|fort rest IH]; simpl; [reflexivity|].
  unfold bind at 1, gets at 1.
  destruct (on_top (current_location s) fort); [reflexivity|apply IH].
Qed.

Lemma check_cells_spec cells s :
  check_cells cells s =
  match first_on_top (current_location s) cells with
  | Some fort =>
      bind (classify_fort fort (default 0%Q (latitude fort)) (default 0%Q (longitude fort)))
           (fun r => ret (Some r)) s
  | None => (inr None, s)
  end.
Proof.
  induction cells as [|cell rest IH]; [reflexivity|].
  cbn [check_cells first_on_top].
  destruct (forts cell) as [[|f fs]|]; [apply IH| |apply IH].
  change (default [] (Some (f :: fs))) with (f :: fs).
  unfold bind at 1. rewrite check_forts_spec.
  destruct (List.find (on_top (current_location s)) (f :: fs)) as [fort|].
  - destruct (classify_fort_spec fort (default 0%Q (latitude fort))
                                 (default 0%Q (longitude fort)) s) as (r & s' & E & _).
    unfold bind. rewrite E. reflexivity.
  - apply IH.
Qed.

Lemma surrounding_truthy self gmo_cells :
  _directly_surrounding_gmo_cells_containing_stops_around_current_position
    get_s2cells_from_circle self gmo_cells <> [] ->
  truthy gmo_cells = true.
Proof. destruct gmo_cells as [[|c cs]|]; simpl; congruence. Qed.

Lemma surrounding_ext self self' gmo_cells :
  current_location self = current_location self' ->
  _directly_surrounding_gmo_cells_containing_stops_around_current_position
    get_s2cells_from_circle self gmo_cells
  = _directly_surrounding_gmo_cells_containing_stops_around_current_position
      get_s2cells_from_circle self' gmo_cells.
Proof.
  intros H.
  unfold _directly_surrounding_gmo_cells_containing_stops_around_current_position.
  rewrite H. reflexivity.
Qed.

Lemma wait_for_data_eq timestamp proto timeout s :
  _wait_for_data timestamp proto timeout s
  = (inr (hd (LatestReceivedType.UNDEFINED, None) (waits s)), waited timestamp proto timeout s).
Proof. reflexivity. Qed.

(** C4, amended.  When the map-objects telemetry arrives and the first
    fort the worker stands on top of (within the epsilon, in the order of
    the cells around it) has a non-zero cooldown, the check returns and
    never classifies the position as spinnable; it classifies it as on
    cooldown exactly when no earlier check of the chain applies to that
    fort: it is not a gym, it is not a visited stop to be ignored in level
    mode, it is enabled and it is not closed.  Otherwise it reports the
    first of the earlier classifications that applies, in this order: gym,
    visited stop to ignore, disabled, closed. *)
Theorem cooldown_fort_classification (timestamp : Q) (s : t) (proto : Proto)
    (later : list (LatestReceivedType.t * option Data)) (fort : Fort) :
  waits s = (LatestReceivedType.GMO, Some (DValues (mkValues (Some proto)))) :: later ->
  first_on_top (current_location s)
    (_directly_surrounding_gmo_cells_containing_stops_around_current_position
       get_s2cells_from_circle s (cells proto)) = Some fort ->
  default 0 (cooldown_complete_ms fort) <> 0 ->
  exists r s',
    _current_position_has_spinnable_stop get_s2cells_from_circle timestamp s = (inr r, s')
    /\ r <> PositionStopType.SPINNABLE_STOP
    /\ (r = PositionStopType.STOP_COOLDOWN <-> reaches_cooldown_check s fort)
    /\ r = (if default 0 (fort_type fort) =? 0 then PositionStopType.GYM
            else if level_mode s && ignore_spinned_stops s && default false (visited fort)
            then PositionStopType.VISITED_STOP_IN_LEVEL_MODE_TO_IGNORE
            else if negb (default true (enabled fort)) then PositionStopType.STOP_DISABLED
            else if default false (closed fort) then PositionStopType.STOP_CLOSED
            else PositionStopType.STOP_COOLDOWN).
Proof.
  intros Hw Hf Hc.
  unfold _current_position_has_spinnable_stop.
  unfold bind at 1. rewrite wait_for_data_eq, Hw.
  set (s1 := waited timestamp ProtoIdentifier.GMO None s).
  cbn [hd payload].
  assert (truthy (cells proto) = true) as ->.
  { apply (surrounding_truthy s). intros E. rewrite E in Hf. discriminate Hf. }
  cbn [negb]. unfold bind at 1, gets at 1. change (id s1) with s1.
  unfold bind at 1. rewrite check_cells_spec.
  rewrite (surrounding_ext s1 s) by reflexivity.
  change (current_location s1) with (current_location s).
  rewrite Hf.
  destruct (classify_fort_spec fort (default 0%Q (latitude fort))
                               (default 0%Q (longitude fort)) s1) as (r & s' & E & _ & _ & H).
  unfold bind. rewrite E. cbn. exists r, s'. split; [reflexivity|].
  destruct (H Hc) as (H1 & H2 & H3). split; [exact H1|]. split; [exact H2|exact H3].
Qed.

Lemma yields_act_quests a : yields (act a) (fun _ => True).
Proof. intros s. eexists _, _. split; [reflexivity|exact I]. Qed.

Lemma reconcile_forts_returns forts : forall stops,
  yields (reconcile_forts forts stops) (fun _ => True).
Proof.
  induction forts as [|fort rest IH]; intros stops; simpl; [apply yields_ret; exact I|].
  destruct (latitude fort), (longitude fort), (fort_id fort); try apply IH.
  destruct (_ || _); [apply IH|].
  destruct (stops !! _); [|apply IH].
  destruct (_ && _); [apply IH|].
  apply yields_seq; [apply yields_act_quests|apply IH].
Qed.

Lemma reconcile_cells_returns cells : forall stops,
  yields (reconcile_cells cells stops) (fun _ => True).
Proof.
  induction cells as [|cell rest IH]; intros stops; simpl; [apply yields_ret; exact I|].
  destruct (forts cell) as [[|f fs]|]; try apply IH.
  eapply yields_bind; [apply reconcile_forts_returns|]. intros stops' _. apply IH.
Qed.

(** The reconciliation raises nothing but the TypeError of its second
    loop. *)
Lemma check_nearby_raises cells s e s' :
  _check_if_stop_was_nearby_and_update_location cells s = (inl e, s') -> e = TypeError.
Proof.
  unfold _check_if_stop_was_nearby_and_update_location.
  unfold bind at 1, gets at 1. intros H.
  destruct (reconcile_cells_returns cells (nearby s) s) as (stops & s1 & E & _).
  unfold bind in H. rewrite E in H.
  unfold deletion_loop in H. destruct (map_to_list stops); [discriminate H|].
  injection H as <- <-. reflexivity.
Qed.

Lemma failure_counted stop_type s r s' :
  needs_recheck stop_type = true ->
  bind _spinnable_data_failure (fun _ => ret stop_type) s = (r, s') ->
  counted (spinnable_data_failcount s) (restarts s) r s'.
Proof.
  intros Hn H. apply bind_inv in H as [(e & E & ->)|(a & s1 & E & E2)].
  - apply spinnable_data_failure_spec in E
      as [(_ & Hr & _)|(Hc & Hf & [(e' & He & Hne)|([Hr|Hr] & Hs)])];
      try discriminate Hr.
    + injection He as <-. destruct e; try exact I. contradiction.
    + injection Hr as ->. simpl. auto.
  - injection E2 as <- <-. simpl. rewrite Hn.
    apply spinnable_data_failure_spec in E
      as [(Hc & _ & Hf & Hs)|(Hc & Hf & [(e' & He & _)|(_ & Hs)])]; auto.
    discriminate He.
Qed.

(** C8, amended.  However a spinnability check ends: when it reports
    the telemetry absent, empty or without a fort at the position, the
    failure counter was at most 9 and is one higher with no restart, or it
    was above 9 and is 0 after one restart of the app; when the restart
    fails the check raises, the counter at 0 all the same; a position
    classified as gym, as visited stop to ignore, or as spinnable leaves
    the counter at 0 without a restart; one classified as disabled, closed
    or on cooldown leaves the counter as it was, without a restart. *)
Theorem spinnable_failure_counter (timestamp : Q) (s : t)
    (r : Exception + PositionStopType.t) (s' : t) :
  _current_position_has_spinnable_stop get_s2cells_from_circle timestamp s = (r, s') ->
  counted (spinnable_data_failcount s) (restarts s) r s'.
Proof.
  unfold _current_position_has_spinnable_stop.
  unfold bind at 1. rewrite wait_for_data_eq.
  set (s1 := waited timestamp ProtoIdentifier.GMO None s).
  assert (Hk : counters s1 = counters s).
  { eapply (keeps_wait timestamp ProtoIdentifier.GMO None s). apply wait_for_data_eq. }
  apply pair_equal_spec in Hk as [Hfc Hrs]. rewrite <- Hfc, <- Hrs. clearbody s1. clear Hfc Hrs.
  destruct (hd (LatestReceivedType.UNDEFINED, None) (waits s)) as [type_received data].
  assert (Hfail : forall r s',
             bind _spinnable_data_failure (fun _ => ret PositionStopType.GMO_NOT_AVAILABLE) s1
             = (r, s') ->
             counted (spinnable_data_failcount s1) (restarts s1) r s')
    by (intros r0 s0 H0; eapply failure_counted; [|exact H0]; reflexivity).
  destruct type_received; try apply Hfail.
  destruct data as [[v| |]|]; try apply Hfail;
    try (intros H; injection H as <- <-; exact I).
  destruct (payload v) as [latest_proto|]; [|intros H; injection H as <- <-; exact I].
  destruct (truthy (cells latest_proto)); cbn [negb].
  2:{ intros H. eapply failure_counted; [|exact H]; reflexivity. }
  unfold bind at 1, gets at 1. change (id s1) with s1.
  unfold bind at 1. rewrite check_cells_spec.
  destruct (first_on_top _ _) as [fort|].
  - destruct (classify_fort_spec fort (default 0%Q (latitude fort))
                                 (default 0%Q (longitude fort)) s1)
      as (st & s2 & E & Hr & Hc & _).
    unfold bind. rewrite E. cbn. intros H. injection H as <- <-.
    simpl. destruct st; simpl in *; try contradiction; auto.
  - intros H. apply bind_inv in H as [(e & E & ->)|([] & s2 & E & E2)].
    + apply check_nearby_raises in E as ->. exact I.
    + pose proof (check_nearby_keeps_counters _ _ _ _ E) as Hk.
      apply pair_equal_spec in Hk as [Hfc Hrs]. rewrite <- Hfc, <- Hrs.
      eapply failure_counted; [|exact E2]; reflexivity.
Qed.
(** ** Opening the stop *)

Lemma taps_acted a s :
  taps (acted a s)
  = (taps s + (match a with WorkerBase.ClickPokestopAtCurrentLocation _ => 1 | _ => 0 end))%nat.
Proof.
  unfold taps, trace, acted. simpl. rewrite List.filter_app, length_app. simpl.
  destruct a; reflexivity.
Qed.

Lemma open_attempt_spec s :
  let now := hd 0%Q (clock s) in
  let now' := hd 0%Q (tl (clock s)) in
  let received := hd (LatestReceivedType.UNDEFINED, None) (waits s) in
  exists s',
    open_attempt s = (inr (fst received), s')
    /\ stop_process_time s' = Qfloor now
    /\ trace s'
       = trace s
         ++ [WorkerBase.ClickPokestopAtCurrentLocation (delay_add s);
             WorkerBase.SetLastActionTime now';
             WorkerBase.WaitForData (inject_Z (Qfloor now)) ProtoIdentifier.FORT_DETAILS
                                    (Some 15)]
         ++ popup_actions (fst received) (delay_add s)
    /\ taps s' = S (taps s)
    /\ waits s' = tl (waits s).
Proof.
  cbv zeta.
  unfold open_attempt, after_open, _wait_for_data, time_time, act, inherited, lift,
    WorkerBase.act, bind, gets, modify, ret.
  destruct (hd (LatestReceivedType.UNDEFINED, None) (waits s)) as [type_received data] eqn:Eh.
  cbn [fst].
  destruct type_received; cbn; rewrite Eh; cbn;
    eexists; (split; [reflexivity|]); (split; [reflexivity|]);
    unfold taps, trace; cbn;
    (split; [rewrite <- ?app_assoc; reflexivity|]);
    (split; [|reflexivity]);
    rewrite !List.filter_app, !length_app; cbn; lia.
Qed.





End WorkerQuestsProperties.

(** ** The properties on concrete workers *)

Section WorkerQuestsExamples.
Import WorkerQuests Eff.

(** C4 as stated fails: a disabled stop with a cooldown of 5000, right
    under the worker, is classified as disabled. *)
Lemma cooldown_fort_classified_disabled :
  let fort := example_fort 1 false false 5000 in
  let s := example_worker 0 [(LatestReceivedType.GMO, Some (example_gmo fort))] ∅ in
  cooldown_complete_ms fort = Some 5000
  /\ fst (_current_position_has_spinnable_stop example_s2cells 0 s)
     = inr PositionStopType.STOP_DISABLED.
Proof. cbv zeta. split; reflexivity. Qed.

(** C4 on an enabled, open stop with a cooldown of 5000. *)
Lemma cooldown_fort_classification_witness :
  let fort := example_fort 1 true false 5000 in
  let s := example_worker 0 [(LatestReceivedType.GMO, Some (example_gmo fort))] ∅ in
  exists s', _current_position_has_spinnable_stop example_s2cells 0 s
             = (inr PositionStopType.STOP_COOLDOWN, s').
Proof.
  cbv zeta.
  destruct (cooldown_fort_classification example_s2cells 0
              (example_worker 0 [(LatestReceivedType.GMO,
                                  Some (example_gmo (example_fort 1 true false 5000)))] ∅)
              _ [] (example_fort 1 true false 5000) eq_refl eq_refl)
    as (r & s' & E & _ & _ & Hr).
  - discriminate.
  - exists s'. rewrite E, Hr. reflexivity.
Defined.

(** C8 as stated fails: with 5 failures counted, the classification of
    a disabled stop leaves the counter at 5. *)
Lemma disabled_stop_keeps_failure_counter :
  let s := example_worker 5 [(LatestReceivedType.GMO,
                              Some (example_gmo (example_fort 1 false false 0)))] ∅ in
  let run := _current_position_has_spinnable_stop example_s2cells 0 s in
  fst run = inr PositionStopType.STOP_DISABLED
  /\ spinnable_data_failcount (snd run) = 5
  /\ spinnable_data_failcount (snd run) <> 0.
Proof. cbv zeta. split; [reflexivity|]. split; [reflexivity|]. discriminate. Qed.

(** C8 on the eleventh failure in a row, the restart failing. *)
Lemma spinnable_failure_counter_witness :
  let s := example_worker 10 [] ∅ in
  let run := _current_position_has_spinnable_stop example_s2cells 0 s in
  fst run = inl InternalStopWorkerException
  /\ spinnable_data_failcount (snd run) = 0 /\ restarts (snd run) = 1%nat.
Proof.
  cbv zeta. split; [reflexivity|].
  pose proof (spinnable_failure_counter example_s2cells 0 (example_worker 10 [] ∅)
                (inl InternalStopWorkerException)
                (snd (_current_position_has_spinnable_stop example_s2cells 0
                        (example_worker 10 [] ∅))) eq_refl)
    as H.
  destruct H as (_ & H1 & H2). split; [exact H1|exact H2].
Defined.



(** C9, at its failing input.  One stored stop next to the worker, last
    updated 10 days before, and telemetry that lists another stop only:
    the reconciliation raises TypeError at the header of its second loop,
    deletes nothing and logs no action; the body of that loop, had it run
    on the stop, would have deleted it. *)
Theorem stale_stop_is_not_deleted :
  let s := example_worker 0 [] {["stop-9" := example_stale_stop]} in
  let telemetry := [mkCell 1 (Some [example_fort 1 true false 0])] in
  let run := _check_if_stop_was_nearby_and_update_location telemetry s in
  fst run = inl TypeError
  /\ deletions (snd run) = 0%nat
  /\ trace (snd run) = []
  /\ deletions (snd (consider_deletion (fun _ _ _ _ => 0%Q) 864000%Q example_stale_stop s))
     = 1%nat.
Proof. cbv zeta. vm_compute. repeat split; reflexivity. Qed.

End WorkerQuestsExamples.

(* ===================================================================== *)
(** * More of the telemetry store                                         *)
(* ===================================================================== *)

Section PlayerStatsProperties.
Import PlayerData.

Lemma update_latest_keeps_empty_cells self key value ts ts' loc :
  last_cell_ids self = [] ->
  last_cell_ids (update_latest self key value ts ts' loc) = []
  /\ last_possibly_moved (update_latest self key value ts ts' loc) = last_possibly_moved self.
Proof.
  intros He. unfold update_latest, parse_gmo_for_location.
  destruct (String.eqb key "106"); simpl; [|done].
  destruct (not_cells (cells value)); simpl; [done|].
  rewrite set_bool_false; [done|].
  unfold intersection. rewrite He. simpl. apply set_eq. intros x.
  rewrite elem_of_intersection, elem_of_empty. tauto.
Qed.

(** X1.  A store that starts with [__init__] never records a move: the
    stored cell list starts empty, a payload replaces it only when it
    shares a cell with it, so after any sequence of [update_latest] calls,
    of any kinds and payloads, the cell list is still empty and
    [get_last_possibly_moved] still returns the initial 0. *)
Theorem fresh_store_never_moves (ws : list Write) :
  last_cell_ids (writes init ws) = []
  /\ get_last_possibly_moved (writes init ws) = Some 0.
Proof.
  unfold writes, get_last_possibly_moved.
  assert (forall self, last_cell_ids self = [] ->
            last_cell_ids (foldl write self ws) = []
            /\ last_possibly_moved (foldl write self ws) = last_possibly_moved self) as H.
  { induction ws as [|w ws IH]; intros self He; simpl; [done|].
    destruct (update_latest_keeps_empty_cells self (write_key w) (write_value w)
                (write_timestamp_received w) (write_timestamp_of_data_retrieval w)
                (write_location w) He) as [H1 H2].
    destruct (IH (write self w) H1) as [H3 H4]. split; [exact H3|].
    rewrite H4. exact H2. }
  apply (H init). reflexivity.
Qed.

Lemma set_level_eq l self :
  set_level l self = mkStats l (poke_stop_visits self) (injected self).
Proof.
  unfold set_level. destruct (level self =? l) eqn:E; simpl; [|reflexivity].
  apply Z.eqb_eq in E. subst l. destruct self; reflexivity.
Qed.

(** X2.  When every inventory item carries its player statistics,
    [gen_player_stats] returns without raising, and the first item whose
    level is positive decides: the level and the number of stop visits
    become that item's, and later items are not looked at; with no such
    item (also with an empty list) the object is left as it was. *)
Theorem gen_player_stats_first_positive (items : list (Z * Z)) (self : Stats) :
  gen_player_stats (inventory (stats_item <$> items)) self =
  (None,
   match List.find (fun item => fst item >? 0) items with
   | Some (level_, visits) => mkStats level_ visits (injected self)
   | None => self
   end).
Proof.
  unfold gen_player_stats, inventory. simpl.
  destruct items as [|item items]; [reflexivity|].
  change (Z.of_nat (length (stats_item <$> item :: items)) >? 0)
    with (Z.of_nat (S (length (stats_item <$> items))) >? 0).
  replace (Z.of_nat (S (length (stats_item <$> items))) >? 0) with true
    by (symmetry; apply Z.gtb_lt; lia).
  generalize (item :: items). clear item items.
  intros items. induction items as [|[l v] items IH]; simpl; [reflexivity|].
  destruct (l >? 0); [|exact IH].
  rewrite set_level_eq. reflexivity.
Qed.

(** X3.  However [gen_player_stats] ends, by returning or by raising,
    it leaves the level as it was or sets it to a positive number, and
    never touches the injection status. *)
Theorem gen_player_stats_level_positive (data : Data) (self : Stats) :
  let self' := snd (gen_player_stats data self) in
  (level self' = level self \/ 0 < level self')
  /\ get_injection_status self' = get_injection_status self.
Proof.
  unfold gen_player_stats, get_injection_status.
  destruct (inventory_delta data) as [delta|]; simpl; [|auto].
  destruct (inventory_items delta) as [stats|]; simpl; [|auto].
  destruct (Z.of_nat (length stats) >? 0); simpl; [|auto].
  induction stats as [|item stats IH]; simpl; [auto|].
  destruct (inventory_item_data item) as [d|]; simpl; [|auto].
  destruct (player_stats d) as [p|]; simpl; [|auto].
  destruct (stats_level p) as [l|]; simpl; [|auto].
  destruct (l >? 0) eqn:El; [|exact IH].
  apply Z.gtb_lt in El.
  destruct (stats_poke_stop_visits p) as [v|]; simpl; rewrite !set_level_eq; simpl;
    split; auto.
Qed.

(** X4.  The update is not atomic.  With items before it that carry
    their statistics and a level that is not positive, an item of positive
    level that lacks [poke_stop_visits] makes [gen_player_stats] raise
    KeyError after the level has been set to the item's: the level is
    the new one, the number of stop visits the old one. *)
Theorem gen_player_stats_partial_update
    (before : list (Z * Z)) (level_ : Z) (rest : list InventoryItem) (self : Stats) :
  Forall (fun item => fst item <= 0) before ->
  0 < level_ ->
  gen_player_stats (inventory ((stats_item <$> before) ++ level_only_item level_ :: rest)) self
  = (Some KeyError, mkStats level_ (poke_stop_visits self) (injected self)).
Proof.
  intros Hb Hl. unfold gen_player_stats, inventory. simpl.
  replace (Z.of_nat (length ((stats_item <$> before) ++ level_only_item level_ :: rest)) >? 0)
    with true.
  2:{ symmetry. apply Z.gtb_lt. rewrite length_app. simpl. lia. }
  induction Hb as [|[l v] before Hlv _ IH]; simpl.
  - replace (level_ >? 0) with true by (symmetry; apply Z.gtb_lt; exact Hl).
    rewrite set_level_eq. reflexivity.
  - simpl in Hlv. replace (l >? 0) with false; [exact IH|].
    symmetry. rewrite Z.gtb_ltb. apply Z.ltb_ge. exact Hlv.
Qed.

Lemma gen_player_stats_partial_update_witness :
  gen_player_stats (inventory ((stats_item <$> [(0, 5)]) ++ level_only_item 31 :: [])) init_stats
  = (Some KeyError, mkStats 31 0 false).
Proof.
  apply (gen_player_stats_partial_update [(0, 5)] 31 [] init_stats).
  - repeat constructor. simpl. lia.
  - lia.
Defined.

End PlayerStatsProperties.

(* ===================================================================== *)
(** * More of the command transport                                       *)
(* ===================================================================== *)

Section CommunicatorSessions.
Import Communicator.

Lemma run_balanced {A} (p : Prog A) : forall held n w,
  balanced held p -> sends_at_most n p ->
  mutex_locked w = held -> (n <= length (replies w))%nat ->
  exists r w', run p w = Some (r, w') /\ mutex_locked w' = false
               /\ (length (sent w') <= length (sent w) + n)%nat.
Proof.
  induction p as [a|e|k IH|k IH|msg t b k H|path k H|path d k H];
    intros held n w Hb Hs Hm Hn; simpl in *.
  - exists (inr a), w. split; [reflexivity|]. split; [congruence|lia].
  - exists (inl e), w. split; [reflexivity|]. split; [congruence|lia].
  - destruct Hb as [-> Hb]. rewrite Hm.
    destruct (IH true n (mkWorld true (replies w) (sent w) (files w) (write_errors w)))
      as (r' & w' & E & Hl & Hlen); auto.
    exists r', w'. auto.
  - destruct Hb as [-> Hb].
    destruct (IH false n (mkWorld false (replies w) (sent w) (files w) (write_errors w)))
      as (r' & w' & E & Hl & Hlen); auto.
    exists r', w'. auto.
  - destruct n as [|n]; [tauto|].
    destruct (replies w) as [|r rs] eqn:Er; [simpl in Hn; lia|].
    destruct (H r held n (mkWorld (mutex_locked w) rs (sent w ++ [(msg, t, b)]) (files w)
                                   (write_errors w))) as (r' & w' & E & Hl & Hlen); auto.
    { simpl in *. lia. }
    exists r', w'. split; [exact E|]. split; [exact Hl|].
    simpl in Hlen. rewrite length_app in Hlen. simpl in Hlen. lia.
  - apply (H _ held n); auto.
  - destruct (write_errors w) as [|[e|] es].
    + destruct (H None held n (mkWorld (mutex_locked w) (replies w) (sent w)
                                        (<[path := d]> (files w)) []))
        as (r' & w' & E & Hl & Hlen); auto. exists r', w'. auto.
    + destruct (H (Some e) held n (mkWorld (mutex_locked w) (replies w) (sent w) (files w) es))
        as (r' & w' & E & Hl & Hlen); auto. exists r', w'. auto.
    + destruct (H None held n (mkWorld (mutex_locked w) (replies w) (sent w)
                                        (<[path := d]> (files w)) es))
        as (r' & w' & E & Hl & Hlen); auto. exists r', w'. auto.
Qed.

Ltac walk_paths :=
  repeat (simpl;
    match goal with
    | |- True => exact I
    | |- _ = _ => reflexivity
    | |- _ /\ _ => split
    | |- forall _, _ => intro
    | |- context [reraise ?r] => destruct r
    | |- context [if ?b then _ else _] => destruct b
    | |- context [match ?x with _ => _ end] => destruct x
    end).

Lemma sends_at_most_call format_float distance self (c : Call) :
  sends_at_most 1 (call format_float distance self c).
Proof.
  destruct c; unfold call, void, cleanup, terminate_connection, install_apk, install_bundle,
    start_app, stop_app, passthrough, reboot, restart_app, reset_app_data, clear_app_cache,
    magisk_off, magisk_on, turn_screen_on, click, swipe, touch_and_hold, get_screensize,
    uiautomator, get_screenshot, back_button, home_button, enter_text, is_screen_on,
    is_pogo_topmost, topmost_app, set_location, walk_from_to, get_compressed_logcat,
    run_and_ok, run_and_ok_bytes, run_get_gesponse, data_or_file, reply_contains; walk_paths.
Qed.

Lemma balanced_call format_float distance self (c : Call) :
  balanced false (call format_float distance self c).
Proof.
  destruct c; unfold call, void, cleanup, terminate_connection, install_apk, install_bundle,
    start_app, stop_app, passthrough, reboot, restart_app, reset_app_data, clear_app_cache,
    magisk_off, magisk_on, turn_screen_on, click, swipe, touch_and_hold, get_screensize,
    uiautomator, get_screenshot, back_button, home_button, enter_text, is_screen_on,
    is_pogo_topmost, topmost_app, set_location, walk_from_to, get_compressed_logcat,
    run_and_ok, run_and_ok_bytes, run_get_gesponse, data_or_file, reply_contains; walk_paths.
Qed.

(** X5.  Every public method, run on a session whose mutex is free and
    on which the device answers, finishes (it returns or raises) after at
    most one command, and leaves the mutex free, whatever the answer is:
    a reply, [None] or an exception such as a timeout. *)
Theorem call_completes_and_frees_mutex format_float distance self (c : Call) (w : World) :
  mutex_locked w = false -> replies w <> [] ->
  exists r w', run (call format_float distance self c) w = Some (r, w')
               /\ mutex_locked w' = false
               /\ (length (sent w') <= S (length (sent w)))%nat.
Proof.
  intros Hm Hr.
  destruct (run_balanced (call format_float distance self c) false 1 w)
    as (r & w' & E & Hl & Hlen).
  - apply balanced_call.
  - apply sends_at_most_call.
  - exact Hm.
  - destruct (replies w); [contradiction|simpl; lia].
  - exists r, w'. split; [exact E|]. split; [exact Hl|lia].
Qed.

Lemma call_completes_and_frees_mutex_witness :
  exists r w',
    run (call (fun _ => "0") (fun _ _ _ _ => 0%Q) (mk 5) CallReboot)
        (mkWorld false [inr (Some (Text "OK"))] [] ∅ []) = Some (r, w')
    /\ mutex_locked w' = false
    /\ (length (sent w') <= S (length (sent (mkWorld false [inr (Some (Text "OK"))] [] ∅ []))))%nat.
Proof.
  apply (call_completes_and_frees_mutex (fun _ => "0") (fun _ _ _ _ => 0%Q) (mk 5) CallReboot
           (mkWorld false [inr (Some (Text "OK"))] [] ∅ [])).
  - reflexivity.
  - discriminate.
Defined.

Lemma speed_meters_zero (speed : Q) :
  Qeq_bool (speed / (36 # 10)) 0 = true <-> (speed == 0)%Q.
Proof.
  rewrite Qeq_bool_iff. split; intros H.
  - assert (speed == speed / (36 # 10) * (36 # 10))%Q as E by (field; discriminate).
    rewrite E, H. reflexivity.
  - rewrite H. reflexivity.
Qed.

(** X6.  [walk_from_to] with speed 0 raises ZeroDivisionError before it
    takes the mutex or sends anything.  With any other speed it sends one
    command, "geo walk" followed by the two coordinates of the start, the
    two of the destination and the speed, and a line end; its timeout is
    the command timeout plus the time the walk takes, the distance in
    metres times 3.6 over the speed in km/h; and it hands the reply (or
    the exception) of that command on. *)
Theorem walk_from_to_timeout format_float distance self location_from location_to (speed : Q) :
  ((speed == 0)%Q ->
   forall w, run (walk_from_to format_float distance self location_from location_to speed) w
             = Some (inl ZeroDivisionError, w))
  /\ (~ (speed == 0)%Q ->
      forall w r rs, mutex_locked w = false -> replies w = r :: rs ->
      exists timeout w',
        run (walk_from_to format_float distance self location_from location_to speed) w
        = Some (r, w')
        /\ sent w'
           = sent w
             ++ [(Text ("geo walk " ++ format_float (lat location_from) ++ " "
                          ++ format_float (lng location_from) ++ " "
                          ++ format_float (lat location_to) ++ " "
                          ++ format_float (lng location_to) ++ " "
                          ++ format_float speed ++ CRLF),
                  timeout, None)]
        /\ replies w' = rs
        /\ mutex_locked w' = false
        /\ (timeout == command_timeout self
                       + distance (lat location_from) (lng location_from)
                                  (lat location_to) (lng location_to) * (36 # 10) / speed)%Q).
Proof.
  split.
  - intros Hs w. unfold walk_from_to.
    rewrite (proj2 (speed_meters_zero speed) Hs). reflexivity.
  - intros Hs w r rs Hm Hr. unfold walk_from_to.
    destruct (Qeq_bool (speed / (36 # 10)) 0) eqn:E.
    { apply speed_meters_zero in E. contradiction. }
    simpl. rewrite Hm, Hr.
    destruct r as [e|res]; simpl; eexists _, _;
      (split; [reflexivity|]; split; [reflexivity|]; split; [reflexivity|];
       split; [reflexivity|]);
      simpl; field; exact Hs.
Qed.

Lemma walk_from_to_timeout_witness :
  exists timeout w',
    run (walk_from_to (fun _ => "0") (fun _ _ _ _ => 100%Q) (mk 5) (mkLocation 0 0)
                      (mkLocation 1 1) 36%Q)
        (mkWorld false [inr None] [] ∅ []) = Some (inr None, w')
    /\ sent w'
       = [] ++ [(Text ("geo walk " ++ "0" ++ " " ++ "0" ++ " " ++ "0" ++ " " ++ "0" ++ " "
                        ++ "0" ++ CRLF), timeout, None)]
    /\ replies w' = []
    /\ mutex_locked w' = false
    /\ (timeout == 5 + 100 * (36 # 10) / 36)%Q.
Proof.
  apply (proj2 (walk_from_to_timeout (fun _ => "0") (fun _ _ _ _ => 100%Q) (mk 5)
                  (mkLocation 0 0) (mkLocation 1 1) 36%Q)).
  - discriminate.
  - reflexivity.
  - reflexivity.
Defined.

(** X7.  [cleanup] swallows a closed connection and a timeout: however
    its run ends, it does not raise either of them.  [terminate_connection]
    answers a connection that is already closed with [True], the mutex
    given back. *)
Theorem cleanup_swallows_closed_and_timeout (self : t) :
  (forall w r w', run (cleanup self) w = Some (r, w') ->
     r <> inl WebsocketWorkerConnectionClosedException
     /\ r <> inl WebsocketWorkerTimeoutException)
  /\ (forall w rs, mutex_locked w = false ->
        replies w = inl WebsocketWorkerConnectionClosedException :: rs ->
        exists w', run (terminate_connection self) w = Some (inr true, w')
                   /\ mutex_locked w' = false).
Proof.
  split.
  - intros w r w'. unfold cleanup, terminate_connection, run_and_ok, run_and_ok_bytes. simpl.
    destruct (mutex_locked w); [discriminate|].
    destruct (replies w) as [|[e|res] rs]; [discriminate| |].
    + destruct e; simpl; intros H; injection H as <- <-; split; discriminate.
    + simpl. intros H; injection H as <- <-; split; discriminate.
  - intros w rs Hm Hr. unfold terminate_connection, run_and_ok, run_and_ok_bytes. simpl.
    rewrite Hm, Hr. simpl. eexists. split; reflexivity.
Qed.

Lemma list_ascii_of_string_app (a b : string) :
  String.list_ascii_of_string (a ++ b)
  = (String.list_ascii_of_string a ++ String.list_ascii_of_string b)%list.
Proof. induction a as [|c a IH]; simpl; [reflexivity|]. rewrite IH. reflexivity. Qed.

Lemma string_of_list_ascii_app (l m : list Ascii.ascii) :
  String.string_of_list_ascii (l ++ m)
  = (String.string_of_list_ascii l ++ String.string_of_list_ascii m)%string.
Proof. induction l as [|c l IH]; simpl; [reflexivity|]. rewrite IH. reflexivity. Qed.

Lemma rev_string_app (a b : string) : rev_string (a ++ b) = (rev_string b ++ rev_string a)%string.
Proof.
  unfold rev_string. rewrite list_ascii_of_string_app, rev_app_distr.
  apply string_of_list_ascii_app.
Qed.

Lemma all_space_rev (s : string) : all_space s = true -> all_space (rev_string s) = true.
Proof.
  unfold all_space, rev_string. rewrite String.list_ascii_of_string_of_list_ascii.
  rewrite !forallb_forall. intros H c Hc. apply H. apply in_rev. exact Hc.
Qed.

Lemma lstrip_spaces (ws s : string) : all_space ws = true -> lstrip (ws ++ s) = lstrip s.
Proof.
  unfold all_space. induction ws as [|c ws IH]; simpl; [reflexivity|].
  intros H. apply andb_true_iff in H as [Hc Hws]. rewrite Hc. apply IH. exact Hws.
Qed.

Lemma strip_ok (ws1 ws2 : string) :
  all_space ws1 = true -> all_space ws2 = true -> strip (ws1 ++ "OK" ++ ws2) = "OK".
Proof.
  intros H1 H2. unfold strip. rewrite (lstrip_spaces ws1 _ H1).
  change (lstrip ("OK" ++ ws2)) with ("OK" ++ ws2)%string.
  rewrite rev_string_app. rewrite (lstrip_spaces _ _ (all_space_rev _ H2)).
  reflexivity.
Qed.

(** X8.  The acknowledgement of a command is the reply OK with any
    whitespace around it, such as the line end the device appends; a
    reply in bytes and a missing reply are no acknowledgement.  In each
    case the method returns with the mutex given back. *)
Theorem run_and_ok_bytes_acknowledgement (self : t) (message : MessageTyping) (timeout : Q)
    (byte_command : option Z) (w : World) (rs : list Reply) :
  mutex_locked w = false ->
  (forall ws1 ws2, all_space ws1 = true -> all_space ws2 = true ->
     replies w = inr (Some (Text (ws1 ++ "OK" ++ ws2))) :: rs ->
     exists w', run (run_and_ok_bytes self message timeout byte_command) w = Some (inr true, w')
                /\ mutex_locked w' = false)
  /\ (forall b, replies w = inr (Some (Binary b)) :: rs ->
       exists w', run (run_and_ok_bytes self message timeout byte_command) w
                  = Some (inr false, w')
                  /\ mutex_locked w' = false)
  /\ (replies w = inr None :: rs ->
       exists w', run (run_and_ok_bytes self message timeout byte_command) w
                  = Some (inr false, w')
                  /\ mutex_locked w' = false).
Proof.
  intros Hm. unfold run_and_ok_bytes. simpl. rewrite Hm.
  split; [|split].
  - intros ws1 ws2 H1 H2 ->. simpl. rewrite (strip_ok ws1 ws2 H1 H2).
    eexists. split; reflexivity.
  - intros b ->. simpl. eexists. split; reflexivity.
  - intros ->. simpl. eexists. split; reflexivity.
Qed.

Lemma run_and_ok_bytes_acknowledgement_witness :
  exists w', run (run_and_ok_bytes (mk 5) (Text "more reboot now") 5%Q None)
                 (mkWorld false [inr (Some (Text (" " ++ "OK" ++ CRLF)))] [] ∅ [])
             = Some (inr true, w')
             /\ mutex_locked w' = false.
Proof.
  apply (proj1 (run_and_ok_bytes_acknowledgement (mk 5) (Text "more reboot now") 5%Q None
                  (mkWorld false [inr (Some (Text (" " ++ "OK" ++ CRLF)))] [] ∅ []) []
                  eq_refl) " " CRLF); reflexivity.
Defined.

(** X9.  [get_compressed_logcat] returns [True] only when the device
    answered in bytes, and then the file at [path] holds exactly those
    bytes; a textual reply or a missing one returns [False] and writes no
    file. *)
Theorem get_compressed_logcat_result (self : t) (path : string) (w : World) :
  (forall w', run (get_compressed_logcat self path) w = Some (inr true, w') ->
     exists encoded rs, replies w = inr (Some (Binary encoded)) :: rs
                        /\ files w' !! path = Some encoded)
  /\ (forall rs res, mutex_locked w = false -> replies w = inr res :: rs ->
       (forall encoded, res <> Some (Binary encoded)) ->
       exists w', run (get_compressed_logcat self path) w = Some (inr false, w')
                  /\ files w' = files w).
Proof.
  unfold get_compressed_logcat, run_get_gesponse. simpl. split.
  - intros w'. destruct (mutex_locked w); [discriminate|].
    destruct (replies w) as [|[e|[[s|b]|]] rs]; simpl; try discriminate.
    destruct (write_errors w) as [|[e|] es]; simpl; try discriminate;
      intros H; injection H as <-; exists b, rs; simpl;
      (split; [reflexivity|apply lookup_insert_eq]).
  - intros rs res Hm Hr Hres. rewrite Hm, Hr. simpl.
    destruct res as [[s|b]|]; simpl.
    + eexists. split; reflexivity.
    + exfalso. apply (Hres b). reflexivity.
    + eexists. split; reflexivity.
Qed.

Lemma get_compressed_logcat_result_witness :
  exists w', run (get_compressed_logcat (mk 5) "logcat.zip")
                 (mkWorld false [inr (Some (Text "KO: no logcat"))] [] ∅ [])
             = Some (inr false, w')
             /\ files w' = ∅.
Proof.
  apply (proj2 (get_compressed_logcat_result (mk 5) "logcat.zip"
                  (mkWorld false [inr (Some (Text "KO: no logcat"))] [] ∅ []))
           [] (Some (Text "KO: no logcat"))).
  - reflexivity.
  - reflexivity.
  - intros encoded. discriminate.
Defined.

(** X10.  [install_apk] and [install_bundle] read the file only when no
    data is handed in: with data they send exactly it, with byte command
    1 and 2; without data and without a file at [filepath] they raise
    OSError before taking the mutex or sending anything. *)
Theorem install_reads_file_only_without_data (self : t) (timeout : Q) (filepath : string)
    (w : World) :
  (forall data, data = None \/ data = Some [] -> files w !! filepath = None ->
     run (install_apk self timeout filepath data) w = Some (inl OSError, w)
     /\ run (install_bundle self timeout filepath data) w = Some (inl OSError, w))
  /\ (forall b bs r rs, mutex_locked w = false -> replies w = r :: rs ->
       exists res res' w' w'',
         run (install_apk self timeout filepath (Some (b :: bs))) w = Some (res, w')
         /\ sent w' = sent w ++ [(Binary (b :: bs), timeout, Some 1)]
         /\ run (install_bundle self timeout filepath (Some (b :: bs))) w = Some (res', w'')
         /\ sent w'' = sent w ++ [(Binary (b :: bs), timeout, Some 2)]).
Proof.
  split.
  - intros data [-> | ->] Hf; unfold install_apk, install_bundle; simpl; rewrite Hf; split;
      reflexivity.
  - intros b bs r rs Hm Hr. unfold install_apk, install_bundle. simpl. rewrite Hm, Hr.
    destruct r as [e|res]; simpl; eexists _, _, _, _; repeat split; reflexivity.
Qed.

Lemma install_reads_file_only_without_data_witness :
  run (install_apk (mk 5) 60%Q "missing.apk" None) (mkWorld false [] [] ∅ [])
  = Some (inl OSError, mkWorld false [] [] ∅ [])
  /\ run (install_bundle (mk 5) 60%Q "missing.apk" None) (mkWorld false [] [] ∅ [])
     = Some (inl OSError, mkWorld false [] [] ∅ []).
Proof.
  apply (proj1 (install_reads_file_only_without_data (mk 5) 60%Q "missing.apk"
                  (mkWorld false [] [] ∅ [])) None).
  - left. reflexivity.
  - reflexivity.
Defined.

End CommunicatorSessions.



(* ===================================================================== *)
(** * Starting and stopping the app                                       *)
(* ===================================================================== *)

Section PogoControlProperties.
Import PogoControl Eff.

Lemma stops_snoc actions c :
  stops (actions ++ [c])
  = (stops actions + match c with StopApp p => if String.eqb p pogo then 1 else 0 | _ => 0 end)%nat.
Proof.
  unfold stops. rewrite List.filter_app, length_app. simpl.
  destruct c; simpl; try reflexivity. destruct (String.eqb package_name pogo); reflexivity.
Qed.

Lemma starts_snoc actions c :
  starts (actions ++ [c])
  = (starts actions + match c with StartApp p => if String.eqb p pogo then 1 else 0 | _ => 0 end)%nat.
Proof.
  unfold starts. rewrite List.filter_app, length_app. simpl.
  destruct c; simpl; try reflexivity. destruct (String.eqb package_name pogo); reflexivity.
Qed.

Lemma naps_snoc actions c :
  naps (actions ++ [c])
  = (naps actions + match c with Sleep d => if Qeq_bool d 1 then 1 else 0 | _ => 0 end)%nat.
Proof.
  unfold naps. rewrite List.filter_app, length_app. simpl.
  destruct c; simpl; try reflexivity. destruct (Qeq_bool seconds 1); reflexivity.
Qed.

(** One round of the stop loop, the answers being [ack] and [seen]. *)
Lemma stop_loop_round left r0 s ack seen rest :
  answers s = ack :: seen :: rest ->
  stop_loop (S left) r0 true s
  = stop_loop left ack seen
      (mk (stop_worker_event s) (post_turn_screen_on_delay s) (post_pogo_start_delay s)
          (last_pogo_restart s) rest (trace s ++ [StopApp pogo; Sleep 1; IsPogoTopmost])).
Proof.
  intros Ha. simpl. unfold bind at 1, ask at 1. rewrite Ha. simpl.
  unfold bind at 1, act at 1, modify. simpl.
  unfold bind at 1, ask at 1. simpl. rewrite <- !app_assoc. reflexivity.
Qed.

Lemma stop_loop_leaves acks : forall left r0 s ack rest,
  (length acks < left)%nat ->
  answers s = rounds true acks ++ ack :: false :: rest ->
  exists s', stop_loop left r0 true s = (inr ack, s')
             /\ answers s' = rest
             /\ stops (trace s') = (stops (trace s) + length acks + 1)%nat
             /\ stop_worker_event s' = stop_worker_event s.
Proof.
  induction acks as [|a acks IH]; intros left r0 s ack rest Hlen Ha; simpl in Ha, Hlen;
    cbn [length].
  - destruct left as [|left]; [lia|]. rewrite (stop_loop_round _ _ _ _ _ _ Ha).
    destruct left; simpl; eexists; (split; [reflexivity|]); simpl;
      change (trace s ++ [StopApp pogo; Sleep 1; IsPogoTopmost])
        with (trace s ++ [StopApp pogo] ++ [Sleep 1] ++ [IsPogoTopmost]);
      rewrite !app_assoc, !stops_snoc; simpl; repeat split; lia.
  - destruct left as [|left]; [lia|]. rewrite (stop_loop_round _ _ _ _ _ _ Ha).
    edestruct (IH left a) as (s' & E & H1 & H2 & H3); [| |exists s'; split; [exact E|]].
    + lia.
    + reflexivity.
    + split; [exact H1|]. split; [|exact H3]. rewrite H2. simpl.
      change (trace s ++ [StopApp pogo; Sleep 1; IsPogoTopmost])
        with (trace s ++ [StopApp pogo] ++ [Sleep 1] ++ [IsPogoTopmost]).
      rewrite !app_assoc, !stops_snoc. simpl. lia.
Qed.

Lemma stop_loop_gives_up acks : forall r0 s rest,
  answers s = rounds true acks ++ rest ->
  exists s', stop_loop (length acks) r0 true s = (inr false, s')
             /\ answers s' = rest
             /\ stops (trace s') = (stops (trace s) + length acks)%nat.
Proof.
  induction acks as [|a acks IH]; intros r0 s rest Ha; simpl in Ha; cbn [length].
  - exists s. repeat split; auto.
  - rewrite (stop_loop_round _ _ _ _ _ _ Ha).
    edestruct (IH a) as (s' & E & H1 & H2); [|exists s'; split; [exact E|]].
    + reflexivity.
    + split; [exact H1|]. rewrite H2. simpl.
      change (trace s ++ [StopApp pogo; Sleep 1; IsPogoTopmost])
        with (trace s ++ [StopApp pogo] ++ [Sleep 1] ++ [IsPogoTopmost]).
      rewrite !app_assoc, !stops_snoc. simpl. lia.
Qed.

Lemma stop_pogo_first s ack seen rest :
  answers s = ack :: seen :: rest ->
  _stop_pogo s
  = stop_loop 10 ack seen
      (mk (stop_worker_event s) (post_turn_screen_on_delay s) (post_pogo_start_delay s)
          (last_pogo_restart s) rest (trace s ++ [StopApp pogo; IsPogoTopmost])).
Proof.
  intros Ha. unfold _stop_pogo, bind, ask. rewrite Ha.
  cbn [hd tl answers trace stop_worker_event post_turn_screen_on_delay post_pogo_start_delay
       last_pogo_restart].
  rewrite <- app_assoc. reflexivity.
Qed.

Lemma stops_first actions :
  stops (actions ++ [StopApp pogo; IsPogoTopmost]) = (stops actions + 1)%nat.
Proof.
  change (actions ++ [StopApp pogo; IsPogoTopmost])
    with (actions ++ [StopApp pogo] ++ [IsPogoTopmost]).
  rewrite app_assoc, !stops_snoc. simpl. lia.
Qed.

(** X18.  [_stop_pogo] reports the acknowledgement of its last stop
    command, not whether the app is gone.  When the app is found topmost
    after each of the first [n] stop commands, [n] at most 10, and gone
    after the next one, the method has sent [n + 1] stop commands and
    returns what the device answered to the last of them: [False] if
    that one was not acknowledged, although the app is no longer
    topmost. *)
Theorem stop_pogo_reports_last_ack (acks : list bool) (ack : bool) (rest : list bool) (s : t) :
  (length acks <= 10)%nat ->
  answers s = rounds true acks ++ ack :: false :: rest ->
  exists s', _stop_pogo s = (inr ack, s')
             /\ answers s' = rest
             /\ stops (trace s') = (stops (trace s) + length acks + 1)%nat.
Proof.
  intros Hlen Ha.
  destruct acks as [|a acks]; simpl in Ha, Hlen.
  - rewrite (stop_pogo_first _ _ _ _ Ha). eexists. split; [reflexivity|].
    cbn [answers trace length]. rewrite stops_first. split; [reflexivity|lia].
  - rewrite (stop_pogo_first _ _ _ _ Ha).
    edestruct (stop_loop_leaves acks 10%nat a) as (s' & E & H1 & H2 & _);
      [| |exists s'; split; [exact E|]].
    + lia.
    + reflexivity.
    + split; [exact H1|]. rewrite H2. cbn [trace length]. rewrite stops_first. lia.
Qed.

(** X19.  [_stop_pogo] gives up after eleven stop commands: when the app
    is still topmost after each of them, the method returns [False] and
    sends no twelfth. *)
Theorem stop_pogo_gives_up (acks : list bool) (rest : list bool) (s : t) :
  length acks = 11%nat ->
  answers s = rounds true acks ++ rest ->
  exists s', _stop_pogo s = (inr false, s')
             /\ answers s' = rest
             /\ stops (trace s') = (stops (trace s) + 11)%nat.
Proof.
  intros Hlen Ha.
  destruct acks as [|a acks]; [discriminate Hlen|]. simpl in Ha, Hlen.
  rewrite (stop_pogo_first _ _ _ _ Ha).
  assert (length acks = 10%nat) as Hl by lia. rewrite <- Hl.
  edestruct (stop_loop_gives_up acks a) as (s' & E & H1 & H2);
    [|exists s'; split; [exact E|]].
  + reflexivity.
  + split; [exact H1|]. rewrite H2. cbn [trace]. rewrite stops_first. lia.
Qed.

Lemma wait_loop_round passes s present rest :
  answers s = present :: rest ->
  wait_loop (S passes) s
  = if negb present || stop_worker_event s
    then (inl InternalStopWorkerException,
          mk (stop_worker_event s) (post_turn_screen_on_delay s) (post_pogo_start_delay s)
             (last_pogo_restart s) rest (trace s ++ [RoutemanagerPresent]))
    else wait_loop passes
           (mk (stop_worker_event s) (post_turn_screen_on_delay s) (post_pogo_start_delay s)
               (last_pogo_restart s) rest (trace s ++ [RoutemanagerPresent; Sleep 1])).
Proof.
  intros Ha. cbn [wait_loop]. unfold bind at 1, ask at 1. rewrite Ha.
  cbn [hd tl]. unfold bind at 1, gets at 1. cbn [stop_worker_event].
  destruct (negb present || stop_worker_event s); [reflexivity|].
  unfold bind at 1, act at 1, modify.
  cbn [stop_worker_event post_turn_screen_on_delay post_pogo_start_delay last_pogo_restart
       answers trace].
  rewrite <- app_assoc. reflexivity.
Qed.

Lemma naps_round actions :
  naps (actions ++ [RoutemanagerPresent; Sleep 1]) = (naps actions + 1)%nat.
Proof.
  change (actions ++ [RoutemanagerPresent; Sleep 1])
    with (actions ++ [RoutemanagerPresent] ++ [Sleep 1]).
  rewrite app_assoc, !naps_snoc. simpl. lia.
Qed.

Lemma wait_loop_sleeps passes : forall s rest,
  stop_worker_event s = false ->
  answers s = repeat true passes ++ rest ->
  exists s', wait_loop passes s = (inr tt, s')
             /\ answers s' = rest
             /\ naps (trace s') = (naps (trace s) + passes)%nat
             /\ last_pogo_restart s' = last_pogo_restart s
             /\ starts (trace s') = starts (trace s).
Proof.
  induction passes as [|passes IH]; intros s rest Hs Ha; simpl in Ha.
  - exists s. repeat split; auto.
  - rewrite (wait_loop_round _ _ _ _ Ha), Hs. cbn [negb orb].
    edestruct IH as (s' & E & H1 & H2 & H3 & H4); [| |exists s'; split; [exact E|]].
    + reflexivity.
    + reflexivity.
    + split; [exact H1|]. split; [|split; [exact H3|]].
      * rewrite H2. cbn [trace]. rewrite naps_round. lia.
      * rewrite H4. cbn [trace].
        change (trace s ++ [RoutemanagerPresent; Sleep 1])
          with (trace s ++ [RoutemanagerPresent] ++ [Sleep 1]).
        rewrite app_assoc, !starts_snoc. simpl. lia.
Qed.

Lemma wait_loop_killed looks : forall passes s rest,
  (looks < passes)%nat ->
  stop_worker_event s = false ->
  answers s = repeat true looks ++ false :: rest ->
  exists s', wait_loop passes s = (inl InternalStopWorkerException, s')
             /\ naps (trace s') = (naps (trace s) + looks)%nat.
Proof.
  induction looks as [|looks IH]; intros passes s rest Hlt Hs Ha; simpl in Ha;
    (destruct passes as [|passes]; [lia|]); rewrite (wait_loop_round _ _ _ _ Ha), Hs;
    cbn [negb orb].
  - eexists. split; [reflexivity|]. cbn [trace]. rewrite naps_snoc. simpl. lia.
  - edestruct (IH passes) as (s' & E & H1); [| | |exists s'; split; [exact E|]].
    + lia.
    + reflexivity.
    + reflexivity.
    + rewrite H1. cbn [trace]. rewrite naps_round. lia.
Qed.

Lemma wait_pogo_start_delay_sleeps (s : t) (rest : list bool) :
  stop_worker_event s = false ->
  answers s = repeat true (Z.to_nat (devicesetting_int (post_pogo_start_delay s) 60 + 1)) ++ rest ->
  exists s', _wait_pogo_start_delay s = (inr tt, s')
             /\ answers s' = rest
             /\ naps (trace s')
                = (naps (trace s) + Z.to_nat (devicesetting_int (post_pogo_start_delay s) 60 + 1)%Z)%nat
             /\ last_pogo_restart s' = last_pogo_restart s
             /\ starts (trace s') = starts (trace s).
Proof.
  intros Hs Ha. unfold _wait_pogo_start_delay. rewrite bind_gets.
  exact (wait_loop_sleeps _ s rest Hs Ha).
Qed.

(** X20.  [_wait_pogo_start_delay] with a start delay of [d] seconds (60
    when the device has no setting, or a setting of 0) sleeps [d + 1]
    times for a second, the loop condition being
    [delay_count <= pogo_start_delay], when the route manager stays
    present and the stop event clear.  When the route manager is found
    gone at some look it raises InternalStopWorkerException there, after
    one sleep for each look before. *)
Theorem wait_pogo_start_delay_naps (s : t) (rest : list bool) :
  stop_worker_event s = false ->
  let passes := Z.to_nat (devicesetting_int (post_pogo_start_delay s) 60 + 1) in
  (answers s = repeat true passes ++ rest ->
     exists s', _wait_pogo_start_delay s = (inr tt, s')
                /\ answers s' = rest
                /\ naps (trace s') = (naps (trace s) + passes)%nat)
  /\ (forall looks, (looks < passes)%nat ->
       answers s = repeat true looks ++ false :: rest ->
       exists s', _wait_pogo_start_delay s = (inl InternalStopWorkerException, s')
                  /\ naps (trace s') = (naps (trace s) + looks)%nat).
Proof.
  intros Hs passes. unfold _wait_pogo_start_delay. rewrite bind_gets. fold passes. split.
  - intros Ha. destruct (wait_loop_sleeps passes s rest Hs Ha) as (s' & E & H1 & H2 & _).
    exists s'. auto.
  - intros looks Hlt Ha. exact (wait_loop_killed looks passes s rest Hlt Hs Ha).
Qed.

Lemma start_loop_round left r0 s ack seen rest :
  answers s = ack :: seen :: rest ->
  start_loop (S left) r0 false s
  = start_loop left ack seen
      (mk (stop_worker_event s) (post_turn_screen_on_delay s) (post_pogo_start_delay s)
          (last_pogo_restart s) rest (trace s ++ [StartApp pogo; Sleep 1; IsPogoTopmost])).
Proof.
  intros Ha. cbn [start_loop]. unfold bind at 1, ask at 1. rewrite Ha. cbn [hd tl].
  unfold bind at 1, act at 1, modify.
  cbn [stop_worker_event post_turn_screen_on_delay post_pogo_start_delay last_pogo_restart
       answers trace].
  unfold bind at 1, ask at 1.
  cbn [hd tl stop_worker_event post_turn_screen_on_delay post_pogo_start_delay
       last_pogo_restart answers trace].
  rewrite <- !app_assoc. reflexivity.
Qed.

Lemma counts_round actions :
  starts (actions ++ [StartApp pogo; Sleep 1; IsPogoTopmost]) = (starts actions + 1)%nat
  /\ naps (actions ++ [StartApp pogo; Sleep 1; IsPogoTopmost]) = (naps actions + 1)%nat.
Proof.
  change (actions ++ [StartApp pogo; Sleep 1; IsPogoTopmost])
    with (actions ++ [StartApp pogo] ++ [Sleep 1] ++ [IsPogoTopmost]).
  rewrite !app_assoc, !starts_snoc, !naps_snoc. simpl. lia.
Qed.

Lemma start_loop_comes_up acks : forall left r0 s ack rest,
  (length acks < left)%nat ->
  answers s = rounds false acks ++ ack :: true :: rest ->
  exists s', start_loop left r0 false s = (inr (Topmost ack), s')
             /\ answers s' = rest
             /\ starts (trace s') = (starts (trace s) + length acks + 1)%nat
             /\ stop_worker_event s' = stop_worker_event s
             /\ post_pogo_start_delay s' = post_pogo_start_delay s
             /\ last_pogo_restart s' = last_pogo_restart s.
Proof.
  induction acks as [|a acks IH]; intros left r0 s ack rest Hlen Ha; simpl in Ha, Hlen;
    cbn [length]; (destruct left as [|left]; [lia|]);
    rewrite (start_loop_round _ _ _ _ _ _ Ha).
  - destruct left; cbn [start_loop]; eexists; (split; [reflexivity|]);
      cbn [answers trace stop_worker_event post_pogo_start_delay last_pogo_restart];
      rewrite (proj1 (counts_round _)); repeat split; lia.
  - edestruct (IH left a) as (s' & E & H1 & H2 & H3 & H4 & H5);
      [| |exists s'; split; [exact E|]].
    + lia.
    + reflexivity.
    + split; [exact H1|]. rewrite H2. cbn [trace]. rewrite (proj1 (counts_round _)).
      repeat split; auto. lia.
Qed.

Lemma start_loop_gives_up acks : forall r0 s rest,
  answers s = rounds false acks ++ rest ->
  exists s', start_loop (length acks) r0 false s = (inr GaveUp, s')
             /\ answers s' = rest
             /\ starts (trace s') = (starts (trace s) + length acks)%nat
             /\ naps (trace s') = (naps (trace s) + length acks)%nat
             /\ last_pogo_restart s' = last_pogo_restart s.
Proof.
  induction acks as [|a acks IH]; intros r0 s rest Ha; simpl in Ha; cbn [length].
  - exists s. repeat split; auto.
  - rewrite (start_loop_round _ _ _ _ _ _ Ha).
    edestruct (IH a) as (s' & E & H1 & H2 & H3 & H4); [|exists s'; split; [exact E|]].
    + reflexivity.
    + split; [exact H1|]. rewrite H2, H3. cbn [trace].
      rewrite (proj1 (counts_round _)), (proj2 (counts_round _)). repeat split; auto; lia.
Qed.

(** What [_start_pogo] does before its loop when the app is not topmost
    and the screen is on. *)
Lemma start_pogo_first now s rest :
  answers s = false :: true :: rest ->
  _start_pogo now s
  = (do started <- start_loop 10 false false ;
     match started with
     | GaveUp => ret false
     | Topmost start_result =>
         (if start_result then modify (set_last_pogo_restart (Some now)) else ret tt) ;;
         _wait_pogo_start_delay ;;
         ret start_result
     end)
      (mk (stop_worker_event s) (post_turn_screen_on_delay s) (post_pogo_start_delay s)
          (last_pogo_restart s) rest (trace s ++ [IsPogoTopmost; IsScreenOn])).
Proof.
  intros Ha. unfold _start_pogo. unfold bind at 1, ask at 1. rewrite Ha. cbn [hd tl].
  unfold bind at 1, ask at 1. cbn [hd tl answers negb]. unfold bind at 1, ret at 1.
  cbn [stop_worker_event post_turn_screen_on_delay post_pogo_start_delay last_pogo_restart
       answers trace].
  rewrite <- !app_assoc. reflexivity.
Qed.

Lemma counts_first actions :
  starts (actions ++ [IsPogoTopmost; IsScreenOn]) = starts actions
  /\ naps (actions ++ [IsPogoTopmost; IsScreenOn]) = naps actions.
Proof.
  change (actions ++ [IsPogoTopmost; IsScreenOn])
    with (actions ++ [IsPogoTopmost] ++ [IsScreenOn]).
  rewrite !app_assoc, !starts_snoc, !naps_snoc. simpl. lia.
Qed.

(** X21.  [_start_pogo] sends no start command when the app is already
    topmost, and gives up after ten: with the app missing after each of
    ten start commands it returns [False] straight from the loop, without
    recording a restart and without waiting for the start delay (the only
    naps are the ten of the loop). *)
Theorem start_pogo_attempts (now : Q) (s : t) (rest : list bool) :
  (answers s = true :: rest ->
     exists s', _start_pogo now s = (inr true, s')
                /\ answers s' = rest /\ trace s' = trace s ++ [IsPogoTopmost])
  /\ (forall acks, length acks = 10%nat ->
       answers s = false :: true :: rounds false acks ++ rest ->
       exists s', _start_pogo now s = (inr false, s')
                  /\ answers s' = rest
                  /\ starts (trace s') = (starts (trace s) + 10)%nat
                  /\ naps (trace s') = (naps (trace s) + 10)%nat
                  /\ last_pogo_restart s' = last_pogo_restart s).
Proof.
  split.
  - intros Ha. unfold _start_pogo. unfold bind at 1, ask at 1. rewrite Ha. cbn [hd tl].
    eexists. split; [reflexivity|]. split; reflexivity.
  - intros acks Hlen Ha. rewrite (start_pogo_first _ _ _ Ha). rewrite <- Hlen.
    edestruct (start_loop_gives_up acks false) as (s' & E & H1 & H2 & H3 & H4);
      [|exists s'; split; [rewrite (run_bind _ _ _ _ _ E); reflexivity|]].
    + reflexivity.
    + split; [exact H1|]. rewrite H2, H3, H4. cbn [trace last_pogo_restart].
      rewrite (proj1 (counts_first _)), (proj2 (counts_first _)). auto.
Qed.

(** X22.  [_start_pogo] reports the acknowledgement of its last start
    command.  With the screen on, the app missing after each of the first
    [n] start commands, [n] at most 9, and topmost after the next one,
    and nothing ending the wait for the start delay, the method has sent
    [n + 1] start commands and returns what the device answered to the
    last of them; only if that is [True] the time of the restart is
    recorded. *)
Theorem start_pogo_reports_last_ack (now : Q) (acks : list bool) (ack : bool)
    (rest : list bool) (s : t) :
  (length acks <= 9)%nat ->
  stop_worker_event s = false ->
  answers s = false :: true :: rounds false acks ++ ack :: true
              :: repeat true (Z.to_nat (devicesetting_int (post_pogo_start_delay s) 60 + 1)) ++ rest ->
  exists s', _start_pogo now s = (inr ack, s')
             /\ answers s' = rest
             /\ starts (trace s') = (starts (trace s) + length acks + 1)%nat
             /\ last_pogo_restart s' = if ack then Some now else last_pogo_restart s.
Proof.
  intros Hlen Hs Ha. rewrite (start_pogo_first _ _ _ Ha).
  edestruct (start_loop_comes_up acks 10%nat false) as (s1 & E1 & H1 & H2 & H3 & H4 & H5);
    [| |rewrite (run_bind _ _ _ _ _ E1)].
  - lia.
  - reflexivity.
  - cbn [stop_worker_event post_pogo_start_delay last_pogo_restart trace] in H2, H3, H4, H5.
    set (s2 := if ack then set_last_pogo_restart (Some now) s1 else s1).
    assert ((if ack then modify (set_last_pogo_restart (Some now)) else ret tt) s1
            = (inr tt, s2)) as E2 by (subst s2; destruct ack; reflexivity).
    rewrite (run_bind _ _ _ _ _ E2).
    assert (stop_worker_event s2 = false /\ answers s2 = answers s1
            /\ post_pogo_start_delay s2 = post_pogo_start_delay s
            /\ trace s2 = trace s1
            /\ last_pogo_restart s2 = if ack then Some now else last_pogo_restart s)
      as (G1 & G2 & G3 & G4 & G5).
    { subst s2. destruct ack; simpl; repeat split; congruence. }
    destruct (wait_pogo_start_delay_sleeps s2 rest G1) as (s3 & E3 & K1 & K2 & K3 & K4).
    { rewrite G2, G3, H1. reflexivity. }
    rewrite (run_bind _ _ _ _ _ E3). exists s3. split; [reflexivity|].
    split; [exact K1|]. split; [|congruence].
    rewrite K4, G4, H2. rewrite (proj1 (counts_first _)). reflexivity.
Qed.

End PogoControlProperties.

Section PogoControlExamples.
Import PogoControl Eff.

Lemma stop_pogo_reports_last_ack_witness :
  exists s', _stop_pogo (mk false None None None [true; true; false; false] [])
             = (inr false, s')
             /\ answers s' = []
             /\ stops (trace s') = (stops [] + length [true] + 1)%nat.
Proof.
  apply (stop_pogo_reports_last_ack [true] false []
           (mk false None None None [true; true; false; false] [])).
  - simpl. lia.
  - reflexivity.
Defined.

Lemma stop_pogo_gives_up_witness :
  exists s', _stop_pogo (mk false None None None (rounds true (repeat false 11)) [])
             = (inr false, s')
             /\ answers s' = []
             /\ stops (trace s') = (stops [] + 11)%nat.
Proof.
  apply (stop_pogo_gives_up (repeat false 11) []
           (mk false None None None (rounds true (repeat false 11)) [])).
  - reflexivity.
  - reflexivity.
Defined.

Lemma wait_pogo_start_delay_naps_witness :
  exists s', _wait_pogo_start_delay (mk false None (Some 1) None [true; true] [])
             = (inr tt, s')
             /\ answers s' = []
             /\ naps (trace s') = (naps [] + Z.to_nat (1 + 1))%nat.
Proof.
  apply (proj1 (wait_pogo_start_delay_naps (mk false None (Some 1) None [true; true] []) []
                  eq_refl)).
  reflexivity.
Defined.

Lemma start_pogo_attempts_witness :
  exists s', _start_pogo 0%Q (mk false None None None [true] []) = (inr true, s')
             /\ answers s' = [] /\ trace s' = [] ++ [IsPogoTopmost].
Proof.
  apply (proj1 (start_pogo_attempts 0%Q (mk false None None None [true] []) [])).
  reflexivity.
Defined.

Lemma start_pogo_reports_last_ack_witness :
  exists s', _start_pogo 5%Q
               (mk false None (Some 1) None [false; true; false; true; true; true] [])
             = (inr false, s')
             /\ answers s' = []
             /\ starts (trace s') = (starts [] + length (@nil bool) + 1)%nat
             /\ last_pogo_restart s' = None.
Proof.
  apply (start_pogo_reports_last_ack 5%Q [] false []
           (mk false None (Some 1) None [false; true; false; true; true; true] [])).
  - simpl. lia.
  - reflexivity.
  - reflexivity.
Defined.

End PogoControlExamples.

(* ===================================================================== *)
(** * More of the stop interaction                                        *)
(* ===================================================================== *)

Section WorkerQuestsTaps.
Import WorkerQuests Eff.

Variable get_s2cells_from_circle : Q -> Q -> Z -> Z -> list Z.

Lemma keeps_taps_act a :
  match a with WorkerBase.ClickPokestopAtCurrentLocation _ => False | _ => True end ->
  keeps taps (act a).
Proof.
  intros Ha. apply keeps_act. intros s. rewrite taps_acted.
  destruct a; try contradiction; lia.
Qed.

Lemma keeps_modify {X} (obs : t -> X) (f : t -> t) :
  (forall s, obs (f s) = obs s) -> keeps obs (modify f).
Proof. intros H s r s' E. injection E as <- <-. apply H. Qed.

Lemma keeps_taps_time : keeps taps time_time.
Proof. intros s r s' E. injection E as <- <-. reflexivity. Qed.

Lemma keeps_taps_wait ts p to : keeps taps (_wait_for_data ts p to).
Proof.
  unfold _wait_for_data. apply keeps_bind; [apply keeps_taps_act; exact I|].
  intros _ s r s' H. injection H as <- <-. reflexivity.
Qed.

Lemma keeps_taps_restart : keeps taps (inherited (WorkerBase._restart_pogo true true)).
Proof. intros s r s' H. apply restart_pogo_counts in H as (_ & T & _). exact T. Qed.

Lemma keeps_taps_failure : keeps taps _spinnable_data_failure.
Proof.
  unfold _spinnable_data_failure. apply keeps_bind; [apply keeps_gets|]. intros count.
  destruct (count >? 9).
  - apply keeps_bind; [apply keeps_modify; reflexivity|]. intros _.
    apply keeps_bind; [apply keeps_taps_restart|]. intros ok.
    destruct (negb ok); [apply keeps_raise|apply keeps_ret].
  - apply keeps_modify. reflexivity.
Qed.

Lemma keeps_taps_classify fort la lo : keeps taps (classify_fort fort la lo).
Proof.
  unfold classify_fort. destruct (default 0 (fort_type fort) =? 0).
  - apply keeps_bind; [apply keeps_taps_act; exact I|]. intros _.
    apply keeps_bind; [apply keeps_modify; reflexivity|]. intros _. apply keeps_ret.
  - apply keeps_bind; [apply keeps_gets|]. intros self.
    destruct (_ && _).
    + apply keeps_bind; [apply keeps_taps_act; exact I|]. intros _.
      apply keeps_bind; [apply keeps_modify; reflexivity|]. intros _. apply keeps_ret.
    + destruct (negb _); [apply keeps_ret|].
      destruct (default false (closed fort)); [apply keeps_ret|].
      destruct (negb _); [apply keeps_ret|].
      apply keeps_bind; [apply keeps_modify; reflexivity|]. intros _. apply keeps_ret.
Qed.

Lemma keeps_taps_check_forts forts : keeps taps (check_forts forts).
Proof.
  induction forts as [|fort rest IH]; simpl; [apply keeps_ret|].
  apply keeps_bind; [apply keeps_gets|]. intros here.
  destruct (on_top here fort); [|exact IH].
  apply keeps_bind; [apply keeps_taps_classify|]. intros r. apply keeps_ret.
Qed.

Lemma keeps_taps_check_cells cells : keeps taps (check_cells cells).
Proof.
  induction cells as [|cell rest IH]; simpl; [apply keeps_ret|].
  destruct (forts cell) as [[|f fs]|]; try exact IH.
  apply keeps_bind; [apply keeps_taps_check_forts|]. intros [found|]; [apply keeps_ret|exact IH].
Qed.

Lemma keeps_taps_nearby cells :
  keeps taps (_check_if_stop_was_nearby_and_update_location cells).
Proof.
  apply keeps_check_nearby. intros fort_id location s. rewrite taps_acted. lia.
Qed.

Lemma keeps_taps_spinnable timestamp :
  keeps taps (_current_position_has_spinnable_stop get_s2cells_from_circle timestamp).
Proof.
  unfold _current_position_has_spinnable_stop.
  apply keeps_bind; [apply keeps_taps_wait|]. intros [type_received data].
  assert (keeps taps (_spinnable_data_failure ;; ret PositionStopType.GMO_NOT_AVAILABLE)) as Hna.
  { apply keeps_bind; [apply keeps_taps_failure|]. intros _. apply keeps_ret. }
  destruct type_received; try exact Hna.
  destruct data as [[v|p|r]|]; try exact Hna; try apply keeps_raise.
  destruct (payload v) as [latest_proto|]; [|apply keeps_raise].
  destruct (negb (truthy (cells latest_proto))).
  - apply keeps_bind; [apply keeps_taps_failure|]. intros _. apply keeps_ret.
  - apply keeps_bind; [apply keeps_gets|]. intros self.
    apply keeps_bind; [apply keeps_taps_check_cells|]. intros [stop_type|]; [apply keeps_ret|].
    apply keeps_bind; [apply keeps_taps_nearby|]. intros _.
    apply keeps_bind; [apply keeps_taps_failure|]. intros _. apply keeps_ret.
Qed.

Lemma keeps_taps_recheck passes timestamp : forall stop_type type_received,
  keeps taps (recheck_loop get_s2cells_from_circle passes timestamp stop_type type_received).
Proof.
  induction passes as [|passes IH]; intros stop_type type_received; simpl; [apply keeps_ret|].
  destruct (needs_recheck stop_type); [|apply keeps_ret].
  apply keeps_bind; [apply keeps_taps_time|]. intros now.
  apply keeps_bind; [apply keeps_taps_wait|]. intros received.
  apply keeps_bind; [|intros st; apply IH].
  destruct (negb _); [apply keeps_taps_spinnable|apply keeps_ret].
Qed.

Lemma keeps_taps_flag : keeps taps flag_current_location.
Proof.
  unfold flag_current_location. apply keeps_bind; [apply keeps_gets|]. intros self.
  apply keeps_taps_act. exact I.
Qed.

Lemma open_loop_taps passes : forall type_received s,
  exists r s',
    open_loop passes type_received s = (inr r, s')
    /\ (taps s' <= taps s + passes)%nat
    /\ (r = LatestReceivedType.STOP \/ taps s' = (taps s + passes)%nat).
Proof.
  induction passes as [|passes IH]; intros type_received s; simpl.
  - eexists _, _. split; [reflexivity|]. split; [lia|]. right. lia.
  - destruct (LatestReceivedType.eqb type_received LatestReceivedType.STOP) eqn:Es.
    + eexists _, _. split; [reflexivity|]. split; [lia|]. left.
      destruct type_received; try discriminate Es. reflexivity.
    + destruct (open_attempt_spec s) as (s1 & E & _ & _ & Ht & _).
      unfold bind. rewrite E.
      destruct (IH (fst (hd (LatestReceivedType.UNDEFINED, None) (waits s))) s1)
        as (r & s' & E' & Ht' & Hr).
      exists r, s'. split; [exact E'|]. split; [lia|]. destruct Hr as [Hr|Hr]; [auto|right; lia].
Qed.

(** X23.  [_try_to_open_pokestop] taps the stop at most three times.
    Whatever the telemetry and however the call ends, it taps between 0
    and 3 times; and whenever it returns having tapped at all, it has
    stopped tapping on the first STOP received or has tapped exactly three
    times.  (The taps themselves are followed on the runs on which they
    return.) *)
Theorem try_to_open_taps_at_most_three (timestamp : Q) (s : t)
    (r : Exception + LatestReceivedType.t) (s' : t) :
  _try_to_open_pokestop get_s2cells_from_circle timestamp s = (r, s') ->
  (taps s' <= taps s + 3)%nat
  /\ (forall type_received,
        r = inr type_received -> (taps s < taps s')%nat ->
        type_received = LatestReceivedType.STOP \/ taps s' = (taps s + 3)%nat).
Proof.
  unfold _try_to_open_pokestop. intros H.
  apply bind_inv in H as [(e & E & ->)|(stop_type & s1 & E1 & H)].
  { apply keeps_taps_spinnable in E. rewrite E. split; [lia|]. intros; lia. }
  apply keeps_taps_spinnable in E1.
  apply bind_inv in H as [(e & E & ->)|([stop_type2 type_received] & s2 & E2 & H)].
  { apply keeps_taps_recheck in E. rewrite E, E1. split; [lia|]. intros; lia. }
  apply keeps_taps_recheck in E2.
  assert (forall m : M t LatestReceivedType.t, keeps taps m -> m s2 = (r, s') ->
            (taps s' <= taps s + 3)%nat
            /\ (forall type_received,
                  r = inr type_received -> (taps s < taps s')%nat ->
                  type_received = LatestReceivedType.STOP \/ taps s' = (taps s + 3)%nat))
    as Hkeep.
  { intros m Hm Hr. apply Hm in Hr. rewrite Hr, E2, E1. split; [lia|]. intros; lia. }
  assert (keeps taps (flag_current_location ;; ret type_received)) as Hflag.
  { apply keeps_bind; [apply keeps_taps_flag|]. intros _. apply keeps_ret. }
  assert (open_loop 3 type_received s2 = (r, s') ->
            (taps s' <= taps s + 3)%nat
            /\ (forall type_received,
                  r = inr type_received -> (taps s < taps s')%nat ->
                  type_received = LatestReceivedType.STOP \/ taps s' = (taps s + 3)%nat))
    as Hopen.
  { intros Hr. destruct (open_loop_taps 3 type_received s2) as (r' & s3 & E3 & Hle & Hor).
    rewrite E3 in Hr. injection Hr as <- <-. rewrite E2, E1 in *.
    split; [exact Hle|].
    intros received Hrec _. injection Hrec as <-. destruct Hor as [->|Hor]; auto. }
  destruct (negb (PositionStopType.type_contains_stop_at_all stop_type2)).
  - exact (Hkeep _ Hflag H).
  - destruct stop_type2; try exact (Hopen H); try exact (Hkeep _ Hflag H);
      exact (Hkeep _ (keeps_ret taps type_received) H).
Qed.

(** X24.  A position that the spinnability check settles as not
    spinnable is not tapped.  When the first check answers with a gym, a
    visited, closed, disabled or cooling-down stop, [_try_to_open_pokestop]
    waits for nothing more and returns UNDEFINED without a tap; for a gym
    and for a visited stop it also hands the coordinates to the route
    manager to be removed, for the other three it does nothing at all. *)
Theorem try_to_open_skips_unspinnable (timestamp : Q) (s s1 : t)
    (stop_type : PositionStopType.t) :
  _current_position_has_spinnable_stop get_s2cells_from_circle timestamp s
  = (inr stop_type, s1) ->
  needs_recheck stop_type = false -> stop_type <> PositionStopType.SPINNABLE_STOP ->
  exists s',
    _try_to_open_pokestop get_s2cells_from_circle timestamp s
    = (inr LatestReceivedType.UNDEFINED, s')
    /\ taps s' = taps s
    /\ trace s'
       = trace s1
         ++ match stop_type with
            | PositionStopType.GYM | PositionStopType.VISITED_STOP_IN_LEVEL_MODE_TO_IGNORE =>
                [WorkerBase.AddCoordsToBeRemoved (WorkerBase.lat (current_location s1))
                                                 (WorkerBase.lng (current_location s1))]
            | _ => []
            end.
Proof.
  intros E Hn Hs. pose proof (keeps_taps_spinnable _ _ _ _ E) as Ht.
  unfold _try_to_open_pokestop. rewrite (run_bind _ _ _ _ _ E).
  cbn [recheck_loop]. rewrite Hn.
  destruct stop_type; try discriminate Hn; try contradiction;
    eexists; (split; [reflexivity|]); (split; [|unfold trace; cbn; rewrite ?app_nil_r; reflexivity]);
    rewrite <- Ht; unfold taps, trace; cbn;
    rewrite ?List.filter_app, ?length_app; cbn; lia.
Qed.

(** X25.  The reconciliation of stored stops with the telemetry never
    deletes a stop, and it ends in one of two ways only: it returns, or it
    raises the TypeError of its second loop. *)
Theorem reconciliation_never_deletes (cells : list Cell) (s : t) (r : Exception + unit)
    (s' : t) :
  _check_if_stop_was_nearby_and_update_location cells s = (r, s') ->
  deletions s' = deletions s /\ (r = inr tt \/ r = inl TypeError).
Proof.
  intros H. split; [exact (check_nearby_never_deletes cells s r s' H)|].
  destruct r as [e|[]]; [right|left; reflexivity].
  rewrite (check_nearby_raises cells s e s' H). reflexivity.
Qed.

End WorkerQuestsTaps.

Section Reconciliation.
Import WorkerQuests Eff.

Lemma reconcile_forts_result forts : forall stops s,
  exists s', reconcile_forts forts stops s = (inr (unlisted (omap fort_key forts) stops), s').
Proof.
  induction forts as [|fort rest IH]; intros stops s; cbn [reconcile_forts omap list_omap].
  - exists s. reflexivity.
  - change (omap fort_key (fort :: rest))
      with (match fort_key fort with
            | Some id => id :: omap fort_key rest
            | None => omap fort_key rest
            end).
    unfold fort_key.
    destruct (latitude fort) as [la|]; [|apply IH].
    destruct (longitude fort) as [lo|]; [|apply IH].
    destruct (fort_id fort) as [id|]; [|apply IH].
    destruct (Qeq_bool la 0 || Qeq_bool lo 0 || String.eqb id ""); [apply IH|].
    cbn [unlisted foldl]. destruct (stops !! id) as [stop|] eqn:El.
    + destruct (_ && _); [apply IH|].
      destruct (IH (delete id stops)
                  (acted (WorkerBase.PokestopUpdateLocation id (location_of la lo)) s))
        as (s' & E).
      exists s'. exact E.
    + rewrite (delete_id _ _ El). apply IH.
Qed.

Lemma unlisted_app ids ids' stops :
  unlisted (ids ++ ids') stops = unlisted ids' (unlisted ids stops).
Proof. unfold unlisted. apply foldl_app. Qed.

Lemma reconcile_cells_result cells : forall stops s,
  exists s', reconcile_cells cells stops s = (inr (unlisted (listed cells) stops), s').
Proof.
  induction cells as [|cell rest IH]; intros stops s; cbn [reconcile_cells listed flat_map].
  - exists s. reflexivity.
  - fold (listed rest). rewrite unlisted_app.
    destruct (forts cell) as [[|f fs]|]; cbn [default]; try apply IH.
    destruct (reconcile_forts_result (f :: fs) stops s) as (s1 & E1).
    rewrite (run_bind _ _ _ _ _ E1). apply IH.
Qed.

Lemma lookup_unlisted ids : forall stops id,
  unlisted ids stops !! id = if decide (id ∈ ids) then None else stops !! id.
Proof.
  induction ids as [|i ids IH]; intros stops id; cbn [unlisted foldl].
  - destruct (decide (id ∈ [])) as [H|H]; [|reflexivity]. inversion H.
  - fold (unlisted ids (delete i stops)). rewrite IH.
    destruct (decide (id ∈ ids)) as [H|H].
    + rewrite decide_True; [reflexivity|]. apply elem_of_cons. auto.
    + destruct (decide (id = i)) as [->|Hne].
      * rewrite decide_True; [|apply elem_of_cons; auto]. apply lookup_delete_eq.
      * rewrite decide_False; [apply lookup_delete_ne; congruence|].
        rewrite elem_of_cons. tauto.
Qed.

(** X26.  When the reconciliation returns and when it raises.  The
    first loop takes out of the dict of stored nearby stops every stop
    that a cell lists with coordinates and an id; the second loop cannot
    iterate over what is left.  So the method returns exactly when the
    telemetry lists every stored nearby stop, and raises TypeError as
    soon as one stored nearby stop is missing from the telemetry. *)
Theorem reconciliation_returns_iff_all_listed (gmo_cells : list Cell) (s : t) :
  exists r s',
    _check_if_stop_was_nearby_and_update_location gmo_cells s = (r, s')
    /\ (r = inr tt <-> forall id, is_Some (nearby s !! id) -> id ∈ listed gmo_cells)
    /\ (r = inl TypeError <->
        exists id, is_Some (nearby s !! id) /\ id ∉ listed gmo_cells).
Proof.
  unfold _check_if_stop_was_nearby_and_update_location. rewrite bind_gets.
  destruct (reconcile_cells_result gmo_cells (nearby s) s) as (s1 & E1).
  rewrite (run_bind _ _ _ _ _ E1). unfold deletion_loop.
  destruct (map_to_list (unlisted (listed gmo_cells) (nearby s))) as [|kv l] eqn:El.
  - apply map_to_list_empty_iff in El.
    assert (forall id, is_Some (nearby s !! id) -> id ∈ listed gmo_cells) as Hall.
    { intros id [stop Hs].
      pose proof (proj1 (map_empty _) El id) as Hn. rewrite lookup_unlisted in Hn.
      destruct (decide (id ∈ listed gmo_cells)); [assumption|congruence]. }
    exists (inr tt), s1. split; [reflexivity|]. split; [tauto|].
    split; [discriminate|]. intros (id & Hs & Hn). exfalso. auto.
  - assert (exists id, is_Some (nearby s !! id) /\ id ∉ listed gmo_cells) as Hex.
    { destruct kv as [id stop]. exists id.
      assert ((id, stop) ∈ map_to_list (unlisted (listed gmo_cells) (nearby s))) as Hin
        by (rewrite El; apply elem_of_cons; auto).
      apply elem_of_map_to_list in Hin. rewrite lookup_unlisted in Hin.
      destruct (decide (id ∈ listed gmo_cells)); [discriminate|]. eauto. }
    exists (inl TypeError), s1. split; [reflexivity|]. split; [|tauto].
    split; [discriminate|]. intros Hall. exfalso.
    destruct Hex as (id & Hs & Hn). auto.
Qed.

End Reconciliation.

Section DataContent.
Import WorkerQuests Eff.

Variable get_s2cells_from_circle : Q -> Q -> Z -> Z -> list Z.

Lemma fort_search_result_kind latest_proto :
  fst (fort_search_result latest_proto) = LatestReceivedType.FORT_SEARCH_RESULT
  \/ fort_search_result latest_proto = (LatestReceivedType.UNDEFINED, None).
Proof.
  unfold fort_search_result.
  repeat match goal with
         | |- context [if ?b then _ else _] => destruct b; [left; reflexivity|]
         end.
  right. reflexivity.
Qed.

(** X27.  What [_check_for_data_content] answers fits what was asked
    for.  A gym popup newer than the timestamp wins over everything, and
    MON is answered only on an encounter newer than the timestamp.  STOP
    is answered only to a wait for FORT_DETAILS, a search result only to a
    wait for FORT_SEARCH, GMO only to a wait for GMO and CLEAR only to a
    wait for INVENTORY; and for these last two, whose timestamp is not
    replaced, the entry answered with is not older than the timestamp
    asked for. *)
Theorem data_content_matches_request (self : t) (latest : Latest)
    (proto_to_wait_for : ProtoIdentifier.t) (timestamp : Q) :
  let r := _check_for_data_content get_s2cells_from_circle self latest proto_to_wait_for
                                   timestamp in
  (newer_entry latest ProtoIdentifier.GYM_INFO timestamp = true ->
     r = (LatestReceivedType.GYM, None))
  /\ (fst r = LatestReceivedType.MON ->
       newer_entry latest ProtoIdentifier.ENCOUNTER timestamp = true)
  /\ (fst r = LatestReceivedType.STOP -> proto_to_wait_for = ProtoIdentifier.FORT_DETAILS)
  /\ (fst r = LatestReceivedType.FORT_SEARCH_RESULT ->
       proto_to_wait_for = ProtoIdentifier.FORT_SEARCH)
  /\ (fst r = LatestReceivedType.GMO ->
       proto_to_wait_for = ProtoIdentifier.GMO
       /\ newer_entry latest ProtoIdentifier.GMO timestamp = true)
  /\ (fst r = LatestReceivedType.CLEAR ->
       proto_to_wait_for = ProtoIdentifier.INVENTORY
       /\ newer_entry latest ProtoIdentifier.INVENTORY timestamp = true).
Proof.
  cbv zeta. unfold _check_for_data_content.
  destruct (newer_entry latest ProtoIdentifier.GYM_INFO timestamp) eqn:Eg.
  { cbn. repeat split; try discriminate. }
  destruct (newer_entry latest ProtoIdentifier.ENCOUNTER timestamp) eqn:Ee.
  { cbn. repeat split; try discriminate. }
  split; [discriminate|].
  destruct (latest proto_to_wait_for) as [entry|] eqn:El;
    [|cbn; repeat split; discriminate].
  destruct (negb (entry_truthy entry)); [cbn; repeat split; discriminate|].
  destruct proto_to_wait_for;
    try (destruct (negb (Qle_bool _ _)); [cbn; repeat split; discriminate|];
         destruct (values entry) as [v|]; [|cbn; repeat split; discriminate];
         destruct (payload v) as [p|]; cbn; repeat split; discriminate).
  - (* GMO *)
    destruct (negb (Qle_bool timestamp (timestamp_of entry))) eqn:Eq;
      [cbn; repeat split; discriminate|].
    destruct (values entry) as [v|]; [|cbn; repeat split; discriminate].
    destruct (payload v) as [p|]; [|cbn; repeat split; discriminate].
    destruct (_directly_surrounding_gmo_cells_containing_stops_around_current_position _ _ _);
      cbn; repeat split; try discriminate.
    unfold newer_entry. rewrite El. apply negb_false_iff in Eq. exact Eq.
  - (* FORT_SEARCH *)
    destruct (negb (Qle_bool _ _)); [cbn; repeat split; discriminate|].
    destruct (values entry) as [v|]; [|cbn; repeat split; discriminate].
    destruct (payload v) as [p|]; [|cbn; repeat split; discriminate].
    destruct (fort_search_result_kind p) as [H|H]; rewrite H;
      repeat split; try discriminate; auto.
  - (* FORT_DETAILS *)
    destruct (negb (Qle_bool _ _)); [cbn; repeat split; discriminate|].
    destruct (values entry) as [v|]; [|cbn; repeat split; discriminate].
    destruct (payload v) as [p|]; [|cbn; repeat split; discriminate].
    cbn. destruct (default 0 (proto_type p) =? 0); cbn; repeat split; discriminate.
  - (* INVENTORY *)
    destruct (negb (Qle_bool timestamp (timestamp_of entry))) eqn:Eq;
      [cbn; repeat split; discriminate|].
    destruct (values entry) as [v|]; [|cbn; repeat split; discriminate].
    destruct (payload v) as [p|]; [|cbn; repeat split; discriminate].
    destruct (truthy (inventory_items p)); cbn; repeat split; try discriminate.
    unfold newer_entry. rewrite El. apply negb_false_iff in Eq. exact Eq.
Qed.

End DataContent.

(* ===================================================================== *)
(** * Instances of the properties above                                   *)
(* ===================================================================== *)

Section CommunicatorExamples.
Import Communicator.

(** Two calls on one session, [reboot] and [get_screensize]: once the
    second has taken the mutex and sent its command, its command is in
    flight, and no other coroutine has one in flight. *)
Lemma mutex_methods_never_overlap_witness :
  exists P,
    reachable (start (call (fun _ => "0") (fun _ _ _ _ => 0%Q) (mk 5)
                        <$> [CallReboot; CallGetScreensize])) P
    /\ owner P = Some 1%nat
    /\ in_flight P 1
    /\ forall j, in_flight P j -> j = 1%nat.
Proof.
  eexists. split; [|split; [|split]].
  - eapply reachable_step; [eapply reachable_step; [apply reachable_refl|]|].
    + eapply (step_acquire _ 1); reflexivity.
    + eapply (step_send _ 1); reflexivity.
  - reflexivity.
  - eexists. reflexivity.
  - intros j Hj.
    eapply (mutex_methods_never_overlap (fun _ => "0") (fun _ _ _ _ => 0%Q) (mk 5)
              [CallReboot; CallGetScreensize] _ j 1).
    + intros c Hc. apply elem_of_cons in Hc as [-> | Hc]; [reflexivity|].
      apply list_elem_of_singleton in Hc. subst c. reflexivity.
    + eapply reachable_step; [eapply reachable_step; [apply reachable_refl|]|].
      * eapply (step_acquire _ 1); reflexivity.
      * eapply (step_send _ 1); reflexivity.
    + exact Hj.
    + eexists. reflexivity.
Defined.

Lemma cleanup_swallows_closed_and_timeout_witness :
  exists w',
    run (terminate_connection (mk 5))
        (mkWorld false [inl WebsocketWorkerConnectionClosedException] [] ∅ [])
    = Some (inr true, w')
    /\ mutex_locked w' = false.
Proof.
  apply (proj2 (cleanup_swallows_closed_and_timeout (mk 5))
           (mkWorld false [inl WebsocketWorkerConnectionClosedException] [] ∅ []) []).
  - reflexivity.
  - reflexivity.
Defined.

End CommunicatorExamples.


Section WorkerQuestsMoreExamples.
Import WorkerQuests Eff.

Lemma try_to_open_taps_at_most_three_witness :
  let w := example_worker 0
             [(LatestReceivedType.GMO, Some (example_gmo (example_fort 1 true false 0)))] ∅ in
  let run := _try_to_open_pokestop example_s2cells 0%Q w in
  (taps (snd run) <= taps w + 3)%nat
  /\ (forall type_received,
        fst run = inr type_received -> (taps w < taps (snd run))%nat ->
        type_received = LatestReceivedType.STOP \/ taps (snd run) = (taps w + 3)%nat).
Proof.
  cbv zeta.
  apply (try_to_open_taps_at_most_three example_s2cells 0%Q).
  apply surjective_pairing.
Defined.

Lemma try_to_open_skips_unspinnable_witness :
  let w := example_worker 0
             [(LatestReceivedType.GMO, Some (example_gmo (example_fort 1 false false 0)))] ∅ in
  let s1 := snd (_current_position_has_spinnable_stop example_s2cells 0%Q w) in
  exists s',
    _try_to_open_pokestop example_s2cells 0%Q w = (inr LatestReceivedType.UNDEFINED, s')
    /\ taps s' = taps w
    /\ trace s' = trace s1 ++ [].
Proof.
  cbv zeta.
  apply (try_to_open_skips_unspinnable example_s2cells 0%Q _ _ PositionStopType.STOP_DISABLED).
  - reflexivity.
  - reflexivity.
  - discriminate.
Defined.

Lemma reconciliation_never_deletes_witness :
  let w := example_worker 0 [] {[ "stop-1" := example_stale_stop ]} in
  let run := _check_if_stop_was_nearby_and_update_location [] w in
  deletions (snd run) = deletions w /\ (fst run = inr tt \/ fst run = inl TypeError).
Proof.
  cbv zeta.
  apply (reconciliation_never_deletes []). apply surjective_pairing.
Defined.

End WorkerQuestsMoreExamples.

(* ===================================================================== *)
(** * Getting back to the main screen                                     *)
(* ===================================================================== *)

Section MainScreenProperties.
Import MainScreen Eff.

Lemma checks_snoc entries e :
  checks (entries ++ [e])
  = (checks entries + match fst e with CheckPogoMainscreen => 1 | _ => 0 end)%nat.
Proof.
  unfold checks. rewrite List.filter_app, length_app. simpl.
  destruct (fst e); reflexivity.
Qed.

Lemma checks_other entries c outcome :
  match c with CheckPogoMainscreen => False | _ => True end ->
  checks (entries ++ [(c, outcome)]) = checks entries.
Proof. intros Hc. rewrite checks_snoc. destruct c; try contradiction; simpl; lia. Qed.

Lemma quiet_ret {A} (a : A) : quiet (ret a).
Proof. intros s. exists a, s. auto. Qed.

Lemma quiet_bind {A B} (m : M t A) (f : A -> M t B) :
  quiet m -> (forall a, quiet (f a)) -> quiet (bind m f).
Proof.
  intros Hm Hf s. destruct (Hm s) as (a & s1 & E1 & H1).
  destruct (Hf a s1) as (b & s2 & E2 & H2).
  exists b, s2. rewrite (run_bind _ _ _ _ _ E1). split; [exact E2|congruence].
Qed.

Lemma quiet_ask c :
  match c with CheckPogoMainscreen => False | _ => True end -> quiet (ask c).
Proof.
  intros Hc s. eexists _, _. split; [reflexivity|]. cbn [log]. apply checks_other. exact Hc.
Qed.

Lemma quiet_act c :
  match c with CheckPogoMainscreen => False | _ => True end -> quiet (act c).
Proof.
  intros Hc s. eexists _, _. split; [reflexivity|]. cbn [log]. apply checks_other. exact Hc.
Qed.

Lemma quiet_take_screenshot : quiet take_screenshot.
Proof.
  unfold take_screenshot. intros s. rewrite bind_gets. apply quiet_ask. exact I.
Qed.

Lemma quiet_close_popups : quiet close_popups.
Proof.
  unfold close_popups.
  apply quiet_bind; [apply quiet_ask; exact I|]. intros found.
  apply quiet_bind; [destruct (negb found); [apply quiet_ask; exact I|apply quiet_ret]|].
  intros found2.
  apply quiet_bind.
  { destruct (negb found2); [|apply quiet_ret].
    apply quiet_bind; [apply quiet_ask; exact I|]. intros [|]; [|apply quiet_ret].
    apply quiet_bind; [apply quiet_act; exact I|]. intros _. apply quiet_ret. }
  intros found3. apply quiet_bind; [apply quiet_take_screenshot|]. intros _. apply quiet_ret.
Qed.

Lemma main_screen_loop_bounded fuel : forall attempts max_attempts s,
  attempts <= max_attempts ->
  Z.of_nat fuel = max_attempts - attempts + 1 ->
  exists on_mainscreen s',
    main_screen_loop fuel attempts max_attempts s = (inr (Some on_mainscreen), s')
    /\ (checks (log s) < checks (log s') <= checks (log s) + fuel)%nat
    /\ (on_mainscreen = true -> last (log s') = Some (CheckPogoMainscreen, Some true))
    /\ (on_mainscreen = false ->
          checks (log s') = (checks (log s) + fuel)%nat
          /\ last (log s') = Some (CheckPogoMainscreen, Some false)).
Proof.
  induction fuel as [|fuel IH]; intros attempts max_attempts s Hle0 Hf; [lia|].
  cbn [main_screen_loop].
  set (s1 := mk (post_screenshot_delay s) (tl (answers s))
                (log s ++ [(CheckPogoMainscreen, Some (hd false (answers s)))])).
  rewrite (run_bind (ask CheckPogoMainscreen) _ s (hd false (answers s)) s1 eq_refl).
  assert (checks (log s1) = S (checks (log s))) as Hc1.
  { subst s1. cbn [log]. rewrite checks_snoc. simpl. lia. }
  destruct (hd false (answers s)) eqn:Ea.
  - exists true, s1. split; [reflexivity|]. split; [lia|].
    split; [intros _; subst s1; cbn [log]; apply last_snoc|discriminate].
  - destruct (attempts =? max_attempts) eqn:Em.
    + apply Z.eqb_eq in Em. exists false, s1. split; [reflexivity|].
      split; [lia|]. split; [discriminate|]. intros _.
      split; [lia|subst s1; cbn [log]; apply last_snoc].
    + apply Z.eqb_neq in Em.
      destruct (quiet_close_popups s1) as ([] & s2 & E2 & Hc2).
      rewrite (run_bind _ _ _ _ _ E2).
      destruct (IH (attempts + 1) max_attempts s2) as (b & s' & E & Hle & Ht & Hfa); [lia|lia|].
      exists b, s'. split; [exact E|]. split; [lia|]. split; [exact Ht|].
      intros Hb. destruct (Hfa Hb) as [H1 H2]. split; [lia|exact H2].
Qed.

(** X30.  [_check_pogo_main_screen] with [max_attempts] at least 0
    returns after at most [max_attempts + 1] looks for the main screen.
    It returns [True] only straight after a look that found the main
    screen; and when it has looked at all and returns [False], it has
    looked [max_attempts + 1] times, the last look included, and none of
    them found it. *)
Theorem check_pogo_main_screen_bounded (max_attempts : Z) (again : bool) (s : t) :
  0 <= max_attempts ->
  let fuel := S (Z.to_nat max_attempts) in
  exists on_mainscreen s',
    _check_pogo_main_screen fuel max_attempts again s = (inr (Some on_mainscreen), s')
    /\ (checks (log s') <= checks (log s) + fuel)%nat
    /\ (on_mainscreen = true -> last (log s') = Some (CheckPogoMainscreen, Some true))
    /\ (on_mainscreen = false -> (checks (log s) < checks (log s'))%nat ->
          checks (log s') = (checks (log s) + fuel)%nat
          /\ last (log s') = Some (CheckPogoMainscreen, Some false)).
Proof.
  intros Hm fuel. unfold _check_pogo_main_screen.
  destruct (quiet_ask IsPogoTopmost I s) as (topmost & s1 & E1 & H1).
  rewrite (run_bind _ _ _ _ _ E1).
  destruct (negb topmost).
  { exists false, s1. split; [reflexivity|]. split; [lia|]. split; [discriminate|]. lia. }
  destruct (quiet_take_screenshot s1) as (taken & s2 & E2 & H2).
  rewrite (run_bind _ _ _ _ _ E2).
  destruct (negb taken && again).
  { exists false, s2. split; [reflexivity|]. split; [lia|]. split; [discriminate|]. lia. }
  destruct (quiet_ask IsDir I s2) as (is_dir & s3 & E3 & H3).
  rewrite (run_bind _ _ _ _ _ E3).
  destruct is_dir.
  { exists false, s3. split; [reflexivity|]. split; [lia|]. split; [discriminate|]. lia. }
  destruct (main_screen_loop_bounded fuel 0 max_attempts s3) as (b & s' & E & Hle & Ht & Hfa).
  { exact Hm. }
  { subst fuel. lia. }
  exists b, s'. split; [exact E|]. split; [lia|]. split; [exact Ht|].
  intros Hb _. destruct (Hfa Hb) as [Hc Hl]. split; [lia|exact Hl].
Qed.

End MainScreenProperties.

Section MainScreenExamples.
Import MainScreen Eff.

Lemma check_pogo_main_screen_bounded_witness :
  let s := mk None [true; true; false; false; true; true; true] [] in
  let fuel := S (Z.to_nat 10) in
  exists on_mainscreen s',
    _check_pogo_main_screen fuel 10 true s = (inr (Some on_mainscreen), s')
    /\ (checks (log s') <= checks (log s) + fuel)%nat
    /\ (on_mainscreen = true -> last (log s') = Some (CheckPogoMainscreen, Some true))
    /\ (on_mainscreen = false -> (checks (log s) < checks (log s'))%nat ->
          checks (log s') = (checks (log s) + fuel)%nat
          /\ last (log s') = Some (CheckPogoMainscreen, Some false)).
Proof.
  cbv zeta.
  apply (check_pogo_main_screen_bounded 10 true
           (mk None [true; true; false; false; true; true; true] [])).
  lia.
Defined.

End MainScreenExamples.
